(** * rpn2tex: a shallow embedding of the RPN -> LaTeX pipeline

    The development follows the layout of the Python package:

    - [Py]        the handful of Python built-ins the code relies on
                  (exceptions, [str.isdigit], [str(int)], [str.splitlines],
                  list [pop], [range], string padding and joining);
    - [Tokens]    tokens.py    ([TokenType], [Token]);
    - [Lexer]     lexer.py     ([tokenize] and its private helpers);
    - [Ast]       ast_nodes.py ([Number], [BinaryOp]);
    - [Parser]    parser.py    ([parse]);
    - [LaTeXGenerator]  latex_gen.py ([generate], [_visit], [_needs_parens]);
    - [Limited]   [generate] and [_visit] again, under the recursion limit
                  of the interpreter;
    - [ErrorFormatter]  errors.py    ([format_error], [_get_context]);
    - [Cli], [CliMain]  cli.py       (the pipeline, and [main] from the
                  parsed arguments on).

    Python [int]s are [Z]; list indices and cursor positions, which the code
    only ever increments from 0, are [nat].  A Python [str] is a Rocq
    [string] read as a sequence of the code points U+0000..U+00FF, one per
    [ascii].  A raised exception is the [Raise] branch of [result]. *)

From Stdlib Require Import String Ascii List ZArith Lia Bool Arith.
From Stdlib Require Import DecimalString.
From Stdlib Require DecimalFacts DecimalPos.
Import ListNotations.

Open Scope string_scope.

(* ================================================================== *)
(** * Python built-ins *)

Module Py.

(** Outcome of a call: a value or a raised exception. *)
Inductive result (E A : Type) : Type :=
| Ok (a : A)
| Raise (e : E).
Arguments Ok {E A} a.
Arguments Raise {E A} e.

Definition bind {E A B} (m : result E A) (k : A -> result E B) : result E B :=
  match m with
  | Ok a => k a
  | Raise e => Raise e
  end.

Definition chr (n : nat) : ascii := ascii_of_nat n.
Definition LF : ascii := chr 10.
Definition CR : ascii := chr 13.
Definition TAB : ascii := chr 9.

(** [str(c)] for a single character. *)
Definition char1 (c : ascii) : string := String c EmptyString.

Definition nl : string := char1 LF.

(** [sub in s] on strings: substring test. *)
Definition str_in (sub s : string) : bool :=
  match index 0 sub s with
  | Some _ => true
  | None => false
  end.

(** [c.isdigit()] on one code point below U+0100: the ten decimal digits
    and the three superscript digits U+00B2, U+00B3, U+00B9, which carry
    Numeric_Type=Digit. *)
Definition isdigit_char (c : ascii) : bool :=
  let n := nat_of_ascii c in
  (((48 <=? n) && (n <=? 57)) || (n =? 178) || (n =? 179) || (n =? 185))%nat.

Fixpoint all_chars (p : ascii -> bool) (s : string) : bool :=
  match s with
  | EmptyString => true
  | String c s' => p c && all_chars p s'
  end.

(** [s.isdigit()]: every character is a digit and there is at least one. *)
Definition isdigit (s : string) : bool :=
  match s with
  | EmptyString => false
  | _ => all_chars isdigit_char s
  end.

(** The decimal digits '0'..'9' only. *)
Definition is_decimal_digit (c : ascii) : bool :=
  let n := nat_of_ascii c in ((48 <=? n) && (n <=? 57))%nat.

(** [str(n)] for an [int]. *)
Definition str_of_int (z : Z) : string := NilZero.string_of_int (Z.to_int z).

(** [" " * n]; a non-positive count gives the empty string. *)
Fixpoint spaces_nat (n : nat) : string :=
  match n with
  | O => ""
  | S n' => String " " (spaces_nat n')
  end.

Definition spaces (n : Z) : string := spaces_nat (Z.to_nat n).

(** [f"{s:>{width}}"]: right-align [s] in a field of [width] characters. *)
Definition rjust (s : string) (width : Z) : string :=
  spaces (width - Z.of_nat (String.length s)) ++ s.

(** [sep.join(parts)]. *)
Fixpoint join (sep : string) (parts : list string) : string :=
  match parts with
  | [] => ""
  | [p] => p
  | p :: rest => p ++ sep ++ join sep rest
  end.

(** [range(start, stop)]. *)
Definition range (start stop : Z) : list Z :=
  map (fun i => (start + Z.of_nat i)%Z) (seq 0 (Z.to_nat (stop - start))).

(** [lst.pop()]: the last element and the list without it; [None] stands for
    the IndexError on an empty list. *)
Definition pop {A} (l : list A) : option (A * list A) :=
  match rev l with
  | [] => None
  | x :: r => Some (x, rev r)
  end.

(** Line boundaries of [str.splitlines] below U+0100:
    LF, VT, FF, CR, FS, GS, RS and NEL. *)
Definition is_linebreak (c : ascii) : bool :=
  let n := nat_of_ascii c in
  ((n =? 10) || (n =? 11) || (n =? 12) || (n =? 13) ||
   (n =? 28) || (n =? 29) || (n =? 30) || (n =? 133))%nat.

(** [splitlines_from cur after_cr s]: [cur] is the line being accumulated;
    [after_cr] says the previous character was a CR, so that a LF coming
    next belongs to the same CR LF boundary. *)
Fixpoint splitlines_from (cur : string) (after_cr : bool) (s : string)
  : list string :=
  match s with
  | EmptyString => if (String.length cur =? 0)%nat then [] else [cur]
  | String c s' =>
      if after_cr && Ascii.eqb c LF then splitlines_from cur false s'
      else if is_linebreak c then cur :: splitlines_from "" (Ascii.eqb c CR) s'
      else splitlines_from (cur ++ char1 c) false s'
  end.

(** [s.splitlines()]: no final empty line for a final line break. *)
Definition splitlines (s : string) : list string := splitlines_from "" false s.

End Py.

Import Py.

Notation "x <- m ;; k" := (bind m (fun x => k))
  (at level 61, m at next level, right associativity).
Notation "' pat <- m ;; k" := (bind m (fun x => match x with pat => k end))
  (at level 61, pat pattern, m at next level, right associativity).

(* ================================================================== *)
(** * tokens.py *)

Module Tokens.

Inductive TokenType : Type := NUMBER | PLUS | MINUS | MULT | DIV | EOF.

Definition TokenType_eqb (a b : TokenType) : bool :=
  match a, b with
  | NUMBER, NUMBER | PLUS, PLUS | MINUS, MINUS
  | MULT, MULT | DIV, DIV | EOF, EOF => true
  | _, _ => false
  end.

Record Token : Type := mkToken {
  type : TokenType;
  value : string;
  line : Z;
  column : Z
}.

End Tokens.

(** The exceptions the package raises or lets escape.  The last six are
    raised by the interpreter and by the calls [main] makes to read, write
    and print; [OSError] stands for an OSError of none of the three
    subclasses above it. *)
Inductive exn : Type :=
| LexerError (message : string) (line column : Z)
| ParserError (message : string) (token : Tokens.Token)
| IndexError
| KeyError (key : string)
| RecursionError
| FileNotFoundError
| PermissionError
| IsADirectoryError
| OSError (strerror : string)
| UnicodeError (reason : string).

(* ================================================================== *)
(** * lexer.py *)

Module Lexer.

Record Lexer : Type := mkLexer {
  text : string;
  pos : nat;
  line : Z;
  column : Z
}.

(** [Lexer.__init__]. *)
Definition init (text : string) : Lexer := mkLexer text 0 1 1.

Definition _at_end (self : Lexer) : bool :=
  (String.length (text self) <=? pos self)%nat.

Definition _peek (self : Lexer) : string :=
  if _at_end self then ""
  else match get (pos self) (text self) with
       | Some c => char1 c
       | None => ""
       end.

(** [self.text[self.pos]] raises IndexError past the end. *)
Definition _advance (self : Lexer) : result exn (string * Lexer) :=
  match get (pos self) (text self) with
  | None => Raise IndexError
  | Some c =>
      let char := char1 c in
      if char =? nl
      then Ok (char, mkLexer (text self) (pos self + 1) (line self + 1) 1)
      else Ok (char, mkLexer (text self) (pos self + 1) (line self)
                             (column self + 1))
  end.

(** Characters left to read.  Every [while] of the lexer reads one
    character at least per iteration and stops at the end of the text, so
    this bounds its number of iterations: given that much fuel, a loop below
    reaches its last branch only at the end of the text, where the [while]
    exits too (see [skip_whitespace_exit], [digits_loop_run] and
    [tokenize_loop_exit]). *)
Definition remaining (self : Lexer) : nat :=
  String.length (text self) - pos self.

(** The literal [" \t\n\r"]. *)
Definition whitespace : string :=
  String " " (String TAB (String LF (String CR EmptyString))).

(** [while not self._at_end() and self._peek() in " \t\n\r":
       self._advance()] *)
Fixpoint skip_whitespace_loop (fuel : nat) (self : Lexer)
  : result exn Lexer :=
  match fuel with
  | O => Ok self
  | S fuel' =>
      if negb (_at_end self) && str_in (_peek self) whitespace then
        '(_, self) <- _advance self ;;
        skip_whitespace_loop fuel' self
      else Ok self
  end.

Definition _skip_whitespace (self : Lexer) : result exn Lexer :=
  skip_whitespace_loop (remaining self) self.

(** [while not self._at_end() and self._peek().isdigit():
       value += self._advance()] *)
Fixpoint digits_loop (fuel : nat) (self : Lexer) (value : string)
  : result exn (string * Lexer) :=
  match fuel with
  | O => Ok (value, self)
  | S fuel' =>
      if negb (_at_end self) && isdigit (_peek self) then
        '(c, self) <- _advance self ;;
        digits_loop fuel' self (value ++ c)
      else Ok (value, self)
  end.

Definition _scan_number (self : Lexer) (prefix : string)
  (start_line start_column : Z) : result exn (Tokens.Token * Lexer) :=
  let value := prefix in
  (* Integer part *)
  '(value, self) <- digits_loop (remaining self) self value ;;
  (* Decimal part (optional) *)
  if negb (_at_end self) && (_peek self =? ".") then
    '(c, self) <- _advance self ;;
    let value := value ++ c in
    '(value, self) <- digits_loop (remaining self) self value ;;
    Ok (Tokens.mkToken Tokens.NUMBER value start_line start_column, self)
  else
    Ok (Tokens.mkToken Tokens.NUMBER value start_line start_column, self).

Definition _scan_token (self : Lexer) : result exn (Tokens.Token * Lexer) :=
  let start_line := line self in
  let start_column := column self in
  let char := _peek self in
  (* Single-character operators *)
  if char =? "+" then
    '(_, self) <- _advance self ;;
    Ok (Tokens.mkToken Tokens.PLUS "+" start_line start_column, self)
  else if char =? "-" then
    '(_, self) <- _advance self ;;
    if negb (_at_end self) && isdigit (_peek self) then
      _scan_number self "-" start_line start_column
    else
      Ok (Tokens.mkToken Tokens.MINUS "-" start_line start_column, self)
  else if char =? "*" then
    '(_, self) <- _advance self ;;
    Ok (Tokens.mkToken Tokens.MULT "*" start_line start_column, self)
  else if char =? "/" then
    '(_, self) <- _advance self ;;
    Ok (Tokens.mkToken Tokens.DIV "/" start_line start_column, self)
  (* Numbers *)
  else if isdigit char then
    _scan_number self "" start_line start_column
  (* Unknown character *)
  else
    Raise (LexerError ("Unexpected character '" ++ char ++ "'")
                      start_line start_column).

(** The [while not self._at_end()] loop of [tokenize]; the early exit is
    the [break]. *)
Fixpoint tokenize_loop (fuel : nat) (self : Lexer) (tokens : list Tokens.Token)
  : result exn (list Tokens.Token * Lexer) :=
  match fuel with
  | O => Ok (tokens, self)
  | S fuel' =>
      if negb (_at_end self) then
        self <- _skip_whitespace self ;;
        if _at_end self then Ok (tokens, self)
        else
          '(tok, self) <- _scan_token self ;;
          tokenize_loop fuel' self (tokens ++ [tok])%list
      else Ok (tokens, self)
  end.

Definition tokenize (self : Lexer) : result exn (list Tokens.Token) :=
  '(tokens, self) <- tokenize_loop (remaining self) self [] ;;
  (* Add EOF token *)
  Ok (tokens ++ [Tokens.mkToken Tokens.EOF "" (line self) (column self)])%list.

End Lexer.

(* ================================================================== *)
(** * ast_nodes.py *)

Module Ast.

(** [Expr = Number | BinaryOp]; both carry the [line] and [column] of
    [ASTNode]. *)
Inductive Expr : Type :=
| Number (line column : Z) (value : string)
| BinaryOp (line column : Z) (operator : string) (left right : Expr).

End Ast.

(* ================================================================== *)
(** * parser.py *)

Module Parser.

Record Parser : Type := mkParser {
  tokens : list Tokens.Token;
  pos : nat
}.

(** [Parser.__init__]. *)
Definition init (tokens : list Tokens.Token) : Parser := mkParser tokens 0.

(** [self.tokens[self.pos]]. *)
Definition _current (self : Parser) : result exn Tokens.Token :=
  match nth_error (tokens self) (pos self) with
  | Some t => Ok t
  | None => Raise IndexError
  end.

Definition _at_end (self : Parser) : result exn bool :=
  t <- _current self ;;
  Ok (Tokens.TokenType_eqb (Tokens.type t) Tokens.EOF).

Definition _advance (self : Parser) : result exn (Tokens.Token * Parser) :=
  token <- _current self ;;
  at_end <- _at_end self ;;
  if negb at_end
  then Ok (token, mkParser (tokens self) (pos self + 1))
  else Ok (token, self).

(** [self.tokens[-1]]. *)
Definition last_token (self : Parser) : result exn Tokens.Token :=
  match rev (tokens self) with
  | t :: _ => Ok t
  | [] => Raise IndexError
  end.

(** The local dict [op_map], indexed by token type. *)
Definition op_map (t : Tokens.TokenType) : result exn string :=
  match t with
  | Tokens.PLUS => Ok "+"
  | Tokens.MINUS => Ok "-"
  | Tokens.MULT => Ok "*"
  | Tokens.DIV => Ok "/"
  | Tokens.NUMBER => Raise (KeyError "TokenType.NUMBER")
  | Tokens.EOF => Raise (KeyError "TokenType.EOF")
  end.

(** [token.type in (PLUS, MINUS, MULT, DIV)]. *)
Definition is_operator (t : Tokens.TokenType) : bool :=
  Tokens.TokenType_eqb t Tokens.PLUS || Tokens.TokenType_eqb t Tokens.MINUS ||
  Tokens.TokenType_eqb t Tokens.MULT || Tokens.TokenType_eqb t Tokens.DIV.

(** How one iteration of the [while] of [parse] ends: it goes round again
    with an updated cursor and stack, or leaves through [break]. *)
Inductive flow : Type :=
| Continue (self : Parser) (stack : list Ast.Expr)
| Break (stack : list Ast.Expr).

(** The body of the [while] of [parse]. *)
Definition loop_body (self : Parser) (stack : list Ast.Expr)
  : result exn flow :=
  token <- _current self ;;
  if Tokens.TokenType_eqb (Tokens.type token) Tokens.NUMBER then
    (* Push number onto stack *)
    let num_node :=
      Ast.Number (Tokens.line token) (Tokens.column token) (Tokens.value token) in
    let stack := (stack ++ [num_node])%list in
    '(_, self) <- _advance self ;;
    Ok (Continue self stack)
  else if is_operator (Tokens.type token) then
    (* Pop two operands and create binary operation *)
    if (List.length stack <? 2)%nat then
      Raise (ParserError
               ("Operator '" ++ Tokens.value token ++ "' requires two operands")
               token)
    else
      match pop stack with
      | None => Raise IndexError
      | Some (right_, stack) =>
          match pop stack with
          | None => Raise IndexError
          | Some (left_, stack) =>
              operator <- op_map (Tokens.type token) ;;
              let op_node :=
                Ast.BinaryOp (Tokens.line token) (Tokens.column token)
                             operator left_ right_ in
              let stack := (stack ++ [op_node])%list in
              '(_, self) <- _advance self ;;
              Ok (Continue self stack)
          end
      end
  else if Tokens.TokenType_eqb (Tokens.type token) Tokens.EOF then
    Ok (Break stack)
  else
    Raise (ParserError ("Unexpected token '" ++ Tokens.value token ++ "'") token).

(** The [while not self._at_end()] loop.  Every iteration that goes round
    again moves [pos] forward by one and [_at_end] raises once [pos] is
    past the list, so [len(tokens) - pos] iterations always suffice and the
    branch for exhausted fuel is never taken (see [parse_loop_fuel]). *)
Fixpoint parse_loop (fuel : nat) (self : Parser) (stack : list Ast.Expr)
  : result exn (list Ast.Expr) :=
  at_end <- _at_end self ;;
  if negb at_end then
    match fuel with
    | O => Raise IndexError
    | S fuel' =>
        fl <- loop_body self stack ;;
        match fl with
        | Continue self stack => parse_loop fuel' self stack
        | Break stack => Ok stack
        end
    end
  else Ok stack.

Definition iterations (self : Parser) : nat :=
  List.length (tokens self) - pos self.

Definition parse (self : Parser) : result exn Ast.Expr :=
  stack <- parse_loop (iterations self) self [] ;;
  (* Validate final state *)
  if (List.length stack =? 0)%nat then
    eof_token <- last_token self ;;
    Raise (ParserError "Empty expression" eof_token)
  else if (1 <? List.length stack)%nat then
    t <- last_token self ;;
    Raise (ParserError
             ("Invalid RPN: " ++ str_of_int (Z.of_nat (List.length stack))
              ++ " values remain on stack " ++ "(missing operators?)")
             t)
  else
    match stack with
    | e :: _ => Ok e
    | [] => Raise IndexError
    end.

End Parser.

(* ================================================================== *)
(** * latex_gen.py *)

Module LaTeXGenerator.

(** [d[key]] on a dict given by its items; a missing key raises KeyError. *)
Fixpoint getitem {V} (d : list (string * V)) (key : string) : result exn V :=
  match d with
  | [] => Raise (KeyError key)
  | (k, v) :: d' => if k =? key then Ok v else getitem d' key
  end.

Definition BINARY_OPS : list (string * string) :=
  [("+", "+"); ("-", "-"); ("*", "\times"); ("/", "\div")].

Definition PRECEDENCE : list (string * Z) :=
  [("+", 1%Z); ("-", 1%Z); ("*", 2%Z); ("/", 2%Z)].

Definition _needs_parens (child : Ast.Expr) (parent_precedence : Z)
  (is_right : bool) : result exn bool :=
  match child with
  | Ast.Number _ _ _ => Ok false
  | Ast.BinaryOp _ _ operator _ _ =>
      child_precedence <- getitem PRECEDENCE operator ;;
      (* Lower precedence always needs parens *)
      if (child_precedence <? parent_precedence)%Z then Ok true
      else
        Ok ((child_precedence =? parent_precedence)%Z
            && is_right
            && ((operator =? "-") || (operator =? "/")))
  end.

(** [_visit] with its two registered implementations, [_visit_number] and
    [_visit_binary_op].  This is the function as the source text defines
    it, computed on an interpreter that never runs out of stack; the
    recursion limit of the interpreter is added in [Limited._visit]. *)
Fixpoint _visit (node : Ast.Expr) : result exn string :=
  match node with
  | Ast.Number _ _ value => Ok value
  | Ast.BinaryOp _ _ operator l r =>
      op_latex <- getitem BINARY_OPS operator ;;
      my_precedence <- getitem PRECEDENCE operator ;;
      (* Generate left operand, adding parens if needed *)
      left <- _visit l ;;
      wrap <- _needs_parens l my_precedence false ;;
      let left := if wrap then "( " ++ left ++ " )" else left in
      (* Generate right operand, adding parens if needed *)
      right <- _visit r ;;
      wrap <- _needs_parens r my_precedence true ;;
      let right := if wrap then "( " ++ right ++ " )" else right in
      Ok (left ++ " " ++ op_latex ++ " " ++ right)
  end.

Definition generate (ast : Ast.Expr) : result exn string :=
  content <- _visit ast ;;
  Ok ("$" ++ content ++ "$").

End LaTeXGenerator.

(* ================================================================== *)
(** * latex_gen.py under the recursion limit *)

(** CPython refuses a call that would nest deeper than the recursion limit
    and raises RecursionError in its place.  [_visit] is the one recursive
    function of the package: it nests two calls for each level of the
    tree, the wrapper that [functools.singledispatchmethod] puts around it
    and the method registered for the class of the node.  [frames] is the
    number of calls that may still be nested inside the running one (the
    recursion limit less the depth reached, up to the bookkeeping of the
    interpreter). *)
Module Limited.

Import LaTeXGenerator.

(** A call: refused when no frame is left; otherwise the callee runs, with
    one frame less for the calls it makes itself. *)
Definition call {A} (frames : nat) (callee : nat -> result exn A)
  : result exn A :=
  match frames with
  | O => Raise RecursionError
  | S inner => callee inner
  end.

(** The body of the wrapper that [self._visit(node)] enters: it calls
    [_visit_number] or [_visit_binary_op], and the latter calls
    [self._visit] on each operand and [self._needs_parens].  The lookups
    in the two dicts, [isinstance] and the string formatting are not calls
    of Python functions. *)
Fixpoint _visit (frames : nat) (node : Ast.Expr) : result exn string :=
  call frames (fun frames =>
    match node with
    | Ast.Number _ _ value => Ok value
    | Ast.BinaryOp _ _ operator l r =>
        op_latex <- getitem BINARY_OPS operator ;;
        my_precedence <- getitem PRECEDENCE operator ;;
        (* Generate left operand, adding parens if needed *)
        left <- call frames (fun frames => _visit frames l) ;;
        wrap <- call frames (fun _ => _needs_parens l my_precedence false) ;;
        let left := if wrap then "( " ++ left ++ " )" else left in
        (* Generate right operand, adding parens if needed *)
        right <- call frames (fun frames => _visit frames r) ;;
        wrap <- call frames (fun _ => _needs_parens r my_precedence true) ;;
        let right := if wrap then "( " ++ right ++ " )" else right in
        Ok (left ++ " " ++ op_latex ++ " " ++ right)
    end).

(** The body of [generate]. *)
Definition generate (frames : nat) (ast : Ast.Expr) : result exn string :=
  content <- call frames (fun frames => _visit frames ast) ;;
  Ok ("$" ++ content ++ "$").

End Limited.

(* ================================================================== *)
(** * errors.py *)

Module ErrorFormatter.

Record ErrorFormatter : Type := mkErrorFormatter {
  source : string;
  lines : list string
}.

(** [ErrorFormatter.__init__]. *)
Definition init (source : string) : ErrorFormatter :=
  mkErrorFormatter source (splitlines source).

(** One iteration of the [for idx in range(start_idx, end_idx)] of
    [_get_context]: it appends the numbered line and, on the error line,
    the caret row.  [idx] is never negative there ([start_idx] is at least
    0), so [self.lines[idx]] is a plain lookup. *)
Definition context_step (self : ErrorFormatter) (error_idx column num_width : Z)
  (result_lines : list string) (idx : Z) : list string :=
  let line_num := (idx + 1)%Z in
  let line_content :=
    if (idx <? Z.of_nat (List.length (lines self)))%Z
    then nth (Z.to_nat idx) (lines self) ""
    else "" in
  (* Format line with number *)
  let prefix := rjust (str_of_int line_num) num_width ++ " | " in
  let numbered := prefix ++ line_content in
  let result_lines := (result_lines ++ [numbered])%list in
  (* Add caret on error line *)
  if (idx =? error_idx)%Z then
    let caret_prefix := spaces num_width ++ " | " in
    let caret_pos := Z.max 0 (column - 1) in
    let caret_line := caret_prefix ++ spaces caret_pos ++ "^" in
    (result_lines ++ [caret_line])%list
  else result_lines.

Definition _get_context (self : ErrorFormatter) (line column context_lines : Z)
  : string :=
  (* Convert to 0-based index *)
  let error_idx := (line - 1)%Z in
  (* Calculate range (clamped to valid indices) *)
  let start_idx := Z.max 0 (error_idx - context_lines) in
  let end_idx :=
    Z.min (Z.of_nat (List.length (lines self)))
          (error_idx + context_lines + 1) in
  (* Calculate line number width for alignment *)
  let max_line_num := end_idx in
  let num_width := Z.of_nat (String.length (str_of_int max_line_num)) in
  let result_lines :=
    fold_left (context_step self error_idx column num_width)
              (range start_idx end_idx) [] in
  join nl result_lines.

(** [context_lines] defaults to 1. *)
Definition format_error (self : ErrorFormatter) (message : string)
  (line column context_lines : Z) : string :=
  let parts := ["Error: " ++ message; ""] in
  (* Source context *)
  let context := _get_context self line column context_lines in
  let parts := (parts ++ [context])%list in
  join nl parts.

End ErrorFormatter.

(* ================================================================== *)
(** * cli.py: the pipeline of [main] *)

Module Cli.

(** tokenize -> parse -> generate, as in the [try] block of [main]. *)
Definition convert (text : string) : result exn string :=
  tokens <- Lexer.tokenize (Lexer.init text) ;;
  ast <- Parser.parse (Parser.init tokens) ;;
  LaTeXGenerator.generate ast.

(** What [main] prints on the diagnostic stream for a LexerError or a
    ParserError of the pipeline. *)
Definition diagnostic (text : string) (e : exn) : option string :=
  let formatter := ErrorFormatter.init text in
  match e with
  | LexerError message line column =>
      Some (ErrorFormatter.format_error formatter message line column 1)
  | ParserError message token =>
      Some (ErrorFormatter.format_error formatter message
              (Tokens.line token) (Tokens.column token) 1)
  | _ => None
  end.

End Cli.

(** [main], from the parsed arguments on: [input] is [args.input] and
    [output] is [args.output] as it prints, [None] when no [-o] was given.
    An exception [main] does not catch escapes. *)
Module CliMain.

(** What a run meets outside the program: [read] is what
    [sys.stdin.read()] or [input_path.read_text()] gives, the text or the
    exception raised; [write] is the exception [write_text] raises, [None]
    when it writes the file; [stdout_raises] is the exception the [print]
    to the standard output raises, and [stderr_raises n] the exception
    raised by the [print] to [sys.stderr] that comes after [n] others,
    [None] when the line is printed. *)
Record world : Type := mkWorld {
  read : result exn string;
  write : option exn;
  stdout_raises : option exn;
  stderr_raises : nat -> option exn
}.

(** How a run ends -- the exit code [main] returns or the exception that
    leaves it -- with what it printed on each stream and the text
    [write_text] wrote, if it did. *)
Record run : Type := mkRun {
  ended : result exn Z;
  stdout : string;
  stderr : string;
  written : option string
}.

(** [print(s, file=sys.stderr)] followed by [return code], the print being
    the one after [n] others; [file] is what has been written to the output
    file.  A print writes [s] and a line feed, or raises. *)
Definition print_stderr_return (w : world) (n : nat) (s : string) (code : Z)
  (file : option string) : run :=
  match stderr_raises w n with
  | None => mkRun (Ok code) "" (s ++ nl) file
  | Some e => mkRun (Raise e) "" "" file
  end.

(** The [try] block of the pipeline; [frames] is the number of calls that
    may be nested inside [main].  The lexer, the parser and the formatter
    nest five calls at most ([tokenize], [_scan_token], [_scan_number],
    [_peek], [_at_end]), fewer than the argument parser has nested before
    them, and are taken to fit. *)
Definition convert (frames : nat) (text : string) : result exn string :=
  tokens <- Lexer.tokenize (Lexer.init text) ;;
  ast <- Parser.parse (Parser.init tokens) ;;
  Limited.call frames (fun frames => Limited.generate frames ast).

(** The [except] clauses of the [try] block that writes the output: [e]
    was raised by [write_text] or by the [print] after it, and [n] prints
    to [sys.stderr] have been attempted. *)
Definition write_failed (w : world) (n : nat) (path : string)
  (file : option string) (e : exn) : run :=
  match e with
  | PermissionError =>
      print_stderr_return w n ("Error: Permission denied writing: " ++ path) 1 file
  | IsADirectoryError =>
      print_stderr_return w n ("Error: Cannot write to directory: " ++ path) 1 file
  | _ => mkRun (Raise e) "" "" file
  end.

Definition main (frames : nat) (input : string) (output : option string)
  (w : world) : run :=
  (* Read input *)
  match read w with
  | Raise FileNotFoundError =>
      print_stderr_return w 0 ("Error: Input file not found: " ++ input) 1 None
  | Raise PermissionError =>
      print_stderr_return w 0 ("Error: Permission denied reading: " ++ input) 1 None
  | Raise IsADirectoryError =>
      print_stderr_return w 0
        ("Error: Expected a file, got a directory: " ++ input) 1 None
  | Raise e => mkRun (Raise e) "" "" None
  | Ok text =>
      (* Process: tokenize -> parse -> generate *)
      let formatter := ErrorFormatter.init text in
      match convert frames text with
      | Raise (LexerError message line column) =>
          let formatted :=
            ErrorFormatter.format_error formatter message line column 1 in
          print_stderr_return w 0 formatted 1 None
      | Raise (ParserError message token) =>
          let formatted :=
            ErrorFormatter.format_error formatter message
              (Tokens.line token) (Tokens.column token) 1 in
          print_stderr_return w 0 formatted 1 None
      | Raise e => mkRun (Raise e) "" "" None
      | Ok latex =>
          (* Write output *)
          match output with
          | Some path =>
              match write w with
              | Some e => write_failed w 0 path None e
              | None =>
                  let file := Some (latex ++ nl) in
                  match stderr_raises w 0 with
                  | Some e => write_failed w 1 path file e
                  | None => mkRun (Ok 0%Z) "" ("Generated: " ++ path ++ nl) file
                  end
              end
          | None =>
              match stdout_raises w with
              | Some e => mkRun (Raise e) "" "" None
              | None => mkRun (Ok 0%Z) (latex ++ nl) "" None
              end
          end
      end
  end.

End CliMain.

(* ================================================================== *)
(** * Vocabulary of the statements *)

(** ** Lexer *)

(** The lexer after reading [n] characters none of which is a line feed. *)
Definition shift (lx : Lexer.Lexer) (n : nat) : Lexer.Lexer :=
  Lexer.mkLexer (Lexer.text lx) (Lexer.pos lx + n) (Lexer.line lx)
                (Lexer.column lx + Z.of_nat n).

(** The lexer stands on the first character of [here], with [before]
    already behind it. *)
Definition stands_at (lx : Lexer.Lexer) (before here : string) : Prop :=
  Lexer.text lx = before ++ here /\ Lexer.pos lx = String.length before.

(** [s] does not begin with a digit. *)
Definition no_leading_digit (s : string) : bool :=
  match s with
  | EmptyString => true
  | String c _ => negb (isdigit_char c)
  end.

(** [s] does not begin with a dot. *)
Definition no_leading_dot (s : string) : bool :=
  match s with
  | EmptyString => true
  | String c _ => negb (Ascii.eqb c ".")
  end.

(** [s] does not begin with a whitespace character. *)
Definition no_leading_whitespace (s : string) : bool :=
  match s with
  | EmptyString => true
  | String c _ => negb (str_in (char1 c) Lexer.whitespace)
  end.

(** How the scan loop of [tokenize] may end: normally, and then at the end
    of the text, or with the invalid-character error. *)
Definition scan_ends_well
  (r : result exn (list Tokens.Token * Lexer.Lexer)) : Prop :=
  match r with
  | Ok (_, lx) => Lexer._at_end lx = true
  | Raise (LexerError message _ _) =>
      exists c, message = "Unexpected character '" ++ char1 c ++ "'"
  | Raise _ => False
  end.

(** A token as [Lexer._scan_token] makes them: never EOF, and an operator
    token carries the operator's own symbol as its text. *)
Definition scanned (t : Tokens.Token) : Prop :=
  Tokens.type t <> Tokens.EOF /\
  (Parser.is_operator (Tokens.type t) = true ->
   Parser.op_map (Tokens.type t) = Ok (Tokens.value t)).

(** What [_scan_token] does on a ['-'], as decided by the one character
    after it; [digit] is the test applied to that character. *)
Definition minus_outcome (digit : ascii -> bool) (lx : Lexer.Lexer) : Prop :=
  let minus :=
    Tokens.mkToken Tokens.MINUS "-" (Lexer.line lx) (Lexer.column lx) in
  match get (S (Lexer.pos lx)) (Lexer.text lx) with
  | Some c =>
      if digit c then
        exists tok lx' more,
          Lexer._scan_token lx = Ok (tok, lx') /\
          Tokens.type tok = Tokens.NUMBER /\
          Tokens.value tok = "-" ++ char1 c ++ more /\
          Tokens.line tok = Lexer.line lx /\
          Tokens.column tok = Lexer.column lx
      else Lexer._scan_token lx = Ok (minus, shift lx 1)
  | None => Lexer._scan_token lx = Ok (minus, shift lx 1)
  end.

(** The two-character text made of ['-'] and SUPERSCRIPT TWO (U+00B2). *)
Definition minus_superscript_two : string := "-" ++ char1 (chr 178).


(** ** Parser *)

(** [Parser(Lexer(text).tokenize()).parse()]. *)
Definition parse_text (text : string) : result exn Ast.Expr :=
  toks <- Lexer.tokenize (Lexer.init text) ;; Parser.parse (Parser.init toks).

(** The states in which the [while] of [Parser.parse] evaluates its
    condition: the initial one, and any state an iteration goes round
    again with. *)
Inductive reaches (tokens : list Tokens.Token)
  : Parser.Parser -> list Ast.Expr -> Prop :=
| reaches_start : reaches tokens (Parser.init tokens) []
| reaches_round p stack p' stack' :
    reaches tokens p stack ->
    Parser._at_end p = Ok false ->
    Parser.loop_body p stack = Ok (Parser.Continue p' stack') ->
    reaches tokens p' stack'.

(** The guard of the last [else] of the parser's loop: the token is
    neither a NUMBER, nor an operator, nor EOF. *)
Definition unexpected (t : Tokens.Token) : bool :=
  negb (Tokens.TokenType_eqb (Tokens.type t) Tokens.NUMBER) &&
  negb (Parser.is_operator (Tokens.type t)) &&
  negb (Tokens.TokenType_eqb (Tokens.type t) Tokens.EOF).

(** The three messages [Parser.parse] fails with outside the defensive
    branch. *)
Definition parse_failure (message : string) : Prop :=
  (exists op, message = "Operator '" ++ op ++ "' requires two operands") \/
  message = "Empty expression" \/
  (exists n, message =
     "Invalid RPN: " ++ n ++ " values remain on stack (missing operators?)").

(** How the loop may end: normally, or with the missing-operands error. *)
Definition loop_ends_well (r : result exn (list Ast.Expr)) : Prop :=
  match r with
  | Ok _ => True
  | Raise (ParserError message _) =>
      exists op, message = "Operator '" ++ op ++ "' requires two operands"
  | Raise _ => False
  end.

(** How [parse] may end: with a tree, or with one of its three errors. *)
Definition parse_ends_well (r : result exn Ast.Expr) : Prop :=
  match r with
  | Ok _ => True
  | Raise (ParserError message _) => parse_failure message
  | Raise _ => False
  end.


(** ** Generator *)

(** One of the four operator strings of [BinaryOp]. *)
Definition is_op (operator : string) : bool :=
  (operator =? "+") || (operator =? "-") || (operator =? "*") || (operator =? "/").

(** An AST all of whose operators are among the four. *)
Fixpoint well_formed (e : Ast.Expr) : bool :=
  match e with
  | Ast.Number _ _ _ => true
  | Ast.BinaryOp _ _ operator l r => is_op operator && well_formed l && well_formed r
  end.

(** An operand as it appears in the output: bare, or as a parenthesized
    group with one space inside each parenthesis. *)
Definition group (wrap : bool) (operand : string) : string :=
  if wrap then "( " ++ operand ++ " )" else operand.

(** The parenthesization rule in the words of the specification: the child
    is a BinaryOp and either its precedence is lower than the parent's, or
    it is equal, the child is the right operand and the PARENT's operator
    is ['-'] or ['/'].  [None] when an operator has no precedence. *)
Definition parens_required (parent_operator : string) (child : Ast.Expr)
  (is_right : bool) : option bool :=
  match child with
  | Ast.Number _ _ _ => Some false
  | Ast.BinaryOp _ _ operator _ _ =>
      match LaTeXGenerator.getitem LaTeXGenerator.PRECEDENCE operator,
            LaTeXGenerator.getitem LaTeXGenerator.PRECEDENCE parent_operator with
      | Ok child_precedence, Ok parent_precedence =>
          Some ((child_precedence <? parent_precedence)%Z
                || ((child_precedence =? parent_precedence)%Z
                    && is_right
                    && ((parent_operator =? "-") || (parent_operator =? "/"))))
      | _, _ => None
      end
  end.

(** [(2 + 3) * 4], the tree of ["2 3 + 4 *"]. *)
Definition sum_times_four : Ast.Expr :=
  Ast.BinaryOp 1 9 "*"
    (Ast.BinaryOp 1 5 "+" (Ast.Number 1 1 "2") (Ast.Number 1 3 "3"))
    (Ast.Number 1 7 "4").

(** [3 + 2] as the parser builds it from the text ["5 3 2 + -"]. *)
Definition three_plus_two : Ast.Expr :=
  Ast.BinaryOp 1 7 "+" (Ast.Number 1 3 "3") (Ast.Number 1 5 "2").

(** [5 - (3 + 2)], the tree of ["5 3 2 + -"]. *)
Definition five_minus_sum : Ast.Expr :=
  Ast.BinaryOp 1 9 "-" (Ast.Number 1 1 "5") three_plus_two.


(** ** Error formatter *)

(** A source line as [_get_context] prints it: its 1-based number
    right-aligned in [num_width] columns, [" | "], and the line. *)
Definition numbered_line (self : ErrorFormatter.ErrorFormatter)
  (num_width idx : Z) : string :=
  rjust (str_of_int (idx + 1)) num_width ++ " | "
  ++ nth (Z.to_nat idx) (ErrorFormatter.lines self) "".

(** The text ["5 3"] closed by a line feed: one line, and an EOF token on
    line 2. *)
Definition two_operands_line : string := "5 3" ++ nl.


(** ** Tests *)

(** The token types of a tokenization, for the tests. *)
Definition types_of (r : result exn (list Tokens.Token))
  : result exn (list Tokens.TokenType) :=
  toks <- r ;; Ok (map Tokens.type toks).

(** ** Positions and lexemes *)

(** The line and column the lexer has reached after reading [s] from
    ([line], [column]): a line feed starts a new line at column 1, any
    other character moves one column to the right. *)
Fixpoint position_from (line column : Z) (s : string) : Z * Z :=
  match s with
  | EmptyString => (line, column)
  | String c s' =>
      if Ascii.eqb c LF then position_from (line + 1) 1 s'
      else position_from line (column + 1) s'
  end.

(** The position of the character that follows the prefix [s] of a text. *)
Definition position_after (s : string) : Z * Z := position_from 1 1 s.

(** One of the four characters of [" \t\n\r"]. *)
Definition is_whitespace (c : ascii) : bool := str_in (char1 c) Lexer.whitespace.

(** [s] without its whitespace characters. *)
Fixpoint strip (s : string) : string :=
  match s with
  | EmptyString => EmptyString
  | String c s' => if is_whitespace c then strip s' else String c (strip s')
  end.

(** The texts of the tokens, one after the other. *)
Fixpoint texts (toks : list Tokens.Token) : string :=
  match toks with
  | [] => EmptyString
  | t :: toks' => Tokens.value t ++ texts toks'
  end.

(** The text [v] of a number literal, in front of [rest]: an optional
    ['-'], one digit at least, then nothing or a dot and digits; the
    literal is as long as it can be. *)
Definition number_lexeme (v rest : string) : Prop :=
  exists sign ds frac,
    v = sign ++ ds ++ frac /\
    (sign = "" \/ sign = "-") /\
    ds <> "" /\ all_chars isdigit_char ds = true /\
    no_leading_digit rest = true /\
    ((frac = "" /\ no_leading_dot rest = true) \/
     (exists ds2, frac = "." ++ ds2 /\ all_chars isdigit_char ds2 = true)).

(** The text of a token of each type, in front of [rest]. *)
Definition lexeme (tok : Tokens.Token) (rest : string) : Prop :=
  match Tokens.type tok with
  | Tokens.NUMBER => number_lexeme (Tokens.value tok) rest
  | Tokens.PLUS => Tokens.value tok = "+"
  | Tokens.MINUS => Tokens.value tok = "-" /\ no_leading_digit rest = true
  | Tokens.MULT => Tokens.value tok = "*"
  | Tokens.DIV => Tokens.value tok = "/"
  | Tokens.EOF => False
  end.

(** [covers before here toks]: the text [here], which follows [before],
    is made of the texts of [toks], in order, each preceded by whitespace
    only and positioned at its first character, and of final whitespace. *)
Inductive covers (before : string) : string -> list Tokens.Token -> Prop :=
| covers_end ws :
    all_chars is_whitespace ws = true ->
    covers before ws []
| covers_token ws tok rest toks :
    all_chars is_whitespace ws = true ->
    (Tokens.line tok, Tokens.column tok) = position_after (before ++ ws) ->
    lexeme tok rest ->
    covers (before ++ ws ++ Tokens.value tok) rest toks ->
    covers before (ws ++ Tokens.value tok ++ rest) (tok :: toks).

(** A character that starts no token. *)
Definition starts_no_token (c : ascii) : Prop :=
  c <> "+"%char /\ c <> "-"%char /\ c <> "*"%char /\ c <> "/"%char /\
  isdigit_char c = false.

(** The lexer's line and column are those of the text read so far. *)
Definition tracks (lx : Lexer.Lexer) (before : string) : Prop :=
  (Lexer.line lx, Lexer.column lx) = position_after before.

(** No character of [s] is a line feed. *)
Definition one_line (s : string) : bool :=
  all_chars (fun c => negb (Ascii.eqb c LF)) s.


(** ** Postfix form *)

(** The token type of an operator string; the four strings of [op_map]
    are told apart, any other string is given the last type. *)
Definition operator_type (operator : string) : Tokens.TokenType :=
  if operator =? "+" then Tokens.PLUS
  else if operator =? "-" then Tokens.MINUS
  else if operator =? "*" then Tokens.MULT
  else Tokens.DIV.

(** The tokens of a tree in postfix order: the left operand, the right
    operand, then the operator, every token carrying the text and the
    position of its node. *)
Fixpoint postfix (e : Ast.Expr) : list Tokens.Token :=
  match e with
  | Ast.Number line column value =>
      [Tokens.mkToken Tokens.NUMBER value line column]
  | Ast.BinaryOp line column operator l r =>
      (postfix l ++ postfix r
       ++ [Tokens.mkToken (operator_type operator) operator line column])%list
  end.

(** The NUMBER tokens and the operator tokens of a list, counted. *)
Definition count_numbers (toks : list Tokens.Token) : nat :=
  List.length
    (filter (fun t => Tokens.TokenType_eqb (Tokens.type t) Tokens.NUMBER) toks).

Definition count_operators (toks : list Tokens.Token) : nat :=
  List.length (filter (fun t => Parser.is_operator (Tokens.type t)) toks).

(** The leaves and the inner nodes of a tree, counted. *)
Fixpoint leaves (e : Ast.Expr) : nat :=
  match e with
  | Ast.Number _ _ _ => 1
  | Ast.BinaryOp _ _ _ l r => leaves l + leaves r
  end.

Fixpoint inner_nodes (e : Ast.Expr) : nat :=
  match e with
  | Ast.Number _ _ _ => 0
  | Ast.BinaryOp _ _ _ l r => S (inner_nodes l + inner_nodes r)
  end.

(** ** Trees *)

(** The operator strings of a tree. *)
Fixpoint operators (e : Ast.Expr) : list string :=
  match e with
  | Ast.Number _ _ _ => []
  | Ast.BinaryOp _ _ operator l r => (operator :: operators l ++ operators r)%list
  end.

(** A tree with its positions forgotten. *)
Fixpoint forget (e : Ast.Expr) : Ast.Expr :=
  match e with
  | Ast.Number _ _ value => Ast.Number 0 0 value
  | Ast.BinaryOp _ _ operator l r => Ast.BinaryOp 0 0 operator (forget l) (forget r)
  end.

(** The number of levels of a tree, a leaf counting for one. *)
Fixpoint height (e : Ast.Expr) : nat :=
  match e with
  | Ast.Number _ _ _ => 1
  | Ast.BinaryOp _ _ _ l r => S (Nat.max (height l) (height r))
  end.

(** The tree of the running sum [1 + 1 + ... + 1] with [n] additions, as
    it is read from the text ["1 1 + 1 + ..."]: every addition has the
    sum so far as its left operand. *)
Fixpoint running_sum (n : nat) : Ast.Expr :=
  match n with
  | O => Ast.Number 1 1 "1"
  | S k =>
      Ast.BinaryOp 1 (4 * Z.of_nat k + 5) "+"
        (running_sum k) (Ast.Number 1 (4 * Z.of_nat k + 3) "1")
  end.

(** Its LaTeX text, without the two ['$']. *)
Fixpoint sum_latex (n : nat) : string :=
  match n with
  | O => "1"
  | S k => sum_latex k ++ " + 1"
  end.

(** ** Lines *)

(** Every line boundary of [s] is a line feed: none of the other
    characters [str.splitlines] splits at occurs in it. *)
Definition lf_only (s : string) : bool :=
  all_chars (fun c => negb (is_linebreak c) || Ascii.eqb c LF) s.

(** No character of [s] is a line boundary. *)
Definition unbroken (s : string) : bool :=
  all_chars (fun c => negb (is_linebreak c)) s.

(** A text of ten lines, the last of which holds a character that starts
    no token. *)
Definition ten_lines : string :=
  "1" ++ nl ++ "2" ++ nl ++ "3" ++ nl ++ "4" ++ nl ++ "5" ++ nl ++ "6" ++ nl
  ++ "7" ++ nl ++ "8" ++ nl ++ "9" ++ nl ++ "1 @".

(** The caret row of [_get_context]. *)
Definition caret_row (num_width column : Z) : string :=
  spaces num_width ++ " | " ++ spaces (Z.max 0 (column - 1)) ++ "^".

(* ================================================================== *)
(** * Strings *)

Section StringFacts.

Lemma append_nil_r (s : string) : s ++ "" = s.
Proof. induction s as [|c s IH]; simpl; [reflexivity | now rewrite IH]. Qed.

Lemma append_assoc (a b c : string) : (a ++ b) ++ c = a ++ (b ++ c).
Proof. induction a as [|x a IH]; simpl; [reflexivity | now rewrite IH]. Qed.

Lemma length_append (a b : string) :
  String.length (a ++ b) = String.length a + String.length b.
Proof. induction a as [|x a IH]; simpl; [reflexivity | now rewrite IH]. Qed.

(** The character that follows a prefix sits at the index the prefix's
    length gives. *)
Lemma get_after (pre : string) (c : ascii) (rest : string) :
  get (String.length pre) (pre ++ String c rest) = Some c.
Proof. induction pre as [|x pre IH]; simpl; [reflexivity | exact IH]. Qed.

Lemma get_lt (s : string) (n : nat) (c : ascii) :
  get n s = Some c -> n < String.length s.
Proof.
  revert n; induction s as [|x s IH]; intros n H; simpl in *; [discriminate|].
  destruct n as [|n]; [lia|]. apply IH in H. lia.
Qed.

Lemma get_ge (s : string) (n : nat) :
  String.length s <= n -> get n s = None.
Proof.
  revert n; induction s as [|x s IH]; intros n H; simpl in *; [reflexivity|].
  destruct n as [|n]; [lia|]. apply IH. lia.
Qed.

Lemma get_some (s : string) (n : nat) :
  n < String.length s -> exists c, get n s = Some c.
Proof.
  revert n; induction s as [|x s IH]; intros n H; simpl in *; [lia|].
  destruct n as [|n]; [now exists x|]. apply IH. lia.
Qed.

(** A string splits around any of its valid indices. *)
Lemma get_split (s : string) (n : nat) (c : ascii) :
  get n s = Some c ->
  exists pre rest, s = pre ++ String c rest /\ String.length pre = n.
Proof.
  revert n; induction s as [|x s IH]; intros n H; simpl in *; [discriminate|].
  destruct n as [|n].
  - injection H as ->. now exists "", s.
  - destruct (IH _ H) as (pre & rest & -> & <-).
    now exists (String x pre), rest.
Qed.

Lemma char1_inj (a b : ascii) : char1 a = char1 b -> a = b.
Proof. now intros [= ->]. Qed.

Lemma isdigit_char1 (c : ascii) : isdigit (char1 c) = isdigit_char c.
Proof. unfold isdigit, char1; simpl. apply andb_true_r. Qed.

Lemma digit_not_LF (c : ascii) : isdigit_char c = true -> (char1 c =? nl) = false.
Proof.
  intros H. apply String.eqb_neq. intros E. apply char1_inj in E. subst c.
  discriminate H.
Qed.

Lemma decimal_is_digit (c : ascii) :
  is_decimal_digit c = true -> isdigit_char c = true.
Proof.
  unfold is_decimal_digit, isdigit_char. intros ->. reflexivity.
Qed.

End StringFacts.

(* ================================================================== *)
(** * The lexer's cursor *)

Section LexerCursor.

Import Lexer.

Lemma at_end_false (lx : Lexer) :
  _at_end lx = false <-> pos lx < String.length (text lx).
Proof. unfold _at_end. rewrite Nat.leb_gt. reflexivity. Qed.

Lemma at_end_true (lx : Lexer) :
  _at_end lx = true <-> String.length (text lx) <= pos lx.
Proof. unfold _at_end. apply Nat.leb_le. Qed.

Lemma stands_get (lx : Lexer) (before : string) (c : ascii) (rest : string) :
  stands_at lx before (String c rest) -> get (pos lx) (text lx) = Some c.
Proof. intros [-> ->]. apply get_after. Qed.

Lemma stands_not_at_end (lx : Lexer) (before : string) (c : ascii) (rest : string) :
  stands_at lx before (String c rest) -> _at_end lx = false.
Proof.
  intros H. apply at_end_false. eapply get_lt, stands_get, H.
Qed.

Lemma stands_peek (lx : Lexer) (before : string) (c : ascii) (rest : string) :
  stands_at lx before (String c rest) -> _peek lx = char1 c.
Proof.
  intros H. unfold _peek.
  now rewrite (stands_not_at_end _ _ _ _ H), (stands_get _ _ _ _ H).
Qed.

Lemma stands_at_end (lx : Lexer) (before : string) :
  stands_at lx before "" -> _at_end lx = true.
Proof.
  intros [Ht Hp]. apply at_end_true. rewrite Ht, Hp, length_append. simpl. lia.
Qed.

Lemma stands_remaining (lx : Lexer) (before here : string) :
  stands_at lx before here -> remaining lx = String.length here.
Proof.
  intros [Ht Hp]. unfold remaining. rewrite Ht, Hp, length_append. lia.
Qed.

(** Where the lexer stands, seen from its state alone. *)
Lemma stands_here (lx : Lexer) (c : ascii) :
  get (pos lx) (text lx) = Some c ->
  exists before rest, stands_at lx before (String c rest).
Proof.
  intros H. destruct (get_split _ _ _ H) as (pre & rest & Ht & Hp).
  exists pre, rest. split; [exact Ht | now symmetry].
Qed.

Lemma peek_char (lx : Lexer) (c : ascii) :
  _peek lx = char1 c -> get (pos lx) (text lx) = Some c.
Proof.
  unfold _peek. destruct (_at_end lx); [discriminate|].
  destruct (get (pos lx) (text lx)); [|discriminate].
  now intros [= ->].
Qed.

(** [_advance] on a character other than a line feed. *)
Lemma advance_plain (lx : Lexer) (before : string) (c : ascii) (rest : string) :
  stands_at lx before (String c rest) ->
  (char1 c =? nl) = false ->
  _advance lx = Ok (char1 c, shift lx 1) /\
  stands_at (shift lx 1) (before ++ char1 c) rest.
Proof.
  intros H Hc. split.
  - unfold _advance. rewrite (stands_get _ _ _ _ H). cbv zeta. rewrite Hc.
    reflexivity.
  - destruct H as [Ht Hp]. split; simpl.
    + rewrite Ht, append_assoc. reflexivity.
    + rewrite Hp, length_append. reflexivity.
Qed.

Lemma shift_shift (lx : Lexer) (n m : nat) :
  shift (shift lx n) m = shift lx (n + m).
Proof.
  unfold shift; simpl. f_equal; lia.
Qed.

Lemma shift_0 (lx : Lexer) : shift lx 0 = lx.
Proof.
  destruct lx; unfold shift; simpl. f_equal; lia.
Qed.

(** The digit loop reads exactly the run of digits it stands on, whatever
    fuel it is given beyond the characters left. *)
Lemma digits_loop_run (ds : string) :
  forall (lx : Lexer) (value before rest : string) (fuel : nat),
    stands_at lx before (ds ++ rest) ->
    all_chars isdigit_char ds = true ->
    no_leading_digit rest = true ->
    String.length (ds ++ rest) <= fuel ->
    digits_loop fuel lx value = Ok (value ++ ds, shift lx (String.length ds)) /\
    stands_at (shift lx (String.length ds)) (before ++ ds) rest.
Proof.
  induction ds as [|d ds IH]; intros lx value before rest fuel Hs Hd Hr Hf.
  - simpl in *. rewrite !append_nil_r, shift_0. split; [|exact Hs].
    destruct fuel as [|fuel]; [reflexivity|]. simpl.
    destruct rest as [|c rest].
    + now rewrite (stands_at_end _ _ Hs).
    + rewrite (stands_not_at_end _ _ _ _ Hs), (stands_peek _ _ _ _ Hs).
      rewrite isdigit_char1. simpl in Hr.
      apply negb_true_iff in Hr. now rewrite Hr.
  - simpl in Hs, Hd, Hf. apply andb_true_iff in Hd as [Hd Hds].
    destruct fuel as [|fuel]; [lia|]. simpl.
    rewrite (stands_not_at_end _ _ _ _ Hs), (stands_peek _ _ _ _ Hs).
    rewrite isdigit_char1, Hd. simpl.
    destruct (advance_plain _ _ _ _ Hs (digit_not_LF _ Hd)) as [Ha Hs'].
    rewrite Ha. simpl.
    destruct (IH (shift lx 1) (value ++ char1 d) (before ++ char1 d) rest fuel
                 Hs' Hds Hr ltac:(lia)) as [Hl Hs''].
    rewrite Hl, shift_shift, !append_assoc. simpl. split; [reflexivity|].
    rewrite shift_shift, append_assoc in Hs''. exact Hs''.
Qed.

End LexerCursor.

(* ================================================================== *)
(** * Scanning numbers *)

Section LexerNumbers.

Import Lexer.

Ltac by_cases_on_char c :=
  destruct c as [[] [] [] [] [] [] [] []]; try discriminate; try reflexivity.

(** A digit is none of the characters the lexer treats specially. *)
Lemma digit_plain (c : ascii) :
  isdigit_char c = true ->
  str_in (char1 c) whitespace = false /\
  (char1 c =? "+") = false /\ (char1 c =? "-") = false /\
  (char1 c =? "*") = false /\ (char1 c =? "/") = false /\
  (char1 c =? ".") = false.
Proof.
  intros H. repeat split; revert H; by_cases_on_char c.
Qed.

Lemma skip_whitespace_stay (lx : Lexer) :
  _at_end lx = true \/ str_in (_peek lx) whitespace = false ->
  _skip_whitespace lx = Ok lx.
Proof.
  intros H. unfold _skip_whitespace.
  destruct (remaining lx) as [|n]; [reflexivity|]. simpl.
  destruct H as [-> | ->]; [reflexivity|]. now rewrite andb_false_r.
Qed.

(** A literal with a fractional part: digits, a dot, digits again, and then
    anything that does not start with a digit. *)
Lemma scan_number_fraction (lx : Lexer) (prefix before ds1 ds2 rest : string)
  (start_line start_column : Z) :
  stands_at lx before (ds1 ++ "." ++ ds2 ++ rest) ->
  all_chars isdigit_char ds1 = true ->
  all_chars isdigit_char ds2 = true ->
  no_leading_digit rest = true ->
  let n := String.length (ds1 ++ "." ++ ds2) in
  _scan_number lx prefix start_line start_column =
    Ok (Tokens.mkToken Tokens.NUMBER (prefix ++ ds1 ++ "." ++ ds2)
                       start_line start_column,
        shift lx n) /\
  stands_at (shift lx n) (before ++ ds1 ++ "." ++ ds2) rest.
Proof.
  intros Hs H1 H2 Hr n. unfold _scan_number.
  destruct (digits_loop_run ds1 lx prefix before ("." ++ ds2 ++ rest)
              (remaining lx) Hs H1 eq_refl) as [Hl Hs1].
  { rewrite (stands_remaining _ _ _ Hs). lia. }
  rewrite Hl. simpl bind. simpl append in Hs1.
  rewrite (stands_not_at_end _ _ _ _ Hs1), (stands_peek _ _ _ _ Hs1).
  simpl andb. cbv iota.
  destruct (advance_plain _ _ _ _ Hs1 eq_refl) as [Ha Hs2].
  rewrite Ha. simpl bind.
  destruct (digits_loop_run ds2 (shift (shift lx (String.length ds1)) 1)
              ((prefix ++ ds1) ++ char1 ".") ((before ++ ds1) ++ char1 ".")
              rest (remaining (shift (shift lx (String.length ds1)) 1))
              Hs2 H2 Hr) as [Hl2 Hs3].
  { rewrite (stands_remaining _ _ _ Hs2). lia. }
  rewrite Hl2. simpl bind.
  assert (En : shift (shift (shift lx (String.length ds1)) 1) (String.length ds2)
               = shift lx n).
  { rewrite !shift_shift. f_equal. unfold n. rewrite length_append. simpl. lia. }
  rewrite En in Hs3 |- *.
  rewrite !append_assoc in Hs3 |- *. simpl append in Hs3 |- *.
  split; [reflexivity | exact Hs3].
Qed.

(** A literal without a fractional part: digits and then anything that
    starts neither with a digit nor with a dot. *)
Lemma scan_number_integer (lx : Lexer) (prefix before ds rest : string)
  (start_line start_column : Z) :
  stands_at lx before (ds ++ rest) ->
  all_chars isdigit_char ds = true ->
  no_leading_digit rest = true ->
  no_leading_dot rest = true ->
  _scan_number lx prefix start_line start_column =
    Ok (Tokens.mkToken Tokens.NUMBER (prefix ++ ds) start_line start_column,
        shift lx (String.length ds)) /\
  stands_at (shift lx (String.length ds)) (before ++ ds) rest.
Proof.
  intros Hs Hd Hr Hdot. unfold _scan_number.
  destruct (digits_loop_run ds lx prefix before rest (remaining lx) Hs Hd Hr)
    as [Hl Hs1].
  { rewrite (stands_remaining _ _ _ Hs). lia. }
  rewrite Hl. simpl bind. split; [|exact Hs1].
  destruct rest as [|c rest].
  - now rewrite (stands_at_end _ _ Hs1).
  - rewrite (stands_not_at_end _ _ _ _ Hs1), (stands_peek _ _ _ _ Hs1).
    simpl in Hdot. apply negb_true_iff, Ascii.eqb_neq in Hdot.
    assert (E : (char1 c =? ".") = false).
    { apply String.eqb_neq. intros E. apply char1_inj in E. congruence. }
    rewrite E. now rewrite andb_false_r.
Qed.

(** On a digit, [_scan_token] hands over to [_scan_number] with an empty
    prefix. *)
Lemma scan_token_digit (lx : Lexer) (c : ascii) :
  _peek lx = char1 c ->
  isdigit_char c = true ->
  _scan_token lx = _scan_number lx "" (line lx) (column lx).
Proof.
  intros Hp Hd. unfold _scan_token. rewrite Hp.
  destruct (digit_plain c Hd) as (_ & -> & -> & -> & -> & _).
  now rewrite isdigit_char1, Hd.
Qed.

(** A dot on its own starts no token. *)
Lemma scan_token_dot (lx : Lexer) :
  _peek lx = "." ->
  _scan_token lx =
    Raise (LexerError "Unexpected character '.'" (line lx) (column lx)).
Proof. intros Hp. unfold _scan_token. rewrite Hp. reflexivity. Qed.

End LexerNumbers.

(* ================================================================== *)
(** * One token at a time *)

Section LexerTokens.

Import Lexer.

(** Any text splits into its leading run of digits and the rest. *)
Lemma span_digits (s : string) :
  exists ds rest,
    s = ds ++ rest /\ all_chars isdigit_char ds = true /\
    no_leading_digit rest = true.
Proof.
  induction s as [|c s (ds & rest & -> & Hd & Hr)].
  - now exists "", "".
  - destruct (isdigit_char c) eqn:Hc.
    + exists (String c ds), rest. simpl. now rewrite Hc.
    + exists "", (String c (ds ++ rest)). simpl. now rewrite Hc.
Qed.

(** [_scan_number] always returns a NUMBER token at the start position it
    was given: its value is the prefix followed by the characters read,
    which begin with the whole leading run of digits. *)
Lemma scan_number_returns (lx : Lexer) (prefix before here : string)
  (start_line start_column : Z) :
  stands_at lx before here ->
  exists ds more rest,
    here = (ds ++ more) ++ rest /\
    all_chars isdigit_char ds = true /\
    no_leading_digit (more ++ rest) = true /\
    _scan_number lx prefix start_line start_column =
      Ok (Tokens.mkToken Tokens.NUMBER (prefix ++ ds ++ more)
                         start_line start_column,
          shift lx (String.length (ds ++ more))) /\
    stands_at (shift lx (String.length (ds ++ more))) (before ++ ds ++ more) rest.
Proof.
  intros Hs. destruct (span_digits here) as (ds & rest & -> & Hd & Hr).
  destruct (no_leading_dot rest) eqn:Hdot.
  - exists ds, "", rest. rewrite !append_nil_r.
    destruct (scan_number_integer lx prefix before ds rest start_line
                start_column Hs Hd Hr Hdot) as [E Hs'].
    simpl append. repeat split; try assumption; apply Hs'.
  - destruct rest as [|c rest]; [discriminate|]. simpl in Hdot.
    apply negb_false_iff, Ascii.eqb_eq in Hdot. subst c.
    destruct (span_digits rest) as (ds2 & rest2 & -> & Hd2 & Hr2).
    exists ds, ("." ++ ds2), rest2.
    destruct (scan_number_fraction lx prefix before ds ds2 rest2 start_line
                start_column Hs Hd Hd2 Hr2) as [E Hs'].
    rewrite !append_assoc. simpl append.
    repeat split; try assumption; try apply Hs'.
Qed.

Lemma tokenize_loop_step (fuel : nat) (lx lx1 lx2 : Lexer)
  (tok : Tokens.Token) (toks : list Tokens.Token) :
  _at_end lx = false ->
  _skip_whitespace lx = Ok lx1 ->
  _at_end lx1 = false ->
  _scan_token lx1 = Ok (tok, lx2) ->
  tokenize_loop (S fuel) lx toks = tokenize_loop fuel lx2 (toks ++ [tok])%list.
Proof. intros H1 H2 H3 H4. simpl. now rewrite H1, H2; simpl; rewrite H3, H4. Qed.

Lemma tokenize_loop_raise (fuel : nat) (lx lx1 : Lexer) (e : exn)
  (toks : list Tokens.Token) :
  _at_end lx = false ->
  _skip_whitespace lx = Ok lx1 ->
  _at_end lx1 = false ->
  _scan_token lx1 = Raise e ->
  tokenize_loop (S fuel) lx toks = Raise e.
Proof. intros H1 H2 H3 H4. simpl. now rewrite H1, H2; simpl; rewrite H3, H4. Qed.

Lemma tokenize_loop_end (fuel : nat) (lx : Lexer) (toks : list Tokens.Token) :
  _at_end lx = true -> tokenize_loop fuel lx toks = Ok (toks, lx).
Proof. intros H. destruct fuel; simpl; [reflexivity | now rewrite H]. Qed.

End LexerTokens.

(* ================================================================== *)
(** * The lexer's loops run to their exit condition *)

Section LexerLoops.

Import Lexer.

(** [_advance] on any character, line feed included. *)
Lemma advance_any (lx : Lexer) (before : string) (c : ascii) (rest : string) :
  stands_at lx before (String c rest) ->
  exists lx', _advance lx = Ok (char1 c, lx') /\
              stands_at lx' (before ++ char1 c) rest.
Proof.
  intros Hs. unfold _advance. rewrite (stands_get _ _ _ _ Hs). cbv zeta.
  destruct Hs as [Ht Hp].
  destruct (char1 c =? nl); eexists; (split; [reflexivity|]); split; simpl;
    try (rewrite Ht, append_assoc; reflexivity);
    rewrite Hp, length_append; reflexivity.
Qed.

(** [_skip_whitespace] reads the whole run of whitespace it stands on and
    stops in front of the first other character, or at the end, whatever
    fuel it is given beyond the characters left. *)
Lemma skip_whitespace_exit (here : string) :
  forall (fuel : nat) (lx : Lexer) (before : string),
    stands_at lx before here ->
    String.length here <= fuel ->
    exists lx' ws rest,
      here = ws ++ rest /\
      all_chars (fun c => str_in (char1 c) whitespace) ws = true /\
      no_leading_whitespace rest = true /\
      skip_whitespace_loop fuel lx = Ok lx' /\
      stands_at lx' (before ++ ws) rest.
Proof.
  induction here as [|c here IH]; intros fuel lx before Hs Hf.
  - exists lx, "", "". rewrite !append_nil_r.
    split; [reflexivity|]. split; [reflexivity|]. split; [reflexivity|].
    split; [|exact Hs].
    destruct fuel; simpl; [reflexivity|]. now rewrite (stands_at_end _ _ Hs).
  - destruct fuel as [|fuel]; [simpl in Hf; lia|]. simpl skip_whitespace_loop.
    rewrite (stands_not_at_end _ _ _ _ Hs), (stands_peek _ _ _ _ Hs).
    simpl negb. cbv iota.
    destruct (str_in (char1 c) whitespace) eqn:Hw; simpl andb; cbv iota.
    + destruct (advance_any _ _ _ _ Hs) as (lx1 & -> & Hs1). simpl bind.
      destruct (IH fuel lx1 _ Hs1 ltac:(simpl in Hf; lia))
        as (lx' & ws & rest & -> & Hws & Hr & E & Hs').
      exists lx', (String c ws), rest. rewrite append_assoc in Hs'.
      split; [reflexivity|]. split; [simpl; now rewrite Hw|].
      split; [exact Hr|]. split; [exact E | exact Hs'].
    + exists lx, "", (String c here). rewrite !append_nil_r.
      split; [reflexivity|]. split; [reflexivity|].
      split; [simpl; now rewrite Hw|]. split; [reflexivity | exact Hs].
Qed.

(** On a character that starts a token, [_scan_token] returns a token and
    has read at least that character; on any other it raises the
    invalid-character error, naming the character, at its position. *)
Lemma scan_token_progress (lx : Lexer) (before : string) (c : ascii)
  (rest : string) :
  stands_at lx before (String c rest) ->
  (exists tok lx' more rest',
      _scan_token lx = Ok (tok, lx') /\
      String c rest = (String c more) ++ rest' /\
      stands_at lx' (before ++ String c more) rest') \/
  _scan_token lx =
    Raise (LexerError ("Unexpected character '" ++ char1 c ++ "'")
                      (line lx) (column lx)).
Proof.
  intros Hs. pose proof (stands_peek _ _ _ _ Hs) as Hp.
  unfold _scan_token. rewrite Hp.
  assert (Hop : forall (o : ascii) (t : Tokens.TokenType) (v : string),
             c = o -> (char1 o =? nl) = false ->
             exists tok lx' more rest',
               (bind (_advance lx) (fun x => match x with
                  | (_, self) =>
                      Ok (Tokens.mkToken t v (line lx) (column lx), self) end))
               = Ok (tok, lx') /\
               String c rest = (String c more) ++ rest' /\
               stands_at lx' (before ++ String c more) rest').
  { intros o t v -> Hnl.
    destruct (advance_plain _ _ _ _ Hs Hnl) as [-> Hs1]. simpl bind.
    eexists _, _, "", rest. repeat split; apply Hs1. }
  destruct (char1 c =? "+") eqn:E1.
  { left. apply String.eqb_eq, char1_inj in E1. now apply (Hop "+"%char). }
  destruct (char1 c =? "-") eqn:E2.
  { left. apply String.eqb_eq, char1_inj in E2. subst c.
    destruct (advance_plain _ _ _ _ Hs eq_refl) as [-> Hs1]. simpl bind.
    destruct (negb (_at_end (shift lx 1)) && isdigit (_peek (shift lx 1))).
    - destruct (scan_number_returns (shift lx 1) "-" _ _ (line lx) (column lx) Hs1)
        as (ds & more & rest' & -> & _ & _ & E & Hs2).
      eexists _, _, (ds ++ more), rest'. split; [exact E|].
      split; [reflexivity|]. rewrite append_assoc in Hs2. exact Hs2.
    - eexists _, _, "", rest. repeat split; apply Hs1. }
  destruct (char1 c =? "*") eqn:E3.
  { left. apply String.eqb_eq, char1_inj in E3. now apply (Hop "*"%char). }
  destruct (char1 c =? "/") eqn:E4.
  { left. apply String.eqb_eq, char1_inj in E4. now apply (Hop "/"%char). }
  rewrite isdigit_char1.
  destruct (isdigit_char c) eqn:Hd; [left | now right].
  destruct (scan_number_returns lx "" before _ (line lx) (column lx) Hs)
    as (ds & more & rest' & Hhere & Hds & Hr & E & Hs2).
  destruct ds as [|d ds].
  - destruct more as [|m more]; simpl in Hhere.
    + subst rest'. simpl in Hr. now rewrite Hd in Hr.
    + injection Hhere as <- _. simpl in Hr. now rewrite Hd in Hr.
  - simpl in Hhere. pose proof Hhere as Hhere'. injection Hhere as <- _.
    eexists _, _, (ds ++ more), rest'. split; [exact E|].
    split; [exact Hhere'|]. exact Hs2.
Qed.

(** The scan loop of [tokenize] leaves only at the end of the text or on an
    invalid character, for any fuel not below the characters left; it
    never indexes past the text. *)
Lemma tokenize_loop_exit (n : nat) :
  forall (here : string) (fuel : nat) (lx : Lexer) (before : string)
         (acc : list Tokens.Token),
    String.length here <= n ->
    String.length here <= fuel ->
    stands_at lx before here ->
    scan_ends_well (tokenize_loop fuel lx acc) /\
    tokenize_loop fuel lx acc = tokenize_loop (String.length here) lx acc.
Proof.
  induction n as [|n IH]; intros here fuel lx before acc Hn Hf Hs.
  - destruct here; [|simpl in Hn; lia].
    rewrite !tokenize_loop_end by exact (stands_at_end _ _ Hs).
    split; [exact (stands_at_end _ _ Hs) | reflexivity].
  - destruct here as [|c here].
    { rewrite !tokenize_loop_end by exact (stands_at_end _ _ Hs).
      split; [exact (stands_at_end _ _ Hs) | reflexivity]. }
    destruct fuel as [|fuel]; [simpl in Hf; lia|].
    simpl String.length. simpl tokenize_loop.
    rewrite (stands_not_at_end _ _ _ _ Hs). simpl negb. cbv iota.
    unfold _skip_whitespace. rewrite (stands_remaining _ _ _ Hs).
    destruct (skip_whitespace_exit _ _ lx before Hs (le_n _))
      as (lx1 & ws & rest & Hhere & _ & Hr & -> & Hs1).
    simpl bind.
    assert (Hlen : String.length (String c here)
                   = String.length ws + String.length rest)
      by now rewrite Hhere, length_append.
    simpl in Hlen.
    destruct rest as [|c1 rest].
    { rewrite (stands_at_end _ _ Hs1).
      split; [exact (stands_at_end _ _ Hs1) | reflexivity]. }
    rewrite (stands_not_at_end _ _ _ _ Hs1).
    destruct (scan_token_progress _ _ _ _ Hs1)
      as [(tok & lx2 & more & rest' & -> & Hrest & Hs2) | ->].
    + simpl bind.
      assert (Hlen2 : String.length (String c1 rest)
                      = String.length (String c1 more) + String.length rest')
        by now rewrite Hrest, length_append.
      simpl in Hlen, Hlen2, Hf, Hn.
      destruct (IH rest' fuel lx2 _ (acc ++ [tok])%list
                  ltac:(lia) ltac:(lia) Hs2) as [Hw Hfuel].
      destruct (IH rest' (String.length here) lx2 _ (acc ++ [tok])%list
                  ltac:(lia) ltac:(lia) Hs2) as [_ Hfuel'].
      split; [exact Hw|]. now rewrite Hfuel, Hfuel'.
    + simpl. split; [now exists c1 | reflexivity].
Qed.

(** [tokenize] is total: it returns tokens or raises the invalid-character
    error. *)
Lemma tokenize_total (text : string) :
  (exists toks, tokenize (init text) = Ok toks) \/
  (exists c l k,
      tokenize (init text) =
        Raise (LexerError ("Unexpected character '" ++ char1 c ++ "'") l k)).
Proof.
  assert (Hs : stands_at (init text) "" text) by (split; reflexivity).
  destruct (tokenize_loop_exit _ text (remaining (init text)) (init text) "" []
              (le_n _)) as [Hw _]; [|exact Hs|].
  { rewrite (stands_remaining _ _ _ Hs). lia. }
  unfold tokenize.
  destruct (tokenize_loop _ _ _) as [[toks lx]|e]; simpl in *.
  - left. now eexists.
  - right. destruct e; try contradiction. destruct Hw as [c ->]. now eexists _, _, _.
Qed.

End LexerLoops.

(* ================================================================== *)
(** * The specification's statements about the lexer *)

Section LexerStatements.

Import Lexer.

(** On the characters of ASCII, [str.isdigit] is the test for a decimal
    digit. *)
Lemma isdigit_ascii (c : ascii) :
  nat_of_ascii c < 128 -> isdigit_char c = is_decimal_digit c.
Proof.
  unfold isdigit_char, is_decimal_digit. intros H.
  destruct (Nat.eqb_spec (nat_of_ascii c) 178); [lia|].
  destruct (Nat.eqb_spec (nat_of_ascii c) 179); [lia|].
  destruct (Nat.eqb_spec (nat_of_ascii c) 185); [lia|].
  now rewrite !orb_false_r.
Qed.

(** So, where the character after the ['-'] is an ASCII character, the
    outcome decided by [str.isdigit] is the one decided by "is a decimal
    digit". *)
Lemma minus_outcome_ascii (lx : Lexer) :
  (forall c, get (S (pos lx)) (text lx) = Some c -> nat_of_ascii c < 128) ->
  minus_outcome isdigit_char lx ->
  minus_outcome is_decimal_digit lx.
Proof.
  intros Hascii H. unfold minus_outcome in *.
  destruct (get (S (pos lx)) (text lx)) as [c|]; [|exact H].
  now rewrite <- (isdigit_ascii c (Hascii c eq_refl)).
Qed.

(** What the code does on a ['-'], for every text.  The single character
    after the ['-'] decides the token: if that character satisfies
    [str.isdigit] -- a decimal digit, or another digit character such as a
    superscript -- the ['-'] starts a NUMBER literal whose text begins with
    it and which is positioned at the ['-']; if there is no such character,
    or it is not a digit, a MINUS token is emitted at the position of the
    ['-'] and the lexer has moved past that one character only. *)
Theorem minus_lookahead_isdigit (lx : Lexer) :
  _peek lx = "-" -> minus_outcome isdigit_char lx.
Proof.
  intros Hp. unfold minus_outcome.
  destruct (stands_here lx "-" (peek_char _ _ Hp)) as (before & rest & Hs).
  destruct (advance_plain _ _ _ _ Hs eq_refl) as [Ha Hs1].
  assert (Hpos : pos (shift lx 1) = S (pos lx)) by (simpl; lia).
  unfold _scan_token. rewrite Hp. simpl String.eqb. cbv iota.
  rewrite Ha. simpl bind.
  destruct rest as [|c rest].
  - rewrite get_ge.
    + now rewrite (stands_at_end _ _ Hs1).
    + destruct Hs as [-> ->]. rewrite length_append. simpl. lia.
  - pose proof (stands_get _ _ _ _ Hs1) as Hg. rewrite Hpos in Hg.
    simpl text in Hg. rewrite Hg.
    rewrite (stands_not_at_end _ _ _ _ Hs1), (stands_peek _ _ _ _ Hs1).
    rewrite isdigit_char1. simpl negb. cbv iota.
    destruct (isdigit_char c) eqn:Hc; simpl andb; cbv iota; [|reflexivity].
    destruct (scan_number_returns (shift lx 1) "-" _ _ (line lx) (column lx) Hs1)
      as (ds & more & rest' & Hhere & Hd & Hr & E & _).
    destruct ds as [|d ds].
    + destruct more as [|m more]; simpl in Hhere.
      * subst rest'. simpl in Hr. now rewrite Hc in Hr.
      * injection Hhere as <- _. simpl in Hr. now rewrite Hc in Hr.
    + simpl in Hhere. injection Hhere as <- _.
      eexists _, _, (ds ++ more). split; [exact E|]. now simpl.
Qed.

(** On ["-5 3"] the ['-'] opens the literal [-5]. *)
Lemma minus_lookahead_isdigit_witness :
  _peek (init "-5 3") = "-" /\ minus_outcome isdigit_char (init "-5 3").
Proof.
  split; [reflexivity | apply (minus_lookahead_isdigit (init "-5 3")); reflexivity].
Defined.

(** The characters on which [str.isdigit] and "is a decimal digit" part
    are the three superscript digits of Latin-1. *)
Lemma isdigit_not_decimal (c : ascii) :
  isdigit_char c = true -> is_decimal_digit c = false ->
  c = chr 178 \/ c = chr 179 \/ c = chr 185.
Proof.
  unfold isdigit_char, is_decimal_digit. cbv zeta. intros H Hd.
  rewrite Hd in H. cbn [orb] in H. rewrite !orb_true_iff in H.
  destruct H as [[H | H] | H]; apply Nat.eqb_eq in H;
    apply (f_equal ascii_of_nat) in H; rewrite ascii_nat_embedding in H;
    subst c; auto.
Qed.

(** Before any of them the lexer departs from the rule of the claim:
    wherever it stands on a ['-'] that such a character follows, it scans
    a NUMBER where the rule wants a MINUS. *)
Lemma minus_outcome_superscript (lx : Lexer) (c : ascii) :
  _peek lx = "-" ->
  get (S (pos lx)) (text lx) = Some c ->
  isdigit_char c = true -> is_decimal_digit c = false ->
  (exists tok lx',
      _scan_token lx = Ok (tok, lx') /\ Tokens.type tok = Tokens.NUMBER) /\
  ~ minus_outcome is_decimal_digit lx.
Proof.
  intros Hp Hg Hc Hd. pose proof (minus_lookahead_isdigit lx Hp) as H.
  unfold minus_outcome in *. rewrite Hg in *. rewrite Hc in H. rewrite Hd.
  destruct H as (tok & lx' & more & E & Ht & _). split; [now exists tok, lx'|].
  intros E'. rewrite E in E'. injection E' as -> _. discriminate Ht.
Qed.

(** C7.  The lookahead on a ['-'] is one character, but the test applied
    to it is [str.isdigit], which holds of more characters than the
    decimal digits.  On the text made of ['-'] and SUPERSCRIPT TWO the
    claim wants a MINUS token; the lexer reads the two characters as one
    NUMBER token, which [parse] makes a Number of and the pipeline prints
    between two ['$'] as if it were a numeric literal. *)
Theorem minus_before_superscript_is_number :
  _peek (init minus_superscript_two) = "-" /\
  get 1 minus_superscript_two = Some (chr 178) /\
  is_decimal_digit (chr 178) = false /\
  isdigit_char (chr 178) = true /\
  _scan_token (init minus_superscript_two) =
    Ok (Tokens.mkToken Tokens.NUMBER minus_superscript_two 1 1,
        mkLexer minus_superscript_two 2 1 3) /\
  tokenize (init minus_superscript_two) =
    Ok [Tokens.mkToken Tokens.NUMBER minus_superscript_two 1 1;
        Tokens.mkToken Tokens.EOF "" 1 3] /\
  ~ minus_outcome is_decimal_digit (init minus_superscript_two) /\
  Cli.convert minus_superscript_two = Ok ("$" ++ minus_superscript_two ++ "$").
Proof.
  repeat split; try reflexivity.
  intros H. vm_compute in H. discriminate H.
Qed.

(** The scan loop stops with the invalid-character error when it stands on
    a dot. *)
Lemma tokenize_loop_dot (fuel : nat) (lx : Lexer) (before rest : string)
  (toks : list Tokens.Token) :
  stands_at lx before ("." ++ rest) ->
  tokenize_loop (S fuel) lx toks =
    Raise (LexerError "Unexpected character '.'" (line lx) (column lx)).
Proof.
  intros Hs.
  pose proof (stands_not_at_end _ _ _ _ Hs) as He.
  pose proof (stands_peek _ _ _ _ Hs) as Hp.
  apply tokenize_loop_raise with (lx1 := lx); try assumption.
  - apply skip_whitespace_stay. right. now rewrite Hp.
  - now apply scan_token_dot.
Qed.

(** C8.  A literal that already holds one dot ends in front of a second
    dot: [_scan_number] returns the NUMBER token made of the digits, the
    first dot and the digits after it, and leaves the lexer standing on the
    second dot; scanning the next token there raises the invalid-character
    error at the position of that dot, and so does the scan loop, whether
    it is resumed there or started on the literal.  On ["1.2.3"] the token
    ["1.2"] is produced and tokenization fails at line 1, column 4. *)
Theorem second_dot_two_step :
  (forall (lx : Lexer) (prefix before ds1 ds2 rest : string)
          (start_line start_column : Z) (toks : list Tokens.Token),
      stands_at lx before (ds1 ++ "." ++ ds2 ++ "." ++ rest) ->
      all_chars isdigit_char ds1 = true ->
      all_chars isdigit_char ds2 = true ->
      let literal := ds1 ++ "." ++ ds2 in
      let lx' := shift lx (String.length literal) in
      let failure :=
        LexerError "Unexpected character '.'" (line lx)
                   (column lx + Z.of_nat (String.length literal)) in
      _scan_number lx prefix start_line start_column =
        Ok (Tokens.mkToken Tokens.NUMBER (prefix ++ literal)
                           start_line start_column, lx') /\
      _peek lx' = "." /\
      _scan_token lx' = Raise failure /\
      tokenize_loop (remaining lx') lx' toks = Raise failure /\
      (ds1 <> "" -> tokenize_loop (remaining lx) lx toks = Raise failure)) /\
  _scan_token (init "1.2.3") =
    Ok (Tokens.mkToken Tokens.NUMBER "1.2" 1 1, shift (init "1.2.3") 3) /\
  tokenize (init "1.2.3") = Raise (LexerError "Unexpected character '.'" 1 4).
Proof.
  split; [|split; reflexivity].
  intros lx prefix before ds1 ds2 rest sl sc toks Hs H1 H2 literal lx' failure.
  destruct (scan_number_fraction lx prefix before ds1 ds2 ("." ++ rest) sl sc
              Hs H1 H2 eq_refl) as [E Hs'].
  fold literal in E, Hs'. fold lx' in E, Hs'.
  pose proof (stands_peek _ _ _ _ Hs') as Hp.
  assert (Hloop : forall fuel toks',
             tokenize_loop (S fuel) lx' toks' = Raise failure).
  { intros fuel toks'. exact (tokenize_loop_dot fuel lx' _ _ toks' Hs'). }
  repeat split.
  - exact E.
  - exact Hp.
  - exact (scan_token_dot lx' Hp).
  - rewrite (stands_remaining _ _ _ Hs'). apply Hloop.
  - intros Hne. destruct ds1 as [|d ds1]; [contradiction|].
    pose proof H1 as H1'. simpl in Hs, H1. apply andb_true_iff in H1 as [Hd H1].
    pose proof (stands_peek _ _ _ _ Hs) as Hpk.
    rewrite (stands_remaining _ _ _ Hs). simpl String.length.
    rewrite tokenize_loop_step with (lx1 := lx) (lx2 := lx')
      (tok := Tokens.mkToken Tokens.NUMBER literal (line lx) (column lx)).
    + rewrite length_append. simpl String.length.
      rewrite Nat.add_succ_r. apply Hloop.
    + exact (stands_not_at_end _ _ _ _ Hs).
    + apply skip_whitespace_stay. right. rewrite Hpk.
      now destruct (digit_plain d Hd) as [-> _].
    + exact (stands_not_at_end _ _ _ _ Hs).
    + rewrite (scan_token_digit lx d Hpk Hd).
      now destruct (scan_number_fraction lx "" before (String d ds1) ds2
                      ("." ++ rest) (line lx) (column lx) Hs H1' H2 eq_refl)
        as [E' _].
Qed.

(** C8, witness: the literal [1.2] of ["1.2.3"], scanned from the start. *)
Lemma second_dot_two_step_witness :
  stands_at (init "1.2.3") "" ("1" ++ "." ++ "2" ++ "." ++ "3") /\
  all_chars isdigit_char "1" = true /\
  all_chars isdigit_char "2" = true /\
  _scan_number (init "1.2.3") "" 1 1 =
    Ok (Tokens.mkToken Tokens.NUMBER "1.2" 1 1, shift (init "1.2.3") 3) /\
  tokenize_loop 5 (init "1.2.3") [] =
    Raise (LexerError "Unexpected character '.'" 1 4).
Proof.
  assert (Hs : stands_at (init "1.2.3") "" ("1" ++ "." ++ "2" ++ "." ++ "3"))
    by (split; reflexivity).
  destruct (proj1 second_dot_two_step (init "1.2.3") "" "" "1" "2" "3" 1%Z 1%Z []
              Hs eq_refl eq_refl) as (E & _ & _ & _ & L).
  split; [exact Hs|]. split; [reflexivity|]. split; [reflexivity|].
  split; [exact E | apply L; discriminate].
Defined.

(** C10.  Digits followed by a dot that no digit follows still make one
    NUMBER token with the dot in it: [_scan_number] consumes the dot, a text
    made of digits and a final dot tokenizes to that single literal and the
    EOF token placed after it, and [tokenize] on ["5."] returns NUMBER ["5."]
    at (1,1) and EOF at (1,3). *)
Theorem trailing_dot_accepted :
  (forall (lx : Lexer) (prefix before ds rest : string)
          (start_line start_column : Z),
      stands_at lx before (ds ++ "." ++ rest) ->
      all_chars isdigit_char ds = true ->
      no_leading_digit rest = true ->
      _scan_number lx prefix start_line start_column =
        Ok (Tokens.mkToken Tokens.NUMBER (prefix ++ ds ++ ".")
                           start_line start_column,
            shift lx (String.length ds + 1))) /\
  (forall (d : ascii) (ds : string),
      all_chars isdigit_char (String d ds) = true ->
      tokenize (init (String d ds ++ ".")) =
        Ok [Tokens.mkToken Tokens.NUMBER (String d ds ++ ".") 1 1;
            Tokens.mkToken Tokens.EOF "" 1 (Z.of_nat (String.length ds) + 3)]) /\
  tokenize (init "5.") =
    Ok [Tokens.mkToken Tokens.NUMBER "5." 1 1; Tokens.mkToken Tokens.EOF "" 1 3].
Proof.
  assert (General : forall (lx : Lexer) (prefix before ds rest : string)
                           (start_line start_column : Z),
             stands_at lx before (ds ++ "." ++ rest) ->
             all_chars isdigit_char ds = true ->
             no_leading_digit rest = true ->
             _scan_number lx prefix start_line start_column =
               Ok (Tokens.mkToken Tokens.NUMBER (prefix ++ ds ++ ".")
                                  start_line start_column,
                   shift lx (String.length ds + 1)) /\
             stands_at (shift lx (String.length ds + 1)) (before ++ ds ++ ".") rest).
  { intros lx prefix before ds rest sl sc Hs Hd Hr.
    destruct (scan_number_fraction lx prefix before ds "" rest sl sc Hs Hd
                eq_refl Hr) as [E Hs'].
    rewrite length_append in E, Hs'. simpl in E, Hs'. now split. }
  split; [|split; [|reflexivity]].
  - intros lx prefix before ds rest sl sc Hs Hd Hr.
    exact (proj1 (General lx prefix before ds rest sl sc Hs Hd Hr)).
  - intros d ds Hd.
    set (text := String d ds ++ ".").
    assert (Hs : stands_at (init text) "" (String d ds ++ "." ++ ""))
      by (split; reflexivity).
    destruct (General (init text) "" "" (String d ds) "" 1%Z 1%Z Hs Hd eq_refl)
      as [E Hs'].
    pose proof (stands_peek _ _ _ _ Hs) as Hpk.
    pose proof Hd as Hd'. simpl in Hd'. apply andb_true_iff in Hd' as [Hd0 _].
    unfold tokenize. rewrite (stands_remaining _ _ _ Hs). simpl String.length.
    rewrite tokenize_loop_step with (lx1 := init text)
      (lx2 := shift (init text) (String.length (String d ds) + 1))
      (tok := Tokens.mkToken Tokens.NUMBER text 1 1).
    + rewrite tokenize_loop_end by exact (stands_at_end _ _ Hs').
      replace (Z.of_nat (String.length ds) + 3)%Z
        with (1 + Z.of_nat (String.length (String d ds) + 1))%Z
        by (simpl String.length; lia).
      reflexivity.
    + exact (stands_not_at_end _ _ _ _ Hs).
    + apply skip_whitespace_stay. right. rewrite Hpk.
      now destruct (digit_plain d Hd0) as [-> _].
    + exact (stands_not_at_end _ _ _ _ Hs).
    + rewrite (scan_token_digit _ d Hpk Hd0). exact E.
Qed.

(** C10, witness: the literal [5.] in front of a blank. *)
Lemma trailing_dot_accepted_witness :
  stands_at (init "5. 3") "" ("5" ++ "." ++ " 3") /\
  all_chars isdigit_char "5" = true /\
  no_leading_digit " 3" = true /\
  _scan_number (init "5. 3") "" 1 1 =
    Ok (Tokens.mkToken Tokens.NUMBER "5." 1 1, shift (init "5. 3") 2).
Proof.
  assert (Hs : stands_at (init "5. 3") "" ("5" ++ "." ++ " 3"))
    by (split; reflexivity).
  split; [exact Hs|]. split; [reflexivity|]. split; [reflexivity|].
  exact (proj1 trailing_dot_accepted (init "5. 3") "" "" "5" " 3" 1%Z 1%Z
           Hs eq_refl eq_refl).
Defined.

End LexerStatements.

(* ================================================================== *)
(** * The parser's loop *)

Section ParserLoop.

Import Parser.

Lemma pop_snoc {A} (l : list A) (x : A) : pop (l ++ [x])%list = Some (x, l).
Proof. unfold pop. rewrite rev_app_distr. simpl. now rewrite rev_involutive. Qed.

Lemma pop_nil {A} : pop (@nil A) = None.
Proof. reflexivity. Qed.

(** A list of at least two items ends with two items. *)
Lemma two_on_top {A} (l : list A) :
  2 <= List.length l -> exists rest x y, l = (rest ++ [x; y])%list.
Proof.
  intros H. destruct (rev l) as [|y [|x r]] eqn:E.
  - apply (f_equal (@List.length A)) in E. rewrite length_rev in E. simpl in E. lia.
  - apply (f_equal (@List.length A)) in E. rewrite length_rev in E. simpl in E. lia.
  - exists (rev r), x, y. rewrite <- (rev_involutive l), E. simpl.
    now rewrite <- app_assoc.
Qed.

Lemma current_lt (p : Parser) (t : Tokens.Token) :
  _current p = Ok t -> pos p < List.length (tokens p).
Proof.
  unfold _current. destruct (nth_error (tokens p) (pos p)) eqn:E; [|discriminate].
  intros _. apply nth_error_Some. congruence.
Qed.

Lemma at_end_current (p : Parser) (b : bool) :
  _at_end p = Ok b ->
  exists t, _current p = Ok t /\ b = Tokens.TokenType_eqb (Tokens.type t) Tokens.EOF.
Proof.
  unfold _at_end. destruct (_current p) as [t|e]; simpl; [|discriminate].
  intros [= <-]. now exists t.
Qed.

(** [_advance] away from EOF moves the cursor by one token. *)
Lemma advance_next (p : Parser) (t : Tokens.Token) :
  _current p = Ok t ->
  Tokens.TokenType_eqb (Tokens.type t) Tokens.EOF = false ->
  _advance p = Ok (t, mkParser (tokens p) (pos p + 1)).
Proof.
  intros Hc He. unfold _advance, _at_end. rewrite Hc. simpl. now rewrite He.
Qed.

(** An iteration that goes round again keeps the token list and moves the
    cursor by one token. *)
Lemma loop_body_continue (p p' : Parser) (stack stack' : list Ast.Expr) :
  _at_end p = Ok false ->
  loop_body p stack = Ok (Continue p' stack') ->
  p' = mkParser (tokens p) (pos p + 1).
Proof.
  intros Ha. destruct (at_end_current _ _ Ha) as (t & Hc & He). symmetry in He.
  pose proof (advance_next p t Hc He) as Hadv.
  unfold loop_body. rewrite Hc. simpl bind.
  destruct (Tokens.TokenType_eqb (Tokens.type t) Tokens.NUMBER).
  - rewrite Hadv. simpl. now intros [= <- _].
  - destruct (is_operator (Tokens.type t)).
    + destruct (List.length stack <? 2)%nat; [discriminate|].
      destruct (pop stack) as [[r s1]|]; [|discriminate].
      destruct (pop s1) as [[l s2]|]; [|discriminate].
      destruct (op_map (Tokens.type t)); simpl; [|discriminate].
      rewrite Hadv. simpl. now intros [= <- _].
    + rewrite He. discriminate.
Qed.

(** More fuel than the tokens left changes nothing. *)
Lemma parse_loop_fuel (fuel : nat) :
  forall (p : Parser) (stack : list Ast.Expr),
    iterations p <= fuel ->
    parse_loop fuel p stack = parse_loop (iterations p) p stack.
Proof.
  induction fuel as [|fuel IH]; intros p stack Hf.
  - now replace (iterations p) with 0 by lia.
  - destruct (_at_end p) as [b|e] eqn:Ha.
    2:{ destruct (iterations p); simpl; now rewrite Ha. }
    destruct b.
    { destruct (iterations p); simpl; now rewrite Ha. }
    destruct (at_end_current _ _ Ha) as (t & Hc & _).
    apply current_lt in Hc.
    destruct (iterations p) as [|n] eqn:En; [unfold iterations in En; lia|].
    simpl. rewrite Ha. simpl.
    destruct (loop_body p stack) as [[p' stack'|stack']|e] eqn:Hb; simpl;
      try reflexivity.
    pose proof (loop_body_continue _ _ _ _ Ha Hb) as ->.
    assert (Hn : iterations (mkParser (tokens p) (pos p + 1)) = n)
      by (unfold iterations in *; simpl; lia).
    rewrite IH by lia. now rewrite Hn.
Qed.

(** The loop equation: from a state where the loop goes round again, the
    rest of the run is the run from the next state. *)
Lemma parse_loop_round (p p' : Parser) (stack stack' : list Ast.Expr) :
  _at_end p = Ok false ->
  loop_body p stack = Ok (Continue p' stack') ->
  parse_loop (iterations p) p stack = parse_loop (iterations p') p' stack'.
Proof.
  intros Ha Hb. pose proof (loop_body_continue _ _ _ _ Ha Hb) as E.
  destruct (at_end_current _ _ Ha) as (t & Hc & _). apply current_lt in Hc.
  destruct (iterations p) as [|n] eqn:En; [unfold iterations in En; lia|].
  simpl. rewrite Ha. simpl. rewrite Hb.
  apply parse_loop_fuel. subst p'. unfold iterations in *. simpl. lia.
Qed.

(** The run of [parse] passes through every state the loop reaches. *)
Lemma reaches_run (toks : list Tokens.Token) (p : Parser)
  (stack : list Ast.Expr) :
  reaches toks p stack ->
  tokens p = toks /\
  parse_loop (iterations (init toks)) (init toks) [] =
    parse_loop (iterations p) p stack.
Proof.
  induction 1 as [|p stack p' stack' _ [IHt IHr] Ha Hb].
  - now split.
  - split.
    + rewrite (loop_body_continue _ _ _ _ Ha Hb). exact IHt.
    + rewrite IHr. now apply parse_loop_round.
Qed.

(** The loop raises as soon as one of its iterations does. *)
Lemma parse_loop_raise (p : Parser) (stack : list Ast.Expr) (e : exn) :
  _at_end p = Ok false ->
  loop_body p stack = Raise e ->
  parse_loop (iterations p) p stack = Raise e.
Proof.
  intros Ha Hb.
  destruct (at_end_current _ _ Ha) as (t & Hc & _). apply current_lt in Hc.
  destruct (iterations p) as [|n] eqn:En; [unfold iterations in En; lia|].
  simpl. rewrite Ha. simpl. now rewrite Hb.
Qed.

End ParserLoop.

(* ================================================================== *)
(** * What the lexer hands to the parser *)

Section LexerOutput.

Lemma scan_number_type (lx lx' : Lexer.Lexer) (prefix : string) (sl sc : Z)
  (tok : Tokens.Token) :
  Lexer._scan_number lx prefix sl sc = Ok (tok, lx') ->
  Tokens.type tok = Tokens.NUMBER.
Proof.
  unfold Lexer._scan_number.
  destruct (Lexer.digits_loop _ lx prefix) as [[v l1]|]; simpl; [|discriminate].
  destruct (negb (Lexer._at_end l1) && (Lexer._peek l1 =? ".")).
  - destruct (Lexer._advance l1) as [[c l2]|]; simpl; [|discriminate].
    destruct (Lexer.digits_loop _ l2 _) as [[v' l3]|]; simpl; [|discriminate].
    now intros [= <- _].
  - now intros [= <- _].
Qed.

Lemma scan_token_scanned (lx lx' : Lexer.Lexer) (tok : Tokens.Token) :
  Lexer._scan_token lx = Ok (tok, lx') -> scanned tok.
Proof.
  unfold Lexer._scan_token, scanned.
  repeat match goal with
         | |- context [if ?b then _ else _] => destruct b
         | |- context [bind (Lexer._advance ?l) _] =>
             destruct (Lexer._advance l) as [[? ?]|]; simpl bind
         end;
    try discriminate;
    try (intros [= <- _]; simpl; split; [discriminate | reflexivity]);
    try (intros H; apply scan_number_type in H; rewrite H; split;
         [discriminate | discriminate]).
Qed.

Lemma tokenize_loop_scanned (fuel : nat) :
  forall (lx lx' : Lexer.Lexer) (acc toks : list Tokens.Token),
    Forall scanned acc ->
    Lexer.tokenize_loop fuel lx acc = Ok (toks, lx') ->
    Forall scanned toks.
Proof.
  induction fuel as [|fuel IH]; intros lx lx' acc toks Hacc; simpl.
  - now intros [= <- _].
  - destruct (negb (Lexer._at_end lx)); [|now intros [= <- _]].
    destruct (Lexer._skip_whitespace lx) as [l1|]; simpl; [|discriminate].
    destruct (Lexer._at_end l1); [now intros [= <- _]|].
    destruct (Lexer._scan_token l1) as [[tok l2]|] eqn:Hs; simpl; [|discriminate].
    apply IH. apply Forall_app. split; [exact Hacc|].
    constructor; [|constructor]. exact (scan_token_scanned _ _ _ Hs).
Qed.

(** A successful [tokenize] returns scanned tokens followed by one EOF
    token. *)
Lemma tokenize_shape (lx : Lexer.Lexer) (toks : list Tokens.Token) :
  Lexer.tokenize lx = Ok toks ->
  exists body eof,
    toks = (body ++ [eof])%list /\ Forall scanned body /\
    Tokens.type eof = Tokens.EOF /\ Tokens.value eof = "".
Proof.
  unfold Lexer.tokenize.
  destruct (Lexer.tokenize_loop _ lx []) as [[body lx']|] eqn:Hl; simpl;
    [|discriminate].
  intros [= <-]. eexists body, _. repeat split.
  exact (tokenize_loop_scanned _ _ _ _ _ (Forall_nil _) Hl).
Qed.

End LexerOutput.

(* ================================================================== *)
(** * The specification's statements about the parser *)

Section ParserStatements.

Import Parser.

Lemma operator_not_number_eof (t : Tokens.TokenType) :
  is_operator t = true ->
  Tokens.TokenType_eqb t Tokens.NUMBER = false /\
  Tokens.TokenType_eqb t Tokens.EOF = false /\
  exists op, op_map t = Ok op.
Proof.
  destruct t; try discriminate; intros _; repeat split; eexists; reflexivity.
Qed.

(** C4.  On an operator token with at least two items on the stack, the
    first [pop] yields the top item, which becomes the right operand, the
    second [pop] yields the item under it, which becomes the left operand,
    and the new BinaryOp, positioned at the operator token, replaces the
    two; the iteration then moves to the next token.  In particular
    ["5 3 +"] parses to [BinaryOp("+", Number("5"), Number("3"))], which is
    rendered as ["$5 + 3$"]. *)
Theorem operator_pops_right_then_left :
  (forall (p : Parser) (stack : list Ast.Expr) (tok : Tokens.Token),
      _current p = Ok tok ->
      is_operator (Tokens.type tok) = true ->
      2 <= List.length stack ->
      exists rest l r op,
        stack = (rest ++ [l; r])%list /\
        pop stack = Some (r, (rest ++ [l])%list) /\
        pop (rest ++ [l])%list = Some (l, rest) /\
        op_map (Tokens.type tok) = Ok op /\
        loop_body p stack =
          Ok (Continue (mkParser (tokens p) (pos p + 1))
                (rest ++ [Ast.BinaryOp (Tokens.line tok) (Tokens.column tok)
                                       op l r])%list)) /\
  parse_text "5 3 +" =
    Ok (Ast.BinaryOp 1 5 "+" (Ast.Number 1 1 "5") (Ast.Number 1 3 "3")) /\
  LaTeXGenerator.generate
    (Ast.BinaryOp 1 5 "+" (Ast.Number 1 1 "5") (Ast.Number 1 3 "3")) =
    Ok "$5 + 3$" /\
  Cli.convert "5 3 +" = Ok "$5 + 3$".
Proof.
  split; [|repeat split; reflexivity].
  intros p stack tok Hc Hop Hlen.
  destruct (two_on_top stack Hlen) as (rest & l & r & ->).
  destruct (operator_not_number_eof _ Hop) as (Hn & He & op & Hm).
  assert (Hsnoc : (rest ++ [l; r] = (rest ++ [l]) ++ [r])%list)
    by now rewrite <- app_assoc.
  exists rest, l, r, op. repeat split; try assumption.
  - rewrite Hsnoc. apply pop_snoc.
  - apply pop_snoc.
  - unfold loop_body. rewrite Hc. simpl bind. rewrite Hn, Hop.
    assert (Hlt : (List.length (rest ++ [l; r]) <? 2)%nat = false)
      by (apply Nat.ltb_ge; exact Hlen).
    rewrite Hlt, Hsnoc, !pop_snoc, Hm. simpl bind.
    now rewrite (advance_next p tok Hc He).
Qed.

(** C4, witness: the ['+'] of ["5 3 +"], met with [5] and [3] on the
    stack. *)
Lemma operator_pops_right_then_left_witness :
  let plus := Tokens.mkToken Tokens.PLUS "+" 1 5 in
  let toks := [Tokens.mkToken Tokens.NUMBER "5" 1 1;
               Tokens.mkToken Tokens.NUMBER "3" 1 3;
               plus; Tokens.mkToken Tokens.EOF "" 1 6] in
  let stack := [Ast.Number 1 1 "5"; Ast.Number 1 3 "3"] in
  _current (mkParser toks 2) = Ok plus /\
  is_operator (Tokens.type plus) = true /\
  2 <= List.length stack /\
  exists rest l r op,
    stack = (rest ++ [l; r])%list /\
    pop stack = Some (r, (rest ++ [l])%list) /\
    pop (rest ++ [l])%list = Some (l, rest) /\
    op_map (Tokens.type plus) = Ok op /\
    loop_body (mkParser toks 2) stack =
      Ok (Continue (mkParser toks 3)
            (rest ++ [Ast.BinaryOp 1 5 op l r])%list).
Proof.
  intros plus toks stack.
  split; [reflexivity|]. split; [reflexivity|]. split; [simpl; lia|].
  exact (proj1 operator_pops_right_then_left (mkParser toks 2) stack plus
           eq_refl eq_refl (le_n 2)).
Defined.

(** C5.  When the loop stands on an operator token with fewer than two
    items on the stack, the iteration raises ParserError with the message
    "Operator '<text of the token>' requires two operands" and that very
    token, whose line and column position the error; the length test comes
    before the first [pop], so what is raised is this error and never the
    IndexError of a [pop] on an emptied stack; and [parse] as a whole fails
    with the same error.  The text of an operator token made by the lexer
    is the operator's symbol.  ["5 +"] fails at the ['+'] of line 1,
    column 3. *)
Theorem operator_needs_two_operands :
  (forall (toks : list Tokens.Token) (p : Parser) (stack : list Ast.Expr)
          (tok : Tokens.Token),
      reaches toks p stack ->
      _current p = Ok tok ->
      is_operator (Tokens.type tok) = true ->
      List.length stack < 2 ->
      let failure :=
        ParserError
          ("Operator '" ++ Tokens.value tok ++ "' requires two operands") tok in
      loop_body p stack = Raise failure /\
      parse (init toks) = Raise failure) /\
  (forall (text : string) (toks : list Tokens.Token) (tok : Tokens.Token),
      Lexer.tokenize (Lexer.init text) = Ok toks ->
      In tok toks ->
      is_operator (Tokens.type tok) = true ->
      op_map (Tokens.type tok) = Ok (Tokens.value tok)) /\
  parse_text "5 +" =
    Raise (ParserError "Operator '+' requires two operands"
                       (Tokens.mkToken Tokens.PLUS "+" 1 3)).
Proof.
  split; [|split; [|reflexivity]].
  2:{ intros text toks tok Htok Hin Hop.
      destruct (tokenize_shape _ _ Htok) as (body & eof & -> & Hbody & Heof & _).
      apply in_app_or in Hin as [Hin | [<- | []]].
      - rewrite Forall_forall in Hbody. now apply (Hbody tok Hin).
      - rewrite Heof in Hop. discriminate Hop. }
  intros toks p stack tok Hr Hc Hop Hlen failure.
  destruct (operator_not_number_eof _ Hop) as (Hn & He & _).
  assert (Hb : loop_body p stack = Raise failure).
  { unfold loop_body. rewrite Hc. simpl bind. rewrite Hn, Hop.
    apply Nat.ltb_lt in Hlen. now rewrite Hlen. }
  split; [exact Hb|].
  assert (Ha : _at_end p = Ok false).
  { unfold _at_end. rewrite Hc. simpl. now rewrite He. }
  destruct (reaches_run toks p stack Hr) as [_ Hrun].
  unfold parse. rewrite Hrun, (parse_loop_raise p stack failure Ha Hb).
  reflexivity.
Qed.

(** C5, witness: the ['+'] of ["5 +"], met with only [5] on the stack. *)
Lemma operator_needs_two_operands_witness :
  let plus := Tokens.mkToken Tokens.PLUS "+" 1 3 in
  let toks := [Tokens.mkToken Tokens.NUMBER "5" 1 1; plus;
               Tokens.mkToken Tokens.EOF "" 1 4] in
  let stack := [Ast.Number 1 1 "5"] in
  reaches toks (mkParser toks 1) stack /\
  _current (mkParser toks 1) = Ok plus /\
  is_operator (Tokens.type plus) = true /\
  List.length stack < 2 /\
  loop_body (mkParser toks 1) stack =
    Raise (ParserError "Operator '+' requires two operands" plus) /\
  parse (init toks) =
    Raise (ParserError "Operator '+' requires two operands" plus).
Proof.
  intros plus toks stack.
  assert (Hr : reaches toks (mkParser toks 1) stack).
  { apply (reaches_round toks (init toks) [] _ _ (reaches_start toks));
      reflexivity. }
  split; [exact Hr|]. split; [reflexivity|]. split; [reflexivity|].
  split; [simpl; lia|].
  exact (proj1 operator_needs_two_operands toks (mkParser toks 1) stack plus
           Hr eq_refl eq_refl (le_n 2)).
Defined.

Lemma last_token_snoc (body : list Tokens.Token) (eof : Tokens.Token) :
  last_token (init (body ++ [eof])%list) = Ok eof.
Proof. unfold last_token. simpl. now rewrite rev_app_distr. Qed.

(** C6 (as amended).  Once the scan of a token list ending in EOF is over,
    what [parse] does is decided by the number of items left on the stack:
    none, it raises "Empty expression" with the EOF token; exactly one, it
    returns that item; more than one, it raises "Invalid RPN: <n> values
    remain on stack (missing operators?)" with the EOF token, <n> being the
    number of items left.  The empty text fails at EOF (1,1), and ["5 3 2"]
    reports the 3 values left, at EOF (1,6). *)
Theorem post_scan_validation :
  (forall (body : list Tokens.Token) (eof : Tokens.Token)
          (stack : list Ast.Expr),
      Tokens.type eof = Tokens.EOF ->
      let toks := (body ++ [eof])%list in
      parse_loop (iterations (init toks)) (init toks) [] = Ok stack ->
      match stack with
      | [] => parse (init toks) = Raise (ParserError "Empty expression" eof)
      | [root] => parse (init toks) = Ok root
      | _ =>
          parse (init toks) =
            Raise (ParserError
                     ("Invalid RPN: "
                      ++ str_of_int (Z.of_nat (List.length stack))
                      ++ " values remain on stack (missing operators?)") eof)
      end) /\
  parse_text "" =
    Raise (ParserError "Empty expression" (Tokens.mkToken Tokens.EOF "" 1 1)) /\
  parse_text "5 3 2" =
    Raise (ParserError
             "Invalid RPN: 3 values remain on stack (missing operators?)"
             (Tokens.mkToken Tokens.EOF "" 1 6)).
Proof.
  split; [|split; reflexivity].
  intros body eof stack _ toks Hrun.
  unfold parse. rewrite Hrun. simpl bind.
  unfold toks. rewrite last_token_snoc.
  destruct stack as [|root [|second more]]; reflexivity.
Qed.

(** C6, witness: a lone number leaves one item, which is the root. *)
Lemma post_scan_validation_witness :
  let eof := Tokens.mkToken Tokens.EOF "" 1 3 in
  let body := [Tokens.mkToken Tokens.NUMBER "42" 1 1] in
  Tokens.type eof = Tokens.EOF /\
  parse_loop (iterations (init (body ++ [eof])%list)) (init (body ++ [eof])%list) []
    = Ok [Ast.Number 1 1 "42"] /\
  parse (init (body ++ [eof])%list) = Ok (Ast.Number 1 1 "42").
Proof.
  intros eof body.
  split; [reflexivity|]. split; [reflexivity|].
  exact (proj1 post_scan_validation body eof [Ast.Number 1 1 "42"]
           eq_refl eq_refl).
Defined.

(** C6 (as stated) fails on its example: ["5 3 2"] leaves three items on
    the stack and the message reports 3 values, not 2. *)
Lemma excess_operands_counterexample :
  (toks <- Lexer.tokenize (Lexer.init "5 3 2") ;; parse_loop 4 (init toks) []) =
    Ok [Ast.Number 1 1 "5"; Ast.Number 1 3 "3"; Ast.Number 1 5 "2"] /\
  parse_text "5 3 2" <>
    Raise (ParserError
             "Invalid RPN: 2 values remain on stack (missing operators?)"
             (Tokens.mkToken Tokens.EOF "" 1 6)).
Proof.
  split; [reflexivity | discriminate].
Qed.

End ParserStatements.

(* ================================================================== *)
(** * The parser on the lexer's output *)

Section ParserOnLexerOutput.

Import Parser.

(** The token types form a closed enumeration: every token is a NUMBER, an
    operator or EOF. *)
Lemma never_unexpected (t : Tokens.Token) : unexpected t = false.
Proof. unfold unexpected. now destruct (Tokens.type t). Qed.

(** Away from EOF an iteration either goes round again with the next token
    or raises the missing-operands error. *)
Lemma loop_body_cases (p : Parser) (stack : list Ast.Expr) (t : Tokens.Token) :
  _current p = Ok t ->
  Tokens.type t <> Tokens.EOF ->
  (exists stack',
      loop_body p stack = Ok (Continue (mkParser (tokens p) (pos p + 1)) stack')) \/
  loop_body p stack =
    Raise (ParserError
             ("Operator '" ++ Tokens.value t ++ "' requires two operands") t).
Proof.
  intros Hc Hne.
  assert (He : Tokens.TokenType_eqb (Tokens.type t) Tokens.EOF = false)
    by (destruct (Tokens.type t); try reflexivity; contradiction).
  pose proof (advance_next p t Hc He) as Hadv.
  unfold loop_body. rewrite Hc. simpl bind.
  destruct (Tokens.TokenType_eqb (Tokens.type t) Tokens.NUMBER) eqn:Hn.
  - left. rewrite Hadv. simpl. now eexists.
  - destruct (is_operator (Tokens.type t)) eqn:Hop.
    + destruct (List.length stack <? 2)%nat eqn:Hlen; [now right|].
      apply Nat.ltb_ge in Hlen.
      destruct (two_on_top stack Hlen) as (rest & l & r & ->).
      replace (rest ++ [l; r])%list with ((rest ++ [l]) ++ [r])%list
        by now rewrite <- app_assoc.
      rewrite !pop_snoc.
      destruct (operator_not_number_eof _ Hop) as (_ & _ & op & ->).
      simpl bind. rewrite Hadv. simpl. left. now eexists.
    + destruct (Tokens.type t); try discriminate; contradiction.
Qed.

Lemma current_in_body (p : Parser) (body : list Tokens.Token)
  (eof : Tokens.Token) :
  tokens p = (body ++ [eof])%list ->
  pos p <= List.length body ->
  (pos p = List.length body /\ _current p = Ok eof) \/
  (pos p < List.length body /\ exists t, _current p = Ok t /\ In t body).
Proof.
  intros Ht Hp. unfold _current. rewrite Ht.
  destruct (Nat.eq_dec (pos p) (List.length body)) as [E | N].
  - left. split; [exact E|]. rewrite nth_error_app2 by lia.
    now replace (pos p - List.length body) with 0 by lia.
  - right. split; [lia|]. rewrite nth_error_app1 by lia.
    destruct (nth_error body (pos p)) as [t|] eqn:E.
    + exists t. split; [reflexivity|]. eapply nth_error_In, E.
    + apply nth_error_None in E. lia.
Qed.

(** On scanned tokens closed by EOF, the loop needs no more iterations
    than there are tokens left, never indexes past the list and ends
    well. *)
Lemma parse_loop_ends_well (body : list Tokens.Token) (eof : Tokens.Token) :
  Forall scanned body ->
  Tokens.type eof = Tokens.EOF ->
  forall (n : nat) (p : Parser) (stack : list Ast.Expr),
    tokens p = (body ++ [eof])%list ->
    pos p <= List.length body ->
    pos p + n = S (List.length body) ->
    loop_ends_well (parse_loop n p stack).
Proof.
  intros Hbody Heof. induction n as [|n IH]; intros p stack Ht Hp Hn; [lia|].
  - destruct (current_in_body p body eof Ht ltac:(lia))
      as [[_ Hc] | [Hlt (t & Hc & Hin)]].
    + simpl. unfold _at_end. rewrite Hc. simpl. now rewrite Heof.
    + rewrite Forall_forall in Hbody. destruct (Hbody t Hin) as [Hne _].
      assert (Ha : _at_end p = Ok false).
      { unfold _at_end. rewrite Hc. simpl.
        destruct (Tokens.type t); try reflexivity; contradiction. }
      simpl. rewrite Ha. simpl bind. cbv iota.
      destruct (loop_body_cases p stack t Hc Hne) as [[stack' ->] | ->].
      * simpl. apply IH; simpl; [exact Ht | lia | lia].
      * simpl. now eexists.
Qed.

Lemma parse_ends_well_on (body : list Tokens.Token) (eof : Tokens.Token) :
  Forall scanned body ->
  Tokens.type eof = Tokens.EOF ->
  parse_ends_well (parse (init (body ++ [eof])%list)).
Proof.
  intros Hbody Heof. unfold parse.
  pose proof (parse_loop_ends_well body eof Hbody Heof
                (iterations (init (body ++ [eof])%list))
                (init (body ++ [eof])%list) [] eq_refl) as H.
  assert (Hlen : 0 + iterations (init (body ++ [eof])%list) = S (List.length body)).
  { unfold iterations. simpl. rewrite length_app. simpl. lia. }
  specialize (H (Nat.le_0_l _) Hlen).
  destruct (parse_loop _ _ _) as [stack | e].
  - simpl bind. rewrite last_token_snoc.
    destruct stack as [|root [|second more]]; simpl.
    + right. now left.
    + exact I.
    + right. right. now eexists.
  - simpl. destruct e; try contradiction.
    destruct H as [op ->]. left. now exists op.
Qed.

Lemma parse_failure_expected (message text : string) :
  parse_failure message -> message <> "Unexpected token '" ++ text ++ "'".
Proof.
  intros [[op ->] | [-> | [n ->]]]; discriminate.
Qed.

(** C9.  On the tokens of any text [tokenize] accepts, [parse] never takes
    the defensive branch: at every state its loop reaches, the current
    token is a NUMBER, an operator or EOF, so the guard of the last [else]
    is false; the run ends with a tree or with one of the three other
    errors, never with an IndexError or KeyError; and no error it raises
    carries an "Unexpected token '<text>'" message. *)
Theorem unexpected_token_unreachable (text : string) (toks : list Tokens.Token) :
  Lexer.tokenize (Lexer.init text) = Ok toks ->
  (forall (p : Parser) (stack : list Ast.Expr) (t : Tokens.Token),
      reaches toks p stack -> _current p = Ok t -> unexpected t = false) /\
  parse_ends_well (parse (init toks)) /\
  (forall (v : string) (tok : Tokens.Token),
      parse (init toks) <>
        Raise (ParserError ("Unexpected token '" ++ v ++ "'") tok)).
Proof.
  intros Htok.
  destruct (tokenize_shape _ _ Htok) as (body & eof & -> & Hbody & Heof & _).
  pose proof (parse_ends_well_on body eof Hbody Heof) as Hwell.
  split; [|split].
  - intros p stack t _ _. apply never_unexpected.
  - exact Hwell.
  - intros v tok E. rewrite E in Hwell. simpl in Hwell.
    now apply (parse_failure_expected _ v) in Hwell.
Qed.

(** C9, witness: the tokens of ["5 3 +"]. *)
Lemma unexpected_token_unreachable_witness :
  Lexer.tokenize (Lexer.init "5 3 +") =
    Ok [Tokens.mkToken Tokens.NUMBER "5" 1 1;
        Tokens.mkToken Tokens.NUMBER "3" 1 3;
        Tokens.mkToken Tokens.PLUS "+" 1 5;
        Tokens.mkToken Tokens.EOF "" 1 6] /\
  parse_ends_well
    (parse (init [Tokens.mkToken Tokens.NUMBER "5" 1 1;
                  Tokens.mkToken Tokens.NUMBER "3" 1 3;
                  Tokens.mkToken Tokens.PLUS "+" 1 5;
                  Tokens.mkToken Tokens.EOF "" 1 6])).
Proof.
  split; [reflexivity|].
  exact (proj1 (proj2 (unexpected_token_unreachable "5 3 +" _ eq_refl))).
Defined.

End ParserOnLexerOutput.

(* ================================================================== *)
(** * The LaTeX generator *)

Section Generator.

Import LaTeXGenerator.

Lemma is_op_cases (operator : string) :
  is_op operator = true ->
  operator = "+" \/ operator = "-" \/ operator = "*" \/ operator = "/".
Proof.
  unfold is_op. rewrite !orb_true_iff, !String.eqb_eq. tauto.
Qed.

(** Both tables are defined on the four operators. *)
Lemma tables_defined (operator : string) :
  is_op operator = true ->
  exists symbol precedence,
    getitem BINARY_OPS operator = Ok symbol /\
    getitem PRECEDENCE operator = Ok precedence.
Proof.
  intros H. destruct (is_op_cases _ H) as [-> | [-> | [-> | ->]]];
    eexists _, _; split; reflexivity.
Qed.

Lemma needs_parens_total (child : Ast.Expr) (parent_precedence : Z)
  (is_right : bool) :
  well_formed child = true ->
  exists wrap, _needs_parens child parent_precedence is_right = Ok wrap.
Proof.
  destruct child as [ln col v | ln col op l r]; intros H.
  - now eexists.
  - simpl in H. apply andb_true_iff in H as [H _].
    apply andb_true_iff in H as [H _].
    destruct (tables_defined _ H) as (_ & prec & _ & Hp).
    unfold _needs_parens. rewrite Hp. simpl bind.
    destruct (prec <? parent_precedence)%Z; now eexists.
Qed.

(** The shape of a rendered binary operation. *)
Lemma visit_binary_op (ln col : Z) (operator : string) (l r : Ast.Expr) :
  well_formed (Ast.BinaryOp ln col operator l r) = true ->
  (exists lout, _visit l = Ok lout) ->
  (exists rout, _visit r = Ok rout) ->
  exists symbol precedence lout rout wl wr,
    getitem BINARY_OPS operator = Ok symbol /\
    getitem PRECEDENCE operator = Ok precedence /\
    _visit l = Ok lout /\ _visit r = Ok rout /\
    _needs_parens l precedence false = Ok wl /\
    _needs_parens r precedence true = Ok wr /\
    _visit (Ast.BinaryOp ln col operator l r) =
      Ok (group wl lout ++ " " ++ symbol ++ " " ++ group wr rout).
Proof.
  simpl well_formed. intros H [lout Hl] [rout Hr].
  apply andb_true_iff in H as [H Hwr]. apply andb_true_iff in H as [Hop Hwl].
  destruct (tables_defined _ Hop) as (symbol & prec & Hs & Hp).
  destruct (needs_parens_total l prec false Hwl) as [wl Hnl].
  destruct (needs_parens_total r prec true Hwr) as [wr Hnr].
  exists symbol, prec, lout, rout, wl, wr. repeat split; try assumption.
  cbn [_visit]. rewrite Hs, Hp. simpl bind. rewrite Hl. simpl bind.
  rewrite Hnl. simpl bind. rewrite Hr. simpl bind. rewrite Hnr. reflexivity.
Qed.

(** [_visit] has no failure path on a well-formed tree. *)
Lemma visit_total (e : Ast.Expr) :
  well_formed e = true -> exists out, _visit e = Ok out.
Proof.
  induction e as [ln col v | ln col op l IHl r IHr]; intros H.
  - now eexists.
  - pose proof H as H'. simpl in H'.
    apply andb_true_iff in H' as [H' Hwr]. apply andb_true_iff in H' as [_ Hwl].
    destruct (visit_binary_op ln col op l r H (IHl Hwl) (IHr Hwr))
      as (? & ? & ? & ? & ? & ? & _ & _ & _ & _ & _ & _ & E).
    eexists. exact E.
Qed.

(** C3.  The pipeline turns ["2 3 + 4 *"] into ["$( 2 + 3 ) \times 4$"].
    For every well-formed tree the output is the rendered content between
    two ['$']; ['*'] is rendered as [\times] and ['/'] as [\div]; a binary
    operation is its two operands with the operator's symbol between them
    and exactly one space on each side of it, an operand that needs
    parentheses being written ["( ... )"] with one space inside each
    parenthesis. *)
Theorem pipeline_compound :
  Cli.convert "2 3 + 4 *" = Ok "$( 2 + 3 ) \times 4$" /\
  parse_text "2 3 + 4 *" = Ok sum_times_four /\
  (forall e : Ast.Expr,
      well_formed e = true ->
      exists content,
        _visit e = Ok content /\ generate e = Ok ("$" ++ content ++ "$")) /\
  getitem BINARY_OPS "*" = Ok "\times" /\
  getitem BINARY_OPS "/" = Ok "\div" /\
  (forall (ln col : Z) (operator : string) (l r : Ast.Expr),
      well_formed (Ast.BinaryOp ln col operator l r) = true ->
      exists symbol precedence lout rout wl wr,
        getitem BINARY_OPS operator = Ok symbol /\
        getitem PRECEDENCE operator = Ok precedence /\
        _visit l = Ok lout /\ _visit r = Ok rout /\
        _needs_parens l precedence false = Ok wl /\
        _needs_parens r precedence true = Ok wr /\
        _visit (Ast.BinaryOp ln col operator l r) =
          Ok (group wl lout ++ " " ++ symbol ++ " " ++ group wr rout)) /\
  group true "5 + 3" = "( 5 + 3 )".
Proof.
  split; [reflexivity|]. split; [reflexivity|].
  split; [|split; [reflexivity|split; [reflexivity|split]]].
  - intros e H. destruct (visit_total e H) as [content E].
    exists content. split; [exact E|]. unfold generate. now rewrite E.
  - intros ln col op l r H. pose proof H as H'. simpl in H'.
    apply andb_true_iff in H' as [H' Hwr]. apply andb_true_iff in H' as [_ Hwl].
    exact (visit_binary_op ln col op l r H (visit_total l Hwl) (visit_total r Hwr)).
  - reflexivity.
Qed.

(** C3, witness: the tree of ["2 3 + 4 *"]. *)
Lemma pipeline_compound_witness :
  well_formed sum_times_four = true /\
  exists content,
    _visit sum_times_four = Ok content /\
    generate sum_times_four = Ok ("$" ++ content ++ "$").
Proof.
  split; [reflexivity|].
  exact (proj1 (proj2 (proj2 pipeline_compound)) sum_times_four eq_refl).
Defined.

(** The code's rule, spelled out: a BinaryOp child is wrapped when its
    precedence is lower than the parent's, or when it is equal, the child
    is the right operand and the CHILD's own operator is ['-'] or ['/']. *)
Lemma needs_parens_rule (ln col : Z) (operator : string) (l r : Ast.Expr)
  (parent_precedence child_precedence : Z) (is_right : bool) :
  getitem PRECEDENCE operator = Ok child_precedence ->
  _needs_parens (Ast.BinaryOp ln col operator l r) parent_precedence is_right =
    Ok ((child_precedence <? parent_precedence)%Z
        || ((child_precedence =? parent_precedence)%Z
            && is_right
            && ((operator =? "-") || (operator =? "/")))).
Proof.
  intros H. unfold _needs_parens. rewrite H. simpl bind.
  now destruct (child_precedence <? parent_precedence)%Z.
Qed.

(** Number children are never parenthesized. *)
Lemma needs_parens_number (ln col : Z) (value : string)
  (parent_precedence : Z) (is_right : bool) :
  _needs_parens (Ast.Number ln col value) parent_precedence is_right = Ok false.
Proof. reflexivity. Qed.

(** Where the code follows the rule of the specification: on a left
    operand, on a child whose precedence differs from the parent's, and on
    a right operand of equal precedence when parent and child are both, or
    neither, among ['-'] and ['/']. *)
Lemma needs_parens_agrees (ln col : Z) (child_operator : string)
  (l r : Ast.Expr) (parent_operator : string) (is_right : bool) :
  is_op child_operator = true ->
  is_op parent_operator = true ->
  is_right = false \/
  getitem PRECEDENCE child_operator <> getitem PRECEDENCE parent_operator \/
  ((child_operator =? "-") || (child_operator =? "/")) =
    ((parent_operator =? "-") || (parent_operator =? "/")) ->
  exists parent_precedence wrap,
    getitem PRECEDENCE parent_operator = Ok parent_precedence /\
    _needs_parens (Ast.BinaryOp ln col child_operator l r)
                  parent_precedence is_right = Ok wrap /\
    parens_required parent_operator (Ast.BinaryOp ln col child_operator l r)
                    is_right = Some wrap.
Proof.
  intros Hc Hp H.
  destruct (is_op_cases _ Hc) as [-> | [-> | [-> | ->]]];
    destruct (is_op_cases _ Hp) as [-> | [-> | [-> | ->]]];
    destruct is_right;
    try (eexists _, _; repeat split; reflexivity);
    destruct H as [H | [H | H]]; try discriminate H;
    exfalso; apply H; reflexivity.
Qed.

(** C1, the code against the specification.  For the right operand [3 + 2]
    of [5 - (3 + 2)] the specified rule requires parentheses (equal
    precedence, right operand, parent ['-']), but [_needs_parens] answers
    no, and the tree is rendered ["$5 - 3 + 2$"]; this is what the pipeline
    prints for ["5 3 2 + -"]. *)
Theorem needs_parens_misses_right_operand :
  parens_required "-" three_plus_two true = Some true /\
  _needs_parens three_plus_two 1 true = Ok false /\
  generate five_minus_sum = Ok "$5 - 3 + 2$" /\
  parse_text "5 3 2 + -" = Ok five_minus_sum /\
  Cli.convert "5 3 2 + -" = Ok "$5 - 3 + 2$".
Proof. repeat split; reflexivity. Qed.

End Generator.

(* ================================================================== *)
(** * The error formatter *)

Section Formatter.

Import ErrorFormatter.

Lemma range_bounds (start stop idx : Z) :
  In idx (range start stop) -> (start <= idx < stop)%Z.
Proof.
  unfold range. rewrite in_map_iff. intros (i & <- & Hi).
  apply in_seq in Hi. lia.
Qed.

(** Away from the error line an iteration appends the numbered line and
    nothing else. *)
Lemma context_step_plain (self : ErrorFormatter) (error_idx column num_width : Z)
  (acc : list string) (idx : Z) :
  idx <> error_idx ->
  (idx < Z.of_nat (List.length (lines self)))%Z ->
  context_step self error_idx column num_width acc idx =
    (acc ++ [numbered_line self num_width idx])%list.
Proof.
  intros Hne Hlt. unfold context_step, numbered_line.
  apply Z.ltb_lt in Hlt. apply Z.eqb_neq in Hne. rewrite Hlt, Hne.
  now rewrite append_assoc.
Qed.

Lemma context_fold_plain (self : ErrorFormatter) (error_idx column num_width : Z)
  (idxs : list Z) :
  forall acc : list string,
    (forall idx, In idx idxs ->
                 idx <> error_idx /\ (idx < Z.of_nat (List.length (lines self)))%Z) ->
    fold_left (context_step self error_idx column num_width) idxs acc =
      (acc ++ map (numbered_line self num_width) idxs)%list.
Proof.
  induction idxs as [|idx idxs IH]; intros acc H; simpl.
  - now rewrite app_nil_r.
  - destruct (H idx (or_introl eq_refl)) as [Hne Hlt].
    rewrite (context_step_plain _ _ _ _ _ _ Hne Hlt), IH.
    + now rewrite <- app_assoc.
    + intros i Hi. apply H. now right.
Qed.

(** When the error line lies past the last line of the source, the
    context is made of numbered source lines only: the loop stops at the
    last line, so the error line is not printed and no caret row is. *)
Lemma context_past_last_line (self : ErrorFormatter)
  (line column context_lines : Z) :
  (Z.of_nat (List.length (lines self)) < line)%Z ->
  let start_idx := Z.max 0 (line - 1 - context_lines) in
  let end_idx :=
    Z.min (Z.of_nat (List.length (lines self))) (line - 1 + context_lines + 1) in
  let num_width := Z.of_nat (String.length (str_of_int end_idx)) in
  (forall idx, In idx (range start_idx end_idx) -> (idx < line - 1)%Z) /\
  _get_context self line column context_lines =
    join nl (map (numbered_line self num_width) (range start_idx end_idx)).
Proof.
  intros Hpast start_idx end_idx num_width.
  assert (Hin : forall idx, In idx (range start_idx end_idx) ->
                            (idx < Z.of_nat (List.length (lines self)))%Z).
  { intros idx Hi. apply range_bounds in Hi. unfold end_idx in Hi. lia. }
  split.
  - intros idx Hi. apply Hin in Hi. lia.
  - unfold _get_context. fold start_idx end_idx num_width.
    rewrite context_fold_plain; [reflexivity|].
    intros idx Hi. specialize (Hin idx Hi). split; lia.
Qed.

(** C2, the code against the specification.  The text made of ["5 3"] and
    a line feed has one line, and the pipeline fails on it at the EOF token
    of line 2, column 1.  The specification wants the context to go on with
    an empty line 2 and a caret row under it; the formatter prints line 1
    and stops, and for the empty text it prints no context at all. *)
Theorem caret_row_missing_past_last_line :
  lines (init two_operands_line) = ["5 3"] /\
  Cli.convert two_operands_line =
    Raise (ParserError
             "Invalid RPN: 2 values remain on stack (missing operators?)"
             (Tokens.mkToken Tokens.EOF "" 2 1)) /\
  _get_context (init two_operands_line) 2 1 1 = "1 | 5 3" /\
  _get_context (init two_operands_line) 2 1 1 <>
    "1 | 5 3" ++ nl ++ "2 | " ++ nl ++ "  | ^" /\
  format_error (init two_operands_line)
    "Invalid RPN: 2 values remain on stack (missing operators?)" 2 1 1 =
    "Error: Invalid RPN: 2 values remain on stack (missing operators?)"
    ++ nl ++ nl ++ "1 | 5 3" /\
  Cli.diagnostic two_operands_line
    (ParserError "Invalid RPN: 2 values remain on stack (missing operators?)"
                 (Tokens.mkToken Tokens.EOF "" 2 1)) =
    Some ("Error: Invalid RPN: 2 values remain on stack (missing operators?)"
          ++ nl ++ nl ++ "1 | 5 3") /\
  format_error (init "") "Empty expression" 1 1 1 =
    "Error: Empty expression" ++ nl ++ nl.
Proof.
  repeat split; try reflexivity. discriminate.
Qed.

End Formatter.

(* ================================================================== *)
(** * The package's own tests, replayed on the embedding *)

Section PackageTests.

Example test_single_number :
  Lexer.tokenize (Lexer.init "42") =
    Ok [Tokens.mkToken Tokens.NUMBER "42" 1 1; Tokens.mkToken Tokens.EOF "" 1 3].
Proof. reflexivity. Qed.

Example test_decimal_number :
  Lexer.tokenize (Lexer.init "3.14") =
    Ok [Tokens.mkToken Tokens.NUMBER "3.14" 1 1; Tokens.mkToken Tokens.EOF "" 1 5].
Proof. reflexivity. Qed.

Example test_negative_number :
  Lexer.tokenize (Lexer.init "-5") =
    Ok [Tokens.mkToken Tokens.NUMBER "-5" 1 1; Tokens.mkToken Tokens.EOF "" 1 3].
Proof. reflexivity. Qed.

Example test_negative_number2 :
  Lexer.tokenize (Lexer.init "-3.14") =
    Ok [Tokens.mkToken Tokens.NUMBER "-3.14" 1 1; Tokens.mkToken Tokens.EOF "" 1 6].
Proof. reflexivity. Qed.

Example test_operators :
  types_of (Lexer.tokenize (Lexer.init "+ - * /")) =
    Ok [Tokens.PLUS; Tokens.MINUS; Tokens.MULT; Tokens.DIV; Tokens.EOF].
Proof. reflexivity. Qed.

Example test_position_tracking :
  Lexer.tokenize (Lexer.init "5 3 +") =
    Ok [Tokens.mkToken Tokens.NUMBER "5" 1 1; Tokens.mkToken Tokens.NUMBER "3" 1 3;
        Tokens.mkToken Tokens.PLUS "+" 1 5; Tokens.mkToken Tokens.EOF "" 1 6].
Proof. reflexivity. Qed.

Example test_multiline :
  Lexer.tokenize (Lexer.init ("5" ++ nl ++ "3" ++ nl ++ "+")) =
    Ok [Tokens.mkToken Tokens.NUMBER "5" 1 1; Tokens.mkToken Tokens.NUMBER "3" 2 1;
        Tokens.mkToken Tokens.PLUS "+" 3 1; Tokens.mkToken Tokens.EOF "" 3 2].
Proof. reflexivity. Qed.

Example test_empty_text :
  Lexer.tokenize (Lexer.init "") = Ok [Tokens.mkToken Tokens.EOF "" 1 1].
Proof. reflexivity. Qed.

Example test_invalid_character :
  Lexer.tokenize (Lexer.init "5 @") =
    Raise (LexerError "Unexpected character '@'" 1 3).
Proof. reflexivity. Qed.

Example test_parser_single_number :
  parse_text "42" = Ok (Ast.Number 1 1 "42").
Proof. reflexivity. Qed.

Example test_compound_expression :
  parse_text "2 3 + 4 *" = Ok sum_times_four.
Proof. reflexivity. Qed.

Example test_all_operators :
  parse_text "5 3 -" = Ok (Ast.BinaryOp 1 5 "-" (Ast.Number 1 1 "5") (Ast.Number 1 3 "3")) /\
  parse_text "5 3 *" = Ok (Ast.BinaryOp 1 5 "*" (Ast.Number 1 1 "5") (Ast.Number 1 3 "3")) /\
  parse_text "5 3 /" = Ok (Ast.BinaryOp 1 5 "/" (Ast.Number 1 1 "5") (Ast.Number 1 3 "3")).
Proof. repeat split; reflexivity. Qed.

Example test_generator_single_number :
  LaTeXGenerator.generate (Ast.Number 1 1 "42") = Ok "$42$".
Proof. reflexivity. Qed.

Example test_multiplication_symbol :
  LaTeXGenerator.generate
    (Ast.BinaryOp 1 1 "*" (Ast.Number 1 1 "5") (Ast.Number 1 3 "3")) =
    Ok "$5 \times 3$".
Proof. reflexivity. Qed.

Example test_division_symbol :
  LaTeXGenerator.generate
    (Ast.BinaryOp 1 1 "/" (Ast.Number 1 1 "6") (Ast.Number 1 3 "2")) =
    Ok "$6 \div 2$".
Proof. reflexivity. Qed.

Example test_precedence_parens :
  LaTeXGenerator.generate
    (Ast.BinaryOp 1 5 "*"
       (Ast.BinaryOp 1 1 "+" (Ast.Number 1 1 "5") (Ast.Number 1 3 "3"))
       (Ast.Number 1 7 "2")) = Ok "$( 5 + 3 ) \times 2$".
Proof. reflexivity. Qed.

Example test_no_unnecessary_parens :
  LaTeXGenerator.generate
    (Ast.BinaryOp 1 5 "+"
       (Ast.BinaryOp 1 1 "*" (Ast.Number 1 1 "5") (Ast.Number 1 3 "3"))
       (Ast.Number 1 7 "2")) = Ok "$5 \times 3 + 2$".
Proof. reflexivity. Qed.

Example test_unknown_operator :
  LaTeXGenerator.generate
    (Ast.BinaryOp 1 1 "^" (Ast.Number 1 1 "2") (Ast.Number 1 3 "3")) =
    Raise (KeyError "^").
Proof. reflexivity. Qed.

Example test_caret_position :
  ErrorFormatter.format_error (ErrorFormatter.init "5 3 @") "Error" 1 5 1 =
    "Error: Error" ++ nl ++ nl ++ "1 | 5 3 @" ++ nl ++ "  |     ^".
Proof. reflexivity. Qed.

Example test_caret_on_second_line :
  ErrorFormatter.format_error
    (ErrorFormatter.init ("5 3" ++ nl ++ "4 @" ++ nl ++ "+")) "Error" 2 3 1 =
    "Error: Error" ++ nl ++ nl ++ "1 | 5 3" ++ nl ++ "2 | 4 @" ++ nl ++
    "  |   ^" ++ nl ++ "3 | +".
Proof. reflexivity. Qed.

Example test_splitlines :
  splitlines ("a" ++ nl ++ nl ++ "b" ++ char1 CR ++ nl ++ "c" ++ nl) =
    ["a"; ""; "b"; "c"].
Proof. reflexivity. Qed.

Example test_full_pipeline_complex :
  Cli.convert "10 2 / 3 + 4 2 * -" = Ok "$10 \div 2 + 3 - 4 \times 2$".
Proof. reflexivity. Qed.

End PackageTests.

(* ================================================================== *)
(** * Positions *)

Section Positions.

Import Lexer.

Lemma position_from_app (a b : string) :
  forall line column : Z,
    position_from line column (a ++ b) =
      position_from (fst (position_from line column a))
                    (snd (position_from line column a)) b.
Proof.
  induction a as [|c a IH]; intros line column; simpl; [reflexivity|].
  destruct (Ascii.eqb c LF); apply IH.
Qed.

Lemma position_from_one_line (v : string) :
  forall line column : Z,
    one_line v = true ->
    position_from line column v = (line, (column + Z.of_nat (String.length v))%Z).
Proof.
  unfold one_line.
  induction v as [|c v IH]; intros line column H; simpl in *.
  - f_equal. lia.
  - apply andb_true_iff in H as [Hc Hv]. apply negb_true_iff in Hc.
    rewrite Hc, IH by exact Hv. f_equal. lia.
Qed.

Lemma one_line_app (a b : string) :
  one_line (a ++ b) = one_line a && one_line b.
Proof.
  unfold one_line. induction a as [|c a IH]; simpl; [reflexivity|].
  now rewrite IH, andb_assoc.
Qed.

Lemma digits_one_line (ds : string) :
  all_chars isdigit_char ds = true -> one_line ds = true.
Proof.
  unfold one_line. induction ds as [|c ds IH]; simpl; [reflexivity|].
  intros H. apply andb_true_iff in H as [Hc Hd]. rewrite (IH Hd), andb_true_r.
  apply negb_true_iff, Ascii.eqb_neq. intros ->. discriminate Hc.
Qed.

Lemma char1_eqb_nl (c : ascii) : (char1 c =? nl) = Ascii.eqb c LF.
Proof.
  destruct (Ascii.eqb_spec c LF) as [-> | N]; [reflexivity|].
  apply String.eqb_neq. intros E. now apply char1_inj in E.
Qed.

(** [_advance] keeps line and column in step with the text read. *)
Lemma advance_tracks (lx : Lexer) (before : string) (c : ascii) (rest : string) :
  stands_at lx before (String c rest) ->
  tracks lx before ->
  exists lx', _advance lx = Ok (char1 c, lx') /\
              stands_at lx' (before ++ char1 c) rest /\
              tracks lx' (before ++ char1 c).
Proof.
  intros Hs Ht. unfold _advance. rewrite (stands_get _ _ _ _ Hs). cbv zeta.
  rewrite char1_eqb_nl.
  assert (Hpos : position_after (before ++ char1 c) =
                 if Ascii.eqb c LF then ((line lx + 1)%Z, 1%Z)
                 else (line lx, (column lx + 1)%Z)).
  { unfold position_after. rewrite position_from_app.
    unfold tracks, position_after in Ht. rewrite <- Ht. simpl.
    now destruct (Ascii.eqb c LF). }
  destruct Hs as [Htext Hp].
  destruct (Ascii.eqb c LF); eexists; (split; [reflexivity|]);
    (split; [split; simpl;
             [rewrite Htext, append_assoc; reflexivity
             | rewrite Hp, length_append; reflexivity]
            | unfold tracks; rewrite Hpos; reflexivity]).
Qed.

(** Reading characters of one line moves the column only. *)
Lemma shift_tracks (lx : Lexer) (before v : string) :
  tracks lx before ->
  one_line v = true ->
  tracks (shift lx (String.length v)) (before ++ v).
Proof.
  unfold tracks, position_after. intros Ht Hv.
  rewrite position_from_app, <- Ht. simpl.
  now rewrite position_from_one_line.
Qed.

(** [_skip_whitespace], with the position it reaches. *)
Lemma skip_whitespace_tracks (here : string) :
  forall (fuel : nat) (lx : Lexer) (before : string),
    stands_at lx before here ->
    tracks lx before ->
    String.length here <= fuel ->
    exists lx' ws rest,
      here = ws ++ rest /\
      all_chars is_whitespace ws = true /\
      no_leading_whitespace rest = true /\
      skip_whitespace_loop fuel lx = Ok lx' /\
      stands_at lx' (before ++ ws) rest /\
      tracks lx' (before ++ ws).
Proof.
  induction here as [|c here IH]; intros fuel lx before Hs Ht Hf.
  - exists lx, "", "". rewrite !append_nil_r.
    split; [reflexivity|]. split; [reflexivity|]. split; [reflexivity|].
    split; [|split; assumption].
    destruct fuel; simpl; [reflexivity|]. now rewrite (stands_at_end _ _ Hs).
  - destruct fuel as [|fuel]; [simpl in Hf; lia|]. simpl skip_whitespace_loop.
    rewrite (stands_not_at_end _ _ _ _ Hs), (stands_peek _ _ _ _ Hs).
    simpl negb. cbv iota.
    destruct (str_in (char1 c) whitespace) eqn:Hw; simpl andb; cbv iota.
    + destruct (advance_tracks _ _ _ _ Hs Ht) as (lx1 & -> & Hs1 & Ht1).
      simpl bind.
      destruct (IH fuel lx1 _ Hs1 Ht1 ltac:(simpl in Hf; lia))
        as (lx' & ws & rest & -> & Hws & Hr & E & Hs' & Ht').
      exists lx', (String c ws), rest. rewrite append_assoc in Hs', Ht'.
      split; [reflexivity|].
      split; [simpl; unfold is_whitespace at 1; now rewrite Hw|].
      split; [exact Hr|]. split; [exact E|]. split; assumption.
    + exists lx, "", (String c here). rewrite !append_nil_r.
      split; [reflexivity|]. split; [reflexivity|].
      split; [simpl; now rewrite Hw|]. split; [reflexivity|]. split; assumption.
Qed.

End Positions.

(* ================================================================== *)
(** * Lexemes *)

Section Lexemes.

Import Lexer.

(** [_scan_number], with the shape of what it reads. *)
Lemma scan_number_lexeme (lx : Lexer) (prefix before here : string)
  (start_line start_column : Z) :
  stands_at lx before here ->
  exists ds frac rest,
    here = (ds ++ frac) ++ rest /\
    all_chars isdigit_char ds = true /\
    no_leading_digit rest = true /\
    ((frac = "" /\ no_leading_dot rest = true) \/
     (exists ds2, frac = "." ++ ds2 /\ all_chars isdigit_char ds2 = true)) /\
    no_leading_digit (frac ++ rest) = true /\
    _scan_number lx prefix start_line start_column =
      Ok (Tokens.mkToken Tokens.NUMBER (prefix ++ ds ++ frac)
                         start_line start_column,
          shift lx (String.length (ds ++ frac))) /\
    stands_at (shift lx (String.length (ds ++ frac))) (before ++ ds ++ frac) rest.
Proof.
  intros Hs. destruct (span_digits here) as (ds & rest & -> & Hd & Hr).
  destruct (no_leading_dot rest) eqn:Hdot.
  - exists ds, "", rest. rewrite !append_nil_r.
    destruct (scan_number_integer lx prefix before ds rest start_line
                start_column Hs Hd Hr Hdot) as [E Hs'].
    split; [reflexivity|]. split; [exact Hd|]. split; [exact Hr|].
    split; [now left|]. split; [exact Hr|]. split; assumption.
  - destruct rest as [|c rest]; [discriminate|]. simpl in Hdot.
    apply negb_false_iff, Ascii.eqb_eq in Hdot. subst c.
    destruct (span_digits rest) as (ds2 & rest2 & -> & Hd2 & Hr2).
    exists ds, ("." ++ ds2), rest2.
    destruct (scan_number_fraction lx prefix before ds ds2 rest2 start_line
                start_column Hs Hd Hd2 Hr2) as [E Hs'].
    rewrite !append_assoc. simpl append.
    split; [reflexivity|]. split; [exact Hd|]. split; [exact Hr2|].
    split; [right; now exists ds2|]. split; [reflexivity|]. split; assumption.
Qed.

Lemma number_one_line (ds frac : string) :
  all_chars isdigit_char ds = true ->
  (frac = "" \/ exists ds2, frac = "." ++ ds2 /\ all_chars isdigit_char ds2 = true) ->
  one_line (ds ++ frac) = true.
Proof.
  intros Hd Hf. rewrite one_line_app, (digits_one_line _ Hd). simpl.
  destruct Hf as [-> | (ds2 & -> & Hd2)]; [reflexivity|].
  exact (digits_one_line _ Hd2).
Qed.

(** [_scan_token], with the text, the position and the shape of the token
    it returns, or the character it rejects. *)
Lemma scan_token_lexeme (lx : Lexer) (before : string) (c : ascii)
  (rest : string) :
  stands_at lx before (String c rest) ->
  tracks lx before ->
  (exists tok lx' rest',
      String c rest = Tokens.value tok ++ rest' /\
      _scan_token lx = Ok (tok, lx') /\
      (Tokens.line tok, Tokens.column tok) = position_after before /\
      lexeme tok rest' /\
      stands_at lx' (before ++ Tokens.value tok) rest' /\
      tracks lx' (before ++ Tokens.value tok)) \/
  (_scan_token lx =
     Raise (LexerError ("Unexpected character '" ++ char1 c ++ "'")
                       (line lx) (column lx)) /\
   starts_no_token c).
Proof.
  intros Hs Ht. pose proof (stands_peek _ _ _ _ Hs) as Hp.
  unfold _scan_token. rewrite Hp.
  assert (Hop : forall (o : ascii) (t : Tokens.TokenType),
             c = o -> Ascii.eqb o LF = false ->
             (match t with
              | Tokens.PLUS | Tokens.MULT | Tokens.DIV => True
              | _ => False end) ->
             (t = Tokens.PLUS -> o = "+"%char) ->
             (t = Tokens.MULT -> o = "*"%char) ->
             (t = Tokens.DIV -> o = "/"%char) ->
             exists tok lx' rest',
               String c rest = Tokens.value tok ++ rest' /\
               (bind (_advance lx) (fun x => match x with
                  | (_, self) =>
                      Ok (Tokens.mkToken t (char1 o) (line lx) (column lx), self)
                  end)) = Ok (tok, lx') /\
               (Tokens.line tok, Tokens.column tok) = position_after before /\
               lexeme tok rest' /\
               stands_at lx' (before ++ Tokens.value tok) rest' /\
               tracks lx' (before ++ Tokens.value tok)).
  { intros o t -> Hnl Hty H1 H2 H3.
    assert (Hnl' : (char1 o =? nl) = false) by now rewrite char1_eqb_nl.
    destruct (advance_plain _ _ _ _ Hs Hnl') as [-> Hs1]. simpl bind.
    exists (Tokens.mkToken t (char1 o) (line lx) (column lx)), (shift lx 1), rest.
    split; [reflexivity|]. split; [reflexivity|].
    split; [exact Ht|]. split.
    - unfold lexeme. simpl.
      destruct t; try contradiction;
        [rewrite (H1 eq_refl) | rewrite (H2 eq_refl) | rewrite (H3 eq_refl)];
        reflexivity.
    - split; [exact Hs1|]. simpl Tokens.value.
      apply (shift_tracks lx before (char1 o) Ht).
      unfold one_line. simpl. now rewrite Hnl. }
  destruct (char1 c =? "+") eqn:E1.
  { left. apply String.eqb_eq, char1_inj in E1.
    apply (Hop "+"%char Tokens.PLUS); try easy. }
  destruct (char1 c =? "-") eqn:E2.
  { left. apply String.eqb_eq, char1_inj in E2. subst c.
    destruct (advance_plain _ _ _ _ Hs eq_refl) as [-> Hs1]. simpl bind.
    pose proof (shift_tracks lx before "-" Ht eq_refl) as Ht1.
    simpl String.length in Ht1.
    destruct (negb (_at_end (shift lx 1)) && isdigit (_peek (shift lx 1))) eqn:Hdig.
    - destruct (scan_number_lexeme (shift lx 1) "-" _ _ (line lx) (column lx) Hs1)
        as (ds & frac & rest' & -> & Hd & Hr & Hf & Hfr & E & Hs2).
      assert (Hne : ds <> "").
      { intros ->. simpl in *.
        destruct (frac ++ rest') as [|x y] eqn:Hx.
        - now rewrite (stands_at_end _ _ Hs1) in Hdig.
        - rewrite (stands_not_at_end _ _ _ _ Hs1), (stands_peek _ _ _ _ Hs1),
            isdigit_char1 in Hdig. simpl in Hdig, Hfr.
          rewrite Hdig in Hfr. discriminate. }
      eexists _, _, rest'. split; [|split; [exact E|]].
      { simpl. reflexivity. }
      split; [exact Ht|]. split.
      + unfold lexeme. simpl. exists "-", ds, frac.
        split; [reflexivity|]. split; [now right|]. split; [exact Hne|].
        split; [exact Hd|]. split; [exact Hr|]. exact Hf.
      + simpl Tokens.value.
        assert (Hline : one_line (ds ++ frac) = true).
        { apply number_one_line; [exact Hd|].
          destruct Hf as [[-> _] | H]; [now left | now right]. }
        pose proof (shift_tracks _ _ _ Ht1 Hline) as Ht2.
        rewrite !append_assoc in Hs2, Ht2. simpl append in Hs2, Ht2.
        split; assumption.
    - exists (Tokens.mkToken Tokens.MINUS "-" (line lx) (column lx)),
        (shift lx 1), rest.
      split; [reflexivity|]. split; [reflexivity|].
      split; [exact Ht|]. split.
      + unfold lexeme. simpl. split; [reflexivity|].
        destruct rest as [|x rest]; [reflexivity|]. simpl.
        rewrite (stands_not_at_end _ _ _ _ Hs1), (stands_peek _ _ _ _ Hs1),
          isdigit_char1 in Hdig. simpl in Hdig. now rewrite Hdig.
      + split; assumption. }
  destruct (char1 c =? "*") eqn:E3.
  { left. apply String.eqb_eq, char1_inj in E3.
    apply (Hop "*"%char Tokens.MULT); try easy. }
  destruct (char1 c =? "/") eqn:E4.
  { left. apply String.eqb_eq, char1_inj in E4.
    apply (Hop "/"%char Tokens.DIV); try easy. }
  rewrite isdigit_char1.
  destruct (isdigit_char c) eqn:Hd.
  2:{ right. split; [reflexivity|].
      repeat split; try assumption; intros ->; discriminate. }
  left.
  destruct (scan_number_lexeme lx "" before _ (line lx) (column lx) Hs)
    as (ds & frac & rest' & Hhere & Hds & Hr & Hf & Hfr & E & Hs2).
  assert (Hne : ds <> "").
  { intros ->. simpl in Hhere. rewrite <- Hhere in Hfr. simpl in Hfr.
    rewrite Hd in Hfr. discriminate. }
  eexists _, _, rest'. split; [|split; [exact E|]].
  { simpl Tokens.value. exact Hhere. }
  split; [exact Ht|]. split.
  - unfold lexeme. simpl. exists "", ds, frac.
    split; [reflexivity|]. split; [now left|]. split; [exact Hne|].
    split; [exact Hds|]. split; [exact Hr|]. exact Hf.
  - simpl Tokens.value. split; [exact Hs2|].
    apply (shift_tracks lx before (ds ++ frac) Ht).
    apply number_one_line; [exact Hds|].
    destruct Hf as [[-> _] | H]; [now left | now right].
Qed.

End Lexemes.

(* ================================================================== *)
(** * The tokens of a text *)

Section TokensOfText.

Import Lexer.

Lemma no_leading_digit_truncate (r s : string) :
  no_leading_digit (r ++ s) = true -> no_leading_digit r = true.
Proof. destruct r; simpl; [reflexivity | trivial]. Qed.

Lemma no_leading_dot_truncate (r s : string) :
  no_leading_dot (r ++ s) = true -> no_leading_dot r = true.
Proof. destruct r; simpl; [reflexivity | trivial]. Qed.

(** The shape of a token does not depend on what lies beyond the text that
    follows it. *)
Lemma lexeme_truncate (tok : Tokens.Token) (r s : string) :
  lexeme tok (r ++ s) -> lexeme tok r.
Proof.
  unfold lexeme, number_lexeme. destruct (Tokens.type tok); try trivial.
  - intros (sign & ds & frac & Hv & Hsign & Hne & Hd & Hr & Hf).
    exists sign, ds, frac. repeat split; try assumption.
    + now apply no_leading_digit_truncate in Hr.
    + destruct Hf as [[Hf Hdot] | Hf]; [left | now right].
      split; [exact Hf|]. now apply no_leading_dot_truncate in Hdot.
  - intros [Hv Hr]. split; [exact Hv|]. now apply no_leading_digit_truncate in Hr.
Qed.

(** The scan loop of [tokenize], from any state in step with the text:
    either it reaches the end of the text, having added tokens that cover
    what was left, or it stops at the first character that is neither
    whitespace nor the start of a token, with the error naming that
    character at its position. *)
Lemma tokenize_loop_covers (n : nat) :
  forall (here : string) (fuel : nat) (lx : Lexer) (before : string)
         (acc : list Tokens.Token),
    String.length here <= n ->
    String.length here <= fuel ->
    stands_at lx before here ->
    tracks lx before ->
    (exists toks lx',
        tokenize_loop fuel lx acc = Ok ((acc ++ toks)%list, lx') /\
        covers before here toks /\
        tracks lx' (before ++ here)) \/
    (exists toks good c rest,
        here = good ++ String c rest /\
        covers before good toks /\
        is_whitespace c = false /\
        starts_no_token c /\
        tokenize_loop fuel lx acc =
          Raise (LexerError ("Unexpected character '" ++ char1 c ++ "'")
                            (fst (position_after (before ++ good)))
                            (snd (position_after (before ++ good))))).
Proof.
  induction n as [|n IH]; intros here fuel lx before acc Hn Hf Hs Ht.
  - destruct here; [|simpl in Hn; lia]. left. exists [], lx.
    rewrite tokenize_loop_end by exact (stands_at_end _ _ Hs).
    rewrite app_nil_r, append_nil_r.
    split; [reflexivity|]. split; [now constructor | exact Ht].
  - destruct here as [|c here].
    { left. exists [], lx.
      rewrite tokenize_loop_end by exact (stands_at_end _ _ Hs).
      rewrite app_nil_r, append_nil_r.
      split; [reflexivity|]. split; [now constructor | exact Ht]. }
    destruct fuel as [|fuel]; [simpl in Hf; lia|].
    simpl tokenize_loop.
    rewrite (stands_not_at_end _ _ _ _ Hs). simpl negb. cbv iota.
    unfold _skip_whitespace. rewrite (stands_remaining _ _ _ Hs).
    destruct (skip_whitespace_tracks _ _ lx before Hs Ht (le_n _))
      as (lx1 & ws & rest & Hhere & Hws & Hr & -> & Hs1 & Ht1).
    simpl bind. rewrite Hhere.
    assert (Hlen : String.length (String c here)
                   = String.length ws + String.length rest)
      by now rewrite Hhere, length_append.
    destruct rest as [|c1 rest].
    { left. exists [], lx1. rewrite (stands_at_end _ _ Hs1).
      rewrite app_nil_r, append_nil_r in *.
      split; [reflexivity|]. split; [now constructor | exact Ht1]. }
    rewrite (stands_not_at_end _ _ _ _ Hs1).
    destruct (scan_token_lexeme _ _ _ _ Hs1 Ht1)
      as [(tok & lx2 & rest' & Hrest & -> & Hpos & Hlex & Hs2 & Ht2) | [-> Hbad]].
    + simpl bind.
      assert (Hv : Tokens.value tok <> "").
      { intros E. unfold lexeme, number_lexeme in Hlex.
        destruct (Tokens.type tok); try contradiction;
          try (rewrite E in Hlex; first [discriminate | destruct Hlex; discriminate]).
        destruct Hlex as (sign & ds & frac & Hv & _ & Hne & _). rewrite E in Hv.
        destruct sign; [|discriminate]. destruct ds; [contradiction|discriminate]. }
      assert (Hlen2 : String.length (String c1 rest)
                      = String.length (Tokens.value tok) + String.length rest')
        by now rewrite Hrest, length_append.
      assert (Hpos' : 0 < String.length (Tokens.value tok))
        by (destruct (Tokens.value tok); [contradiction | simpl; lia]).
      simpl in Hlen, Hlen2, Hf, Hn.
      rewrite append_assoc in Hs2, Ht2.
      destruct (IH rest' fuel lx2 _ (acc ++ [tok])%list
                  ltac:(lia) ltac:(lia) Hs2 Ht2)
        as [(toks & lx' & E & Hcov & Ht') |
            (toks & good & bad & rest'' & Hgood & Hcov & Hw & Hb & E)].
      * left. exists (tok :: toks), lx'. rewrite Hrest.
        split; [rewrite E, <- app_assoc; reflexivity|].
        split; [now constructor|].
        now rewrite !append_assoc in *.
      * right. exists (tok :: toks), (ws ++ Tokens.value tok ++ good), bad, rest''.
        rewrite Hrest, Hgood.
        split; [now rewrite !append_assoc|].
        split.
        { constructor; try assumption. apply (lexeme_truncate tok good (String bad rest'')).
          now rewrite <- Hgood. }
        split; [exact Hw|]. split; [exact Hb|].
        rewrite E. now rewrite !append_assoc.
    + right. exists [], ws, c1, rest.
      split; [reflexivity|]. split; [now constructor|].
      split; [simpl in Hr; now apply negb_true_iff in Hr|]. split; [exact Hbad|].
      simpl. unfold tracks in Ht1. now rewrite <- Ht1.
Qed.

End TokensOfText.

(* ================================================================== *)
(** * What [tokenize] returns and when it fails *)

Section TokenizeOutcome.

Import Lexer.

Lemma strip_app (a b : string) : strip (a ++ b) = strip a ++ strip b.
Proof.
  induction a as [|c a IH]; simpl; [reflexivity|].
  destruct (is_whitespace c); simpl; now rewrite IH.
Qed.

Lemma strip_whitespace (ws : string) :
  all_chars is_whitespace ws = true -> strip ws = "".
Proof.
  induction ws as [|c ws IH]; simpl; [reflexivity|].
  intros H. apply andb_true_iff in H as [-> H]. now apply IH.
Qed.

Lemma strip_digits (ds : string) :
  all_chars isdigit_char ds = true -> strip ds = ds.
Proof.
  induction ds as [|c ds IH]; simpl; [reflexivity|].
  intros H. apply andb_true_iff in H as [Hc H].
  destruct (digit_plain c Hc) as [Hw _]. unfold is_whitespace. rewrite Hw.
  now rewrite IH.
Qed.

(** No token holds a whitespace character. *)
Lemma lexeme_strip (tok : Tokens.Token) (rest : string) :
  lexeme tok rest -> strip (Tokens.value tok) = Tokens.value tok.
Proof.
  unfold lexeme, number_lexeme. destruct (Tokens.type tok);
    try (intros ->; reflexivity); try (intros [-> _]; reflexivity);
    try contradiction.
  intros (sign & ds & frac & -> & Hsign & _ & Hd & _ & Hf).
  rewrite !strip_app, (strip_digits _ Hd).
  assert (Hs : strip sign = sign) by (destruct Hsign as [-> | ->]; reflexivity).
  assert (Hfr : strip frac = frac).
  { destruct Hf as [[-> _] | (ds2 & -> & Hd2)]; [reflexivity|].
    simpl. unfold is_whitespace. simpl. now rewrite (strip_digits _ Hd2). }
  now rewrite Hs, Hfr.
Qed.

Lemma lexeme_not_empty (tok : Tokens.Token) (rest : string) :
  lexeme tok rest -> Tokens.value tok <> "" /\ Tokens.type tok <> Tokens.EOF.
Proof.
  unfold lexeme, number_lexeme. intros H. split.
  - intros E. destruct (Tokens.type tok); try contradiction;
      try (rewrite E in H; first [discriminate | destruct H; discriminate]).
    destruct H as (sign & ds & frac & Hv & _ & Hne & _). rewrite E in Hv.
    destruct sign; [|discriminate]. destruct ds; [contradiction|discriminate].
  - intros E. now rewrite E in H.
Qed.

Lemma covers_texts (before here : string) (toks : list Tokens.Token) :
  covers before here toks -> texts toks = strip here.
Proof.
  induction 1 as [before ws Hws | before ws tok rest toks Hws _ Hlex _ IH]; simpl.
  - now rewrite strip_whitespace.
  - rewrite !strip_app, (strip_whitespace _ Hws), (lexeme_strip _ _ Hlex), IH.
    reflexivity.
Qed.

Lemma covers_located (before here : string) (toks : list Tokens.Token) :
  covers before here toks ->
  forall tok, In tok toks ->
    exists b a,
      before ++ here = b ++ Tokens.value tok ++ a /\
      (Tokens.line tok, Tokens.column tok) = position_after b /\
      lexeme tok a.
Proof.
  induction 1 as [before ws Hws | before ws tok rest toks Hws Hpos Hlex _ IH];
    intros t Hin; [contradiction|].
  destruct Hin as [<- | Hin].
  - exists (before ++ ws), rest. split; [now rewrite !append_assoc|]. now split.
  - destruct (IH t Hin) as (b & a & E & Hp & Hl).
    exists b, a. split; [|now split]. rewrite <- E. now rewrite !append_assoc.
Qed.

(** The two outcomes of [tokenize] on a whole text. *)
Lemma tokenize_outcome (text : string) :
  (exists body,
      tokenize (init text) =
        Ok (body ++ [Tokens.mkToken Tokens.EOF "" (fst (position_after text))
                                    (snd (position_after text))])%list /\
      covers "" text body) \/
  (exists body good c rest,
      text = good ++ String c rest /\
      covers "" good body /\
      is_whitespace c = false /\
      starts_no_token c /\
      tokenize (init text) =
        Raise (LexerError ("Unexpected character '" ++ char1 c ++ "'")
                          (fst (position_after good))
                          (snd (position_after good)))).
Proof.
  assert (Hs : stands_at (init text) "" text) by (split; reflexivity).
  assert (Ht : tracks (init text) "") by reflexivity.
  unfold tokenize.
  destruct (tokenize_loop_covers _ text (remaining (init text)) (init text) "" []
              (le_n _)) as [(toks & lx' & E & Hcov & Ht') |
                            (toks & good & c & rest & Hg & Hcov & Hw & Hb & E)];
    try assumption.
  { rewrite (stands_remaining _ _ _ Hs). lia. }
  - left. exists toks. rewrite E. simpl bind. simpl in Ht'.
    unfold tracks in Ht'. rewrite <- Ht'. simpl. split; [reflexivity | exact Hcov].
  - right. exists toks, good, c, rest. rewrite E.
    split; [exact Hg|]. split; [exact Hcov|]. split; [exact Hw|].
    split; [exact Hb | reflexivity].
Qed.

End TokenizeOutcome.

(* ================================================================== *)
(** * Properties of the lexer *)

Section LexerProperties.

Import Lexer.

Lemma texts_app (a b : list Tokens.Token) :
  texts (a ++ b) = texts a ++ texts b.
Proof.
  induction a as [|t a IH]; simpl; [reflexivity|]. now rewrite IH, append_assoc.
Qed.

Lemma all_chars_app (p : ascii -> bool) (a b : string) :
  all_chars p (a ++ b) = all_chars p a && all_chars p b.
Proof.
  induction a as [|c a IH]; simpl; [reflexivity|]. now rewrite IH, andb_assoc.
Qed.

(** X1.  The tokens [tokenize] returns cover the text: in order, they are
    the lexemes of the text, each as long as it can be, separated and
    surrounded by whitespace only and positioned at the line and column of
    their first character; after them comes one EOF token, with an empty
    text, positioned just after the last character of the text. *)
Theorem tokens_cover_text (text : string) (toks : list Tokens.Token) :
  tokenize (init text) = Ok toks ->
  exists body,
    toks = (body ++ [Tokens.mkToken Tokens.EOF "" (fst (position_after text))
                                    (snd (position_after text))])%list /\
    covers "" text body.
Proof.
  intros H.
  destruct (tokenize_outcome text) as [(body & E & Hcov) | (? & ? & ? & ? & _ & _ & _ & _ & E)];
    rewrite E in H; [|discriminate].
  injection H as <-. now exists body.
Qed.

(** X1, witness: the text ["5 3 +"]. *)
Lemma tokens_cover_text_witness :
  tokenize (init "5 3 +") =
    Ok [Tokens.mkToken Tokens.NUMBER "5" 1 1; Tokens.mkToken Tokens.NUMBER "3" 1 3;
        Tokens.mkToken Tokens.PLUS "+" 1 5; Tokens.mkToken Tokens.EOF "" 1 6] /\
  exists body,
    [Tokens.mkToken Tokens.NUMBER "5" 1 1; Tokens.mkToken Tokens.NUMBER "3" 1 3;
     Tokens.mkToken Tokens.PLUS "+" 1 5; Tokens.mkToken Tokens.EOF "" 1 6] =
      (body ++ [Tokens.mkToken Tokens.EOF "" 1 6])%list /\
    covers "" "5 3 +" body.
Proof.
  split; [reflexivity|].
  exact (tokens_cover_text "5 3 +"
           [Tokens.mkToken Tokens.NUMBER "5" 1 1;
            Tokens.mkToken Tokens.NUMBER "3" 1 3;
            Tokens.mkToken Tokens.PLUS "+" 1 5;
            Tokens.mkToken Tokens.EOF "" 1 6] eq_refl).
Defined.

(** X2.  Tokenizing loses nothing but whitespace: the texts of the tokens
    returned, put end to end, are the text without its whitespace
    characters. *)
Theorem token_texts_are_the_text (text : string) (toks : list Tokens.Token) :
  tokenize (init text) = Ok toks -> texts toks = strip text.
Proof.
  intros H.
  destruct (tokenize_outcome text) as [(body & E & Hcov) | (? & ? & ? & ? & _ & _ & _ & _ & E)];
    rewrite E in H; [|discriminate].
  injection H as <-. rewrite texts_app, (covers_texts _ _ _ Hcov). simpl.
  now rewrite append_nil_r.
Qed.

(** X2, witness: the text ["-3.14  2 *"]. *)
Lemma token_texts_are_the_text_witness :
  tokenize (init "-3.14  2 *") =
    Ok [Tokens.mkToken Tokens.NUMBER "-3.14" 1 1; Tokens.mkToken Tokens.NUMBER "2" 1 8;
        Tokens.mkToken Tokens.MULT "*" 1 10; Tokens.mkToken Tokens.EOF "" 1 11] /\
  texts [Tokens.mkToken Tokens.NUMBER "-3.14" 1 1; Tokens.mkToken Tokens.NUMBER "2" 1 8;
         Tokens.mkToken Tokens.MULT "*" 1 10; Tokens.mkToken Tokens.EOF "" 1 11]
    = strip "-3.14  2 *".
Proof.
  split; [reflexivity|].
  exact (token_texts_are_the_text "-3.14  2 *"
           [Tokens.mkToken Tokens.NUMBER "-3.14" 1 1;
            Tokens.mkToken Tokens.NUMBER "2" 1 8;
            Tokens.mkToken Tokens.MULT "*" 1 10;
            Tokens.mkToken Tokens.EOF "" 1 11] eq_refl).
Defined.

(** X3.  Every token [tokenize] returns is where it says it is: the text
    splits into what precedes the token, the token's own text and what
    follows it, and the token's line and column are the position reached
    after what precedes it (line 1 + the number of line feeds there, column
    1 + the number of characters since the last of them).  A token other
    than the final EOF has the shape of its type: an operator token is its
    symbol, a MINUS is not followed by a digit, and a NUMBER is an optional
    ['-'], at least one digit and an optional dot with digits, not followed
    by a digit. *)
Theorem token_is_where_it_says (text : string) (toks : list Tokens.Token)
  (tok : Tokens.Token) :
  tokenize (init text) = Ok toks ->
  In tok toks ->
  exists b a,
    text = b ++ Tokens.value tok ++ a /\
    (Tokens.line tok, Tokens.column tok) = position_after b /\
    (lexeme tok a \/ (Tokens.type tok = Tokens.EOF /\ b = text)).
Proof.
  intros H Hin.
  destruct (tokenize_outcome text) as [(body & E & Hcov) | (? & ? & ? & ? & _ & _ & _ & _ & E)];
    rewrite E in H; [|discriminate].
  injection H as <-. apply in_app_or in Hin as [Hin | [<- | []]].
  - destruct (covers_located _ _ _ Hcov tok Hin) as (b & a & Ht & Hp & Hl).
    exists b, a. simpl in Ht. split; [exact Ht|]. split; [exact Hp | now left].
  - exists text, "". simpl. rewrite append_nil_r.
    split; [reflexivity|]. split; [now destruct (position_after text) | now right].
Qed.

(** X3, witness: the ['+'] of a text of two lines. *)
Lemma token_is_where_it_says_witness :
  tokenize (init ("5 3" ++ nl ++ " +")) =
    Ok [Tokens.mkToken Tokens.NUMBER "5" 1 1; Tokens.mkToken Tokens.NUMBER "3" 1 3;
        Tokens.mkToken Tokens.PLUS "+" 2 2; Tokens.mkToken Tokens.EOF "" 2 3] /\
  exists b a,
    "5 3" ++ nl ++ " +" = b ++ "+" ++ a /\
    (2%Z, 2%Z) = position_after b /\
    (lexeme (Tokens.mkToken Tokens.PLUS "+" 2 2) a \/
     (Tokens.PLUS = Tokens.EOF /\ b = "5 3" ++ nl ++ " +")).
Proof.
  split; [reflexivity|].
  apply (token_is_where_it_says ("5 3" ++ nl ++ " +")
           [Tokens.mkToken Tokens.NUMBER "5" 1 1;
            Tokens.mkToken Tokens.NUMBER "3" 1 3;
            Tokens.mkToken Tokens.PLUS "+" 2 2;
            Tokens.mkToken Tokens.EOF "" 2 3]
           (Tokens.mkToken Tokens.PLUS "+" 2 2) eq_refl).
  simpl. tauto.
Defined.

(** X4.  When [tokenize] fails, it fails on the first character that is
    neither whitespace nor the start of a token: what precedes that
    character is covered by tokens, the character is none of the four
    operators nor a digit, and the error is LexerError "Unexpected
    character '<the character>'" at the character's line and column. *)
Theorem lexer_error_at_first_bad_character (text : string) (e : exn) :
  tokenize (init text) = Raise e ->
  exists body good c rest,
    text = good ++ String c rest /\
    covers "" good body /\
    is_whitespace c = false /\
    starts_no_token c /\
    e = LexerError ("Unexpected character '" ++ char1 c ++ "'")
                   (fst (position_after good)) (snd (position_after good)).
Proof.
  intros H.
  destruct (tokenize_outcome text)
    as [(body & E & _) | (body & good & c & rest & Hg & Hcov & Hw & Hb & E)];
    rewrite E in H; [discriminate|].
  injection H as <-. now exists body, good, c, rest.
Qed.

(** X4, witness: the ['@'] of ["5 @"]. *)
Lemma lexer_error_at_first_bad_character_witness :
  tokenize (init "5 @") = Raise (LexerError "Unexpected character '@'" 1 3) /\
  exists body good c rest,
    "5 @" = good ++ String c rest /\
    covers "" good body /\
    is_whitespace c = false /\
    starts_no_token c /\
    LexerError "Unexpected character '@'" 1 3 =
      LexerError ("Unexpected character '" ++ char1 c ++ "'")
                 (fst (position_after good)) (snd (position_after good)).
Proof.
  split; [reflexivity|].
  exact (lexer_error_at_first_bad_character "5 @"
           (LexerError "Unexpected character '@'" 1 3) eq_refl).
Defined.

(** X5.  A text made of whitespace only, the empty text included, gives no
    token but EOF, positioned after the whitespace: line feeds count as
    lines, carriage returns as plain characters. *)
Theorem whitespace_only_gives_eof (text : string) :
  all_chars is_whitespace text = true ->
  tokenize (init text) =
    Ok [Tokens.mkToken Tokens.EOF "" (fst (position_after text))
                       (snd (position_after text))].
Proof.
  intros Hws.
  destruct (tokenize_outcome text)
    as [(body & E & Hcov) | (body & good & c & rest & Hg & _ & Hw & _ & _)].
  - rewrite E. pose proof (covers_texts _ _ _ Hcov) as Ht.
    rewrite (strip_whitespace _ Hws) in Ht.
    destruct Hcov as [ws _ | ws tok rest toks _ _ Hlex _]; [reflexivity|].
    simpl in Ht. destruct (lexeme_not_empty _ _ Hlex) as [Hne _].
    destruct (Tokens.value tok); [contradiction | discriminate].
  - rewrite Hg, all_chars_app in Hws. simpl in Hws. rewrite Hw in Hws.
    simpl in Hws. rewrite andb_false_r in Hws. discriminate.
Qed.

(** X5, witness: a blank, a carriage return, a line feed and a tab. *)
Lemma whitespace_only_gives_eof_witness :
  all_chars is_whitespace (" " ++ char1 CR ++ nl ++ char1 TAB) = true /\
  tokenize (init (" " ++ char1 CR ++ nl ++ char1 TAB)) =
    Ok [Tokens.mkToken Tokens.EOF "" 2 2].
Proof.
  split; [reflexivity|].
  exact (whitespace_only_gives_eof (" " ++ char1 CR ++ nl ++ char1 TAB) eq_refl).
Defined.

End LexerProperties.

(* ================================================================== *)
(** * Trees and their postfix form *)

Section PostfixForm.

Import Parser.

Lemma firstn_snoc {A} (l : list A) (n : nat) (x : A) :
  nth_error l n = Some x -> firstn (S n) l = (firstn n l ++ [x])%list.
Proof.
  revert n; induction l as [|y l IH]; intros [|n] H; simpl in *;
    try discriminate.
  - now injection H as ->.
  - now rewrite (IH n H).
Qed.

Lemma pop_inv {A} (l r : list A) (x : A) :
  pop l = Some (x, r) -> l = (r ++ [x])%list.
Proof.
  unfold pop. destruct (rev l) as [|y t] eqn:E; [discriminate|].
  intros [= <- <-]. rewrite <- (rev_involutive l), E. reflexivity.
Qed.

Lemma op_map_is_op (t : Tokens.TokenType) (operator : string) :
  op_map t = Ok operator ->
  is_op operator = true /\ operator_type operator = t.
Proof. destruct t; simpl; intros [= <-]; now split. Qed.

(** What an iteration does to the stack when it goes round again: it
    pushes the leaf of a NUMBER token, or replaces the two items on top by
    the BinaryOp of an operator token. *)
Lemma loop_body_push (p p' : Parser) (stack stack' : list Ast.Expr) :
  loop_body p stack = Ok (Continue p' stack') ->
  exists t, _current p = Ok t /\
    ((Tokens.type t = Tokens.NUMBER /\
      stack' = (stack ++ [Ast.Number (Tokens.line t) (Tokens.column t)
                                     (Tokens.value t)])%list) \/
     (exists rest l r operator,
         op_map (Tokens.type t) = Ok operator /\
         stack = (rest ++ [l; r])%list /\
         stack' = (rest ++ [Ast.BinaryOp (Tokens.line t) (Tokens.column t)
                                         operator l r])%list)).
Proof.
  unfold loop_body. destruct (_current p) as [t|] eqn:Hc; simpl bind; [|discriminate].
  intros H. exists t. split; [reflexivity|].
  destruct (Tokens.TokenType_eqb (Tokens.type t) Tokens.NUMBER) eqn:Hn.
  - left. destruct (_advance p) as [[? ?]|]; simpl in H; [|discriminate].
    injection H as _ <-. split; [|reflexivity].
    now destruct (Tokens.type t).
  - right. destruct (is_operator (Tokens.type t)).
    + destruct (List.length stack <? 2)%nat; [discriminate|].
      destruct (pop stack) as [[r s1]|] eqn:P1; [|discriminate].
      destruct (pop s1) as [[l s2]|] eqn:P2; [|discriminate].
      destruct (op_map (Tokens.type t)) as [operator|] eqn:Hm; simpl in H;
        [|discriminate].
      destruct (_advance p) as [[? ?]|]; simpl in H; [|discriminate].
      injection H as _ <-.
      apply pop_inv in P1, P2. subst stack s1.
      exists s2, l, r, operator. rewrite <- app_assoc. now repeat split.
    + destruct (Tokens.TokenType_eqb (Tokens.type t) Tokens.EOF); discriminate.
Qed.

Lemma loop_body_break (p : Parser) (stack stack' : list Ast.Expr) :
  loop_body p stack = Ok (Break stack') -> stack' = stack.
Proof.
  unfold loop_body. destruct (_current p) as [t|]; simpl bind; [|discriminate].
  destruct (Tokens.TokenType_eqb (Tokens.type t) Tokens.NUMBER).
  { destruct (_advance p) as [[? ?]|]; simpl; discriminate. }
  destruct (is_operator (Tokens.type t)).
  { destruct (List.length stack <? 2)%nat; [discriminate|].
    destruct (pop stack) as [[r s1]|]; [|discriminate].
    destruct (pop s1) as [[l s2]|]; [|discriminate].
    destruct (op_map (Tokens.type t)); simpl; [|discriminate].
    destruct (_advance p) as [[? ?]|]; simpl; discriminate. }
  destruct (Tokens.TokenType_eqb (Tokens.type t) Tokens.EOF); [|discriminate].
  now intros [= <-].
Qed.

(** The leaf of a NUMBER token and the node of a scanned operator token
    have that token as their own. *)
Lemma number_token_eta (t : Tokens.Token) :
  Tokens.type t = Tokens.NUMBER ->
  Tokens.mkToken Tokens.NUMBER (Tokens.value t) (Tokens.line t) (Tokens.column t) = t.
Proof. destruct t; simpl; now intros ->. Qed.

Lemma operator_token_eta (t : Tokens.Token) (operator : string) :
  scanned t ->
  op_map (Tokens.type t) = Ok operator ->
  Tokens.mkToken (operator_type operator) operator (Tokens.line t) (Tokens.column t) = t.
Proof.
  intros [_ Hs] Hm. destruct (op_map_is_op _ _ Hm) as [_ Ht].
  assert (Hop : is_operator (Tokens.type t) = true)
    by (destruct (Tokens.type t); try reflexivity; discriminate).
  specialize (Hs Hop). rewrite Hm in Hs. injection Hs as ->.
  rewrite Ht. now destruct t.
Qed.

(** Invariant of the loop on scanned tokens closed by EOF: the postfix
    forms of the items on the stack, bottom first, make up the tokens read
    so far, and every item is well formed. *)
Lemma parse_loop_postfix (body : list Tokens.Token) (eof : Tokens.Token) :
  Forall scanned body ->
  Tokens.type eof = Tokens.EOF ->
  forall (n : nat) (p : Parser) (stack stack' : list Ast.Expr),
    tokens p = (body ++ [eof])%list ->
    pos p <= List.length body ->
    flat_map postfix stack = firstn (pos p) body ->
    forallb well_formed stack = true ->
    parse_loop n p stack = Ok stack' ->
    flat_map postfix stack' = body /\ forallb well_formed stack' = true.
Proof.
  intros Hbody Heof. induction n as [|n IH];
    intros p stack stack' Ht Hp Hflat Hwf Hrun;
    destruct (current_in_body p body eof Ht Hp)
      as [[Hend Hc] | [Hlt (t & Hc & Hin)]].
  - simpl in Hrun. unfold _at_end in Hrun. rewrite Hc in Hrun. simpl in Hrun.
    rewrite Heof in Hrun. simpl in Hrun. injection Hrun as <-.
    rewrite Hflat, Hend, firstn_all. now split.
  - rewrite Forall_forall in Hbody. destruct (Hbody t Hin) as [Hne _].
    simpl in Hrun. unfold _at_end in Hrun. rewrite Hc in Hrun. simpl in Hrun.
    destruct (Tokens.type t); try discriminate Hrun. contradiction.
  - simpl in Hrun. unfold _at_end in Hrun. rewrite Hc in Hrun. simpl in Hrun.
    rewrite Heof in Hrun. simpl in Hrun. injection Hrun as <-.
    rewrite Hflat, Hend, firstn_all. now split.
  - pose proof Hbody as Hall. rewrite Forall_forall in Hall.
    pose proof (Hall t Hin) as Hscanned. destruct Hscanned as [Hne Hsym].
    assert (Ha : _at_end p = Ok false).
    { unfold _at_end. rewrite Hc. simpl.
      destruct (Tokens.type t); try reflexivity; contradiction. }
    assert (Hnth : nth_error body (pos p) = Some t).
    { unfold _current in Hc. rewrite Ht, nth_error_app1 in Hc by exact Hlt.
      destruct (nth_error body (pos p)); [now injection Hc as -> | discriminate]. }
    simpl in Hrun. rewrite Ha in Hrun. simpl bind in Hrun. cbv iota in Hrun.
    destruct (loop_body_cases p stack t Hc Hne) as [[stack1 Hb] | Hb];
      rewrite Hb in Hrun; simpl in Hrun; [|discriminate].
    destruct (loop_body_push _ _ _ _ Hb) as (t' & Hc' & Hpush).
    rewrite Hc in Hc'. injection Hc' as <-.
    apply (IH (mkParser (tokens p) (pos p + 1)) stack1 stack' Ht);
      [simpl; lia | simpl pos | | exact Hrun].
    + rewrite Nat.add_1_r, (firstn_snoc _ _ _ Hnth), <- Hflat.
      destruct Hpush as [[Hnum ->] | (rest & l & r & op & Hm & -> & ->)].
      * rewrite flat_map_app. simpl. now rewrite (number_token_eta t Hnum).
      * rewrite !flat_map_app. simpl. rewrite !app_nil_r, <- !app_assoc.
        now rewrite (operator_token_eta t op (Hall t Hin) Hm).
    + destruct Hpush as [[Hnum ->] | (rest & l & r & op & Hm & -> & ->)].
      * rewrite forallb_app. simpl. now rewrite Hwf.
      * rewrite forallb_app in Hwf |- *. simpl in Hwf |- *.
        apply andb_true_iff in Hwf as [Hrest Hlr].
        apply andb_true_iff in Hlr as [Hl Hr]. rewrite andb_true_r in Hr.
        destruct (op_map_is_op _ _ Hm) as [Hop _].
        now rewrite Hrest, Hop, Hl, Hr.
Qed.

Lemma loop_body_number (p : Parser) (stack : list Ast.Expr) (t : Tokens.Token) :
  _current p = Ok t ->
  Tokens.type t = Tokens.NUMBER ->
  _at_end p = Ok false /\
  loop_body p stack =
    Ok (Continue (mkParser (tokens p) (pos p + 1))
          (stack ++ [Ast.Number (Tokens.line t) (Tokens.column t)
                                (Tokens.value t)])%list).
Proof.
  intros Hc Hn.
  assert (He : Tokens.TokenType_eqb (Tokens.type t) Tokens.EOF = false)
    by now rewrite Hn.
  split; [unfold _at_end; rewrite Hc; simpl; now rewrite He|].
  unfold loop_body. rewrite Hc. simpl bind. rewrite Hn. simpl.
  now rewrite (advance_next p t Hc He).
Qed.

Lemma loop_body_operator (p : Parser) (rest : list Ast.Expr) (l r : Ast.Expr)
  (t : Tokens.Token) (operator : string) :
  _current p = Ok t ->
  op_map (Tokens.type t) = Ok operator ->
  _at_end p = Ok false /\
  loop_body p (rest ++ [l; r])%list =
    Ok (Continue (mkParser (tokens p) (pos p + 1))
          (rest ++ [Ast.BinaryOp (Tokens.line t) (Tokens.column t)
                                 operator l r])%list).
Proof.
  intros Hc Hm.
  assert (Hop : is_operator (Tokens.type t) = true)
    by (destruct (Tokens.type t); try reflexivity; discriminate).
  destruct (operator_not_number_eof _ Hop) as (Hn & He & _).
  split; [unfold _at_end; rewrite Hc; simpl; now rewrite He|].
  unfold loop_body. rewrite Hc. simpl bind. rewrite Hn, Hop.
  assert (Hlt : (List.length (rest ++ [l; r]) <? 2)%nat = false)
    by (apply Nat.ltb_ge; rewrite length_app; simpl; lia).
  rewrite Hlt.
  replace (rest ++ [l; r])%list with ((rest ++ [l]) ++ [r])%list
    by now rewrite <- app_assoc.
  rewrite !pop_snoc, Hm. simpl bind. now rewrite (advance_next p t Hc He).
Qed.

Lemma current_after (pre post : list Tokens.Token) (t : Tokens.Token)
  (p : Parser) :
  tokens p = (pre ++ t :: post)%list ->
  pos p = List.length pre ->
  _current p = Ok t.
Proof.
  intros Ht Hp. unfold _current.
  rewrite Ht, Hp, nth_error_app2, Nat.sub_diag by lia. reflexivity.
Qed.

Lemma operator_type_map (operator : string) :
  is_op operator = true -> op_map (operator_type operator) = Ok operator.
Proof.
  intros H. now destruct (is_op_cases _ H) as [-> | [-> | [-> | ->]]].
Qed.

(** Reading the postfix form of a well-formed tree pushes that tree: the
    run of the loop from the first of its tokens is the run from the token
    after the last, with the tree on top of the stack. *)
Lemma parse_loop_reads_postfix (e : Ast.Expr) :
  well_formed e = true ->
  forall (p : Parser) (stack : list Ast.Expr) (pre post : list Tokens.Token),
    tokens p = (pre ++ postfix e ++ post)%list ->
    pos p = List.length pre ->
    parse_loop (iterations p) p stack =
      parse_loop (iterations (mkParser (tokens p)
                                       (pos p + List.length (postfix e))))
                 (mkParser (tokens p) (pos p + List.length (postfix e)))
                 (stack ++ [e])%list.
Proof.
  induction e as [ln col v | ln col op l IHl r IHr];
    intros Hwf p stack pre post Ht Hp.
  - simpl postfix in *. simpl app in Ht.
    pose proof (current_after _ _ _ p Ht Hp) as Hc.
    destruct (loop_body_number p stack _ Hc eq_refl) as [Ha Hb].
    exact (parse_loop_round _ _ _ _ Ha Hb).
  - simpl in Hwf. apply andb_true_iff in Hwf as [Hwf Hwr].
    apply andb_true_iff in Hwf as [Hop Hwl].
    simpl postfix in *.
    set (optok := Tokens.mkToken (operator_type op) op ln col) in *.
    rewrite <- !app_assoc in Ht.
    rewrite (IHl Hwl p stack pre _ Ht Hp).
    set (p1 := mkParser (tokens p) (pos p + List.length (postfix l))).
    assert (Ht1 : tokens p1 = ((pre ++ postfix l) ++ postfix r ++ [optok] ++ post)%list)
      by (simpl; rewrite Ht, <- !app_assoc; reflexivity).
    assert (Hp1 : pos p1 = List.length (pre ++ postfix l))
      by (simpl; rewrite length_app; lia).
    rewrite (IHr Hwr p1 (stack ++ [l])%list _ _ Ht1 Hp1).
    set (p2 := mkParser (tokens p1) (pos p1 + List.length (postfix r))).
    assert (Ht2 : tokens p2 = (((pre ++ postfix l) ++ postfix r) ++ optok :: post)%list)
      by (simpl; rewrite Ht, <- !app_assoc; reflexivity).
    assert (Hp2 : pos p2 = List.length ((pre ++ postfix l) ++ postfix r))
      by (simpl; rewrite !length_app; lia).
    pose proof (current_after _ _ _ p2 Ht2 Hp2) as Hc.
    destruct (loop_body_operator p2 stack l r optok op Hc (operator_type_map _ Hop))
      as [Ha Hb].
    rewrite <- app_assoc. simpl app.
    rewrite (parse_loop_round _ _ _ _ Ha Hb).
    simpl. rewrite !length_app. simpl.
    replace (pos p + List.length (postfix l) + List.length (postfix r) + 1)
      with (pos p + (List.length (postfix l) + (List.length (postfix r) + 1)))
      by lia.
    reflexivity.
Qed.

(** Whatever the tokens, the items the loop leaves on the stack are well
    formed: their operators come from [op_map]. *)
Lemma parse_loop_well_formed (n : nat) :
  forall (p : Parser) (stack stack' : list Ast.Expr),
    forallb well_formed stack = true ->
    parse_loop n p stack = Ok stack' ->
    forallb well_formed stack' = true.
Proof.
  induction n as [|n IH]; intros p stack stack' Hwf; simpl;
    destruct (_at_end p) as [[|]|]; simpl; try discriminate;
    try (now intros [= <-]).
  destruct (loop_body p stack) as [[p1 stack1|stack1]|] eqn:Hb; simpl;
    try discriminate.
  - apply IH.
    destruct (loop_body_push _ _ _ _ Hb)
      as (t & _ & [[_ ->] | (rest & l & r & op & Hm & -> & ->)]).
    + rewrite forallb_app. simpl. now rewrite Hwf.
    + rewrite forallb_app in Hwf |- *. simpl in Hwf |- *.
      apply andb_true_iff in Hwf as [Hrest Hlr].
      apply andb_true_iff in Hlr as [Hl Hr]. rewrite andb_true_r in Hr.
      destruct (op_map_is_op _ _ Hm) as [Hop _].
      now rewrite Hrest, Hop, Hl, Hr.
  - intros [= <-]. now rewrite (loop_body_break _ _ _ Hb).
Qed.

(** A tree [parse] returns is the one item its loop left. *)
Lemma parse_ok_inv (p : Parser) (root : Ast.Expr) :
  parse p = Ok root -> parse_loop (iterations p) p [] = Ok [root].
Proof.
  unfold parse. destruct (parse_loop (iterations p) p []) as [stack|];
    simpl; [|discriminate].
  destruct stack as [|e [|e' stack]]; simpl.
  - destruct (last_token p); discriminate.
  - now intros [= ->].
  - destruct (last_token p); discriminate.
Qed.

Lemma parse_well_formed (p : Parser) (root : Ast.Expr) :
  parse p = Ok root -> well_formed root = true.
Proof.
  intros H. apply parse_ok_inv in H.
  apply (parse_loop_well_formed _ p [] [root] eq_refl) in H. simpl in H.
  now rewrite andb_true_r in H.
Qed.

Lemma postfix_counts (e : Ast.Expr) :
  well_formed e = true ->
  count_numbers (postfix e) = leaves e /\
  count_operators (postfix e) = inner_nodes e /\
  leaves e = S (inner_nodes e).
Proof.
  unfold count_numbers, count_operators.
  induction e as [ln col v | ln col op l IHl r IHr]; intros Hwf.
  - now repeat split.
  - simpl in Hwf. apply andb_true_iff in Hwf as [Hwf Hwr].
    apply andb_true_iff in Hwf as [Hop Hwl].
    destruct (IHl Hwl) as (Hl1 & Hl2 & Hl3). destruct (IHr Hwr) as (Hr1 & Hr2 & Hr3).
    simpl. rewrite !filter_app, !length_app, Hl1, Hl2, Hr1, Hr2. simpl.
    assert (Hty : Tokens.TokenType_eqb (operator_type op) Tokens.NUMBER = false
                  /\ is_operator (operator_type op) = true)
      by (destruct (is_op_cases _ Hop) as [-> | [-> | [-> | ->]]]; now split).
    destruct Hty as [-> ->]. simpl. repeat split; lia.
Qed.

End PostfixForm.

(* ================================================================== *)
(** * Properties of the parser *)

Section ParserProperties.

Import Parser.

(** The postfix form of a well-formed tree, closed by EOF, is parsed into
    that tree. *)
Lemma parse_of_postfix (root : Ast.Expr) (eof : Tokens.Token) :
  well_formed root = true ->
  Tokens.type eof = Tokens.EOF ->
  parse (init (postfix root ++ [eof])%list) = Ok root.
Proof.
  intros Hwf Heof. unfold parse.
  rewrite (parse_loop_reads_postfix root Hwf (init (postfix root ++ [eof])%list)
             [] [] [eof] eq_refl eq_refl).
  simpl app.
  set (p := mkParser _ _).
  assert (Hc : _current p = Ok eof).
  { apply (current_after (postfix root) [] eof); [reflexivity | ].
    unfold p. simpl. reflexivity. }
  assert (Hrun : forall n, parse_loop n p [root] = Ok [root]).
  { intros n. destruct n; simpl; unfold _at_end; rewrite Hc; simpl;
      now rewrite Heof. }
  now rewrite Hrun.
Qed.

(** X6.  On scanned tokens closed by EOF, [parse] is the inverse of the
    postfix form: it returns a tree exactly when the tokens are the
    postfix form of that tree, operators among the four, every node
    carrying the text and the position of its token. *)
Theorem parse_inverts_postfix (body : list Tokens.Token) (eof : Tokens.Token)
  (root : Ast.Expr) :
  Forall scanned body ->
  Tokens.type eof = Tokens.EOF ->
  parse (init (body ++ [eof])%list) = Ok root <->
  (postfix root = body /\ well_formed root = true).
Proof.
  intros Hbody Heof. split.
  - intros H. apply parse_ok_inv in H.
    destruct (parse_loop_postfix body eof Hbody Heof _ (init (body ++ [eof])%list)
                [] [root] eq_refl (Nat.le_0_l _) eq_refl eq_refl H) as [Hflat Hwf].
    simpl in Hflat, Hwf. rewrite app_nil_r in Hflat. rewrite andb_true_r in Hwf.
    now split.
  - intros [<- Hwf]. now apply parse_of_postfix.
Qed.

(** X6, witness: ["5 3 +"], as tokens and as a tree. *)
Lemma parse_inverts_postfix_witness :
  Forall scanned
    [Tokens.mkToken Tokens.NUMBER "5" 1 1; Tokens.mkToken Tokens.NUMBER "3" 1 3;
     Tokens.mkToken Tokens.PLUS "+" 1 5] /\
  Tokens.type (Tokens.mkToken Tokens.EOF "" 1 6) = Tokens.EOF /\
  parse (init [Tokens.mkToken Tokens.NUMBER "5" 1 1;
               Tokens.mkToken Tokens.NUMBER "3" 1 3;
               Tokens.mkToken Tokens.PLUS "+" 1 5;
               Tokens.mkToken Tokens.EOF "" 1 6]) =
    Ok (Ast.BinaryOp 1 5 "+" (Ast.Number 1 1 "5") (Ast.Number 1 3 "3")).
Proof.
  assert (Hs : Forall scanned
                 [Tokens.mkToken Tokens.NUMBER "5" 1 1;
                  Tokens.mkToken Tokens.NUMBER "3" 1 3;
                  Tokens.mkToken Tokens.PLUS "+" 1 5]).
  { repeat constructor; simpl; try discriminate. }
  split; [exact Hs|]. split; [reflexivity|].
  apply (proj2 (parse_inverts_postfix
                  [Tokens.mkToken Tokens.NUMBER "5" 1 1;
                   Tokens.mkToken Tokens.NUMBER "3" 1 3;
                   Tokens.mkToken Tokens.PLUS "+" 1 5]
                  (Tokens.mkToken Tokens.EOF "" 1 6)
                  (Ast.BinaryOp 1 5 "+" (Ast.Number 1 1 "5") (Ast.Number 1 3 "3"))
                  Hs eq_refl)).
  split; reflexivity.
Defined.

(** X7.  A tree [parse] returns has one leaf per NUMBER token and one
    BinaryOp per operator token; so [parse] succeeds only on token lists
    with exactly one NUMBER more than operators. *)
Theorem parse_counts (body : list Tokens.Token) (eof : Tokens.Token)
  (root : Ast.Expr) :
  Forall scanned body ->
  Tokens.type eof = Tokens.EOF ->
  parse (init (body ++ [eof])%list) = Ok root ->
  leaves root = count_numbers body /\
  inner_nodes root = count_operators body /\
  count_numbers body = S (count_operators body).
Proof.
  intros Hbody Heof H. apply parse_ok_inv in H.
  destruct (parse_loop_postfix body eof Hbody Heof _ (init (body ++ [eof])%list)
              [] [root] eq_refl (Nat.le_0_l _) eq_refl eq_refl H) as [Hflat Hwf].
  simpl in Hflat, Hwf. rewrite app_nil_r in Hflat. rewrite andb_true_r in Hwf.
  destruct (postfix_counts root Hwf) as (H1 & H2 & H3).
  rewrite <- Hflat, H1, H2. now repeat split.
Qed.

(** X7, witness: the five tokens of ["2 3 + 4 *"]. *)
Lemma parse_counts_witness :
  let body := [Tokens.mkToken Tokens.NUMBER "2" 1 1;
               Tokens.mkToken Tokens.NUMBER "3" 1 3;
               Tokens.mkToken Tokens.PLUS "+" 1 5;
               Tokens.mkToken Tokens.NUMBER "4" 1 7;
               Tokens.mkToken Tokens.MULT "*" 1 9] in
  let eof := Tokens.mkToken Tokens.EOF "" 1 10 in
  Forall scanned body /\
  Tokens.type eof = Tokens.EOF /\
  parse (init (body ++ [eof])%list) = Ok sum_times_four /\
  leaves sum_times_four = count_numbers body /\
  inner_nodes sum_times_four = count_operators body /\
  count_numbers body = S (count_operators body).
Proof.
  intros body eof.
  assert (Hs : Forall scanned body).
  { repeat constructor; simpl; try discriminate. }
  split; [exact Hs|]. split; [reflexivity|]. split; [reflexivity|].
  exact (parse_counts body eof sum_times_four Hs eq_refl eq_refl).
Defined.

(** Without any EOF token the loop runs off the list. *)
Lemma parse_loop_off_the_list (n : nat) :
  forall (p : Parser) (stack : list Ast.Expr),
    Forall (fun t => Tokens.type t <> Tokens.EOF) (tokens p) ->
    parse_loop n p stack = Raise IndexError \/
    exists t, In t (tokens p) /\
      parse_loop n p stack =
        Raise (ParserError
                 ("Operator '" ++ Tokens.value t ++ "' requires two operands") t).
Proof.
  induction n as [|n IH]; intros p stack Hall;
    (destruct (_current p) as [t|e] eqn:Hc;
     [|left; simpl; unfold _at_end; rewrite Hc; simpl;
       unfold _current in Hc; destruct (nth_error (tokens p) (pos p));
       [discriminate | now injection Hc as <-]]).
  - assert (Hin : In t (tokens p)).
    { unfold _current in Hc.
      destruct (nth_error (tokens p) (pos p)) eqn:E; [|discriminate].
      injection Hc as <-. eapply nth_error_In, E. }
    rewrite Forall_forall in Hall. pose proof (Hall t Hin) as Hne.
    left. simpl. unfold _at_end. rewrite Hc. simpl.
    destruct (Tokens.type t); try reflexivity; contradiction.
  - assert (Hin : In t (tokens p)).
    { unfold _current in Hc.
      destruct (nth_error (tokens p) (pos p)) eqn:E; [|discriminate].
      injection Hc as <-. eapply nth_error_In, E. }
    pose proof Hall as Hall'. rewrite Forall_forall in Hall'.
    pose proof (Hall' t Hin) as Hne.
    assert (Ha : _at_end p = Ok false).
    { unfold _at_end. rewrite Hc. simpl.
      destruct (Tokens.type t); try reflexivity; contradiction. }
    simpl. rewrite Ha. simpl bind. cbv iota.
    destruct (loop_body_cases p stack t Hc Hne) as [[stack' ->] | ->]; simpl.
    + exact (IH (mkParser (tokens p) (pos p + 1)) stack' Hall).
    + right. now exists t.
Qed.

(** X8.  The final EOF token is required: on a token list without any EOF
    token, the empty list included, [parse] never returns a tree and never
    reports an empty or an overfull stack; it raises IndexError, unless an
    operator token lacking operands makes it raise that error first. *)
Theorem parse_without_eof (toks : list Tokens.Token) :
  Forall (fun t => Tokens.type t <> Tokens.EOF) toks ->
  parse (init toks) = Raise IndexError \/
  exists t, In t toks /\
    parse (init toks) =
      Raise (ParserError
               ("Operator '" ++ Tokens.value t ++ "' requires two operands") t).
Proof.
  intros Hall. unfold parse.
  destruct (parse_loop_off_the_list (iterations (init toks)) (init toks) [] Hall)
    as [-> | (t & Hin & ->)]; [now left | right; now exists t].
Qed.

(** X8, witness: a lone NUMBER token. *)
Lemma parse_without_eof_witness :
  Forall (fun t => Tokens.type t <> Tokens.EOF)
         [Tokens.mkToken Tokens.NUMBER "5" 1 1] /\
  parse (init [Tokens.mkToken Tokens.NUMBER "5" 1 1]) = Raise IndexError.
Proof.
  assert (H : Forall (fun t => Tokens.type t <> Tokens.EOF)
                     [Tokens.mkToken Tokens.NUMBER "5" 1 1])
    by (repeat constructor; discriminate).
  split; [exact H|].
  destruct (parse_without_eof _ H) as [E | (t & _ & E)]; [exact E|].
  discriminate E.
Defined.

End ParserProperties.

(* ================================================================== *)
(** * Properties of the generator and of the pipeline *)

Section GeneratorProperties.

Import LaTeXGenerator.

Lemma binary_ops_missing (operator : string) :
  is_op operator = false -> getitem BINARY_OPS operator = Raise (KeyError operator).
Proof.
  unfold is_op. rewrite !orb_false_iff. intros [[[H1 H2] H3] H4].
  unfold BINARY_OPS. cbn [getitem].
  now rewrite (String.eqb_sym "+"), H1, (String.eqb_sym "-"), H2,
    (String.eqb_sym "*"), H3, (String.eqb_sym "/"), H4.
Qed.

Lemma visit_unknown_operator (e : Ast.Expr) :
  well_formed e = false ->
  exists k, In k (operators e) /\ is_op k = false /\ _visit e = Raise (KeyError k).
Proof.
  induction e as [ln col v | ln col op l IHl r IHr]; intros H; [discriminate|].
  simpl in H. destruct (is_op op) eqn:Hop.
  - destruct (tables_defined _ Hop) as (symbol & prec & Hs & Hp).
    cbn [_visit]. rewrite Hs, Hp. simpl bind.
    destruct (well_formed l) eqn:Hwl.
    + simpl in H. destruct (IHr H) as (k & Hin & Hk & E).
      destruct (visit_total l Hwl) as [lout ->]. simpl bind.
      destruct (needs_parens_total l prec false Hwl) as [wl ->]. simpl bind.
      rewrite E. exists k. simpl. split; [|now split].
      right. apply in_or_app. now right.
    + destruct (IHl eq_refl) as (k & Hin & Hk & E). rewrite E.
      exists k. simpl. split; [|now split]. right. apply in_or_app. now left.
  - exists op. split; [now left|]. split; [exact Hop|].
    cbn [_visit]. now rewrite (binary_ops_missing _ Hop).
Qed.

Lemma operators_well_formed (e : Ast.Expr) (k : string) :
  well_formed e = true -> In k (operators e) -> is_op k = true.
Proof.
  induction e as [ln col v | ln col op l IHl r IHr]; simpl; [tauto|].
  intros H. apply andb_true_iff in H as [H Hwr].
  apply andb_true_iff in H as [Hop Hwl].
  intros [<- | Hin]; [exact Hop|].
  apply in_app_or in Hin as [Hin | Hin]; auto.
Qed.

Lemma height_positive (e : Ast.Expr) : 1 <= height e.
Proof. destruct e; simpl; lia. Qed.

(** The three outcomes of [_visit] under the recursion limit: the text the
    unlimited [_visit] computes, when the tree is well formed and fits;
    RecursionError, when it does not fit; KeyError on an unknown operator
    of the tree. *)
Lemma visit_limited (e : Ast.Expr) :
  forall frames,
    (well_formed e = true /\ 2 * height e <= S frames /\
     exists out, _visit e = Ok out /\ Limited._visit frames e = Ok out) \/
    (S frames < 2 * height e /\ Limited._visit frames e = Raise RecursionError) \/
    (exists k, In k (operators e) /\ is_op k = false /\
               Limited._visit frames e = Raise (KeyError k)).
Proof.
  induction e as [ln col v | ln col op l IHl r IHr]; intros frames.
  - destruct frames as [|inner].
    + right. left. split; [simpl; lia | reflexivity].
    + left. split; [reflexivity|]. split; [simpl; lia|]. now exists v.
  - pose proof (height_positive l) as Hhl. pose proof (height_positive r) as Hhr.
    destruct frames as [|inner].
    { right. left. split; [simpl; lia | reflexivity]. }
    cbn [Limited._visit Limited.call _visit well_formed height operators].
    destruct (is_op op) eqn:Hop.
    2:{ right. right. exists op. split; [now left|]. split; [exact Hop|].
        now rewrite (binary_ops_missing _ Hop). }
    destruct (tables_defined _ Hop) as (symbol & prec & Hs & Hp).
    rewrite Hs, Hp. cbn [bind].
    destruct inner as [|deeper].
    { right. left. split; [lia | reflexivity]. }
    cbn [Limited.call].
    destruct (IHl deeper) as [(Hwl & Hfl & lout & El & El') | [[Hfl El] | (k & Hin & Hk & El)]].
    2:{ right. left. rewrite El. split; [lia | reflexivity]. }
    2:{ right. right. exists k. rewrite El. split; [|now split].
        right. apply in_or_app. now left. }
    rewrite El, El'. cbn [bind].
    destruct (needs_parens_total l prec false Hwl) as [wl ->]. cbn [bind].
    destruct (IHr deeper) as [(Hwr & Hfr & rout & Er & Er') | [[Hfr Er] | (k & Hin & Hk & Er)]].
    2:{ right. left. rewrite Er. split; [lia | reflexivity]. }
    2:{ right. right. exists k. rewrite Er. split; [|now split].
        right. apply in_or_app. now right. }
    rewrite Er, Er'. cbn [bind].
    destruct (needs_parens_total r prec true Hwr) as [wr ->]. cbn [bind].
    left. rewrite Hwl, Hwr. split; [reflexivity|]. split; [lia|].
    eexists. split; reflexivity.
Qed.

(** X9.  The failure paths of [generate] are two, and the outcome is
    decided by the tree and by the room left on the stack.  It returns a
    text exactly when every operator of the tree is one of the four of its
    tables and the stack has room for two calls per level of the tree; the
    text is then the one the source text defines.  Otherwise it raises
    KeyError, the key being an operator of the tree that the tables do not
    have, or RecursionError, and the latter only when the tree is too deep
    for the room left. *)
Theorem generate_failure_paths (frames : nat) (e : Ast.Expr) :
  (forall out,
      Limited.generate frames e = Ok out <->
      well_formed e = true /\ 2 * height e <= frames /\ generate e = Ok out) /\
  (forall x,
      Limited.generate frames e = Raise x ->
      (x = RecursionError /\ frames < 2 * height e) \/
      (exists k, x = KeyError k /\ In k (operators e) /\ is_op k = false)).
Proof.
  unfold Limited.generate, generate.
  destruct frames as [|inner]; cbn [Limited.call bind].
  { pose proof (height_positive e). split.
    - intros out. split; [discriminate | intros (_ & H' & _); lia].
    - intros x [= <-]. left. split; [reflexivity | lia]. }
  destruct (visit_limited e inner)
    as [(Hw & Hf & out' & E & E') | [[Hf E] | (k & Hin & Hk & E)]];
    [rewrite E, E' | rewrite E | rewrite E].
  - cbn [bind]. split; [|discriminate].
    intros out. split; [intros H; now repeat split | now intros (_ & _ & H)].
  - cbn [bind]. split.
    + intros out. split; [discriminate | intros (_ & H' & _); lia].
    + intros x [= <-]. left. split; [reflexivity | lia].
  - cbn [bind]. split.
    + intros out. split; [discriminate|]. intros (Hw & _).
      now rewrite (operators_well_formed e k Hw Hin) in Hk.
    + intros x [= <-]. right. now exists k.
Qed.

Lemma needs_parens_forget (e : Ast.Expr) (parent_precedence : Z) (is_right : bool) :
  _needs_parens (forget e) parent_precedence is_right =
    _needs_parens e parent_precedence is_right.
Proof. now destruct e. Qed.

Lemma visit_forget (e : Ast.Expr) : _visit (forget e) = _visit e.
Proof.
  induction e as [ln col v | ln col op l IHl r IHr]; [reflexivity|].
  cbn [forget _visit].
  destruct (getitem BINARY_OPS op) as [symbol|]; [|reflexivity].
  destruct (getitem PRECEDENCE op) as [prec|]; [|reflexivity].
  simpl bind. rewrite IHl. destruct (_visit l) as [lout|]; [|reflexivity].
  simpl bind. rewrite needs_parens_forget.
  destruct (_needs_parens l prec false) as [wl|]; [|reflexivity].
  simpl bind. rewrite IHr. destruct (_visit r) as [rout|]; [|reflexivity].
  simpl bind. now rewrite needs_parens_forget.
Qed.

(** X10.  The generator never looks at positions: two trees that differ
    only in the lines and columns of their nodes are rendered alike,
    failures included. *)
Theorem generate_ignores_positions (e1 e2 : Ast.Expr) :
  forget e1 = forget e2 -> generate e1 = generate e2.
Proof.
  intros H. unfold generate.
  now rewrite <- (visit_forget e1), <- (visit_forget e2), H.
Qed.

(** X10, witness: [5 + 3], read from one line or from three. *)
Lemma generate_ignores_positions_witness :
  forget (Ast.BinaryOp 1 5 "+" (Ast.Number 1 1 "5") (Ast.Number 1 3 "3")) =
  forget (Ast.BinaryOp 3 1 "+" (Ast.Number 1 1 "5") (Ast.Number 2 1 "3")) /\
  generate (Ast.BinaryOp 1 5 "+" (Ast.Number 1 1 "5") (Ast.Number 1 3 "3")) =
  generate (Ast.BinaryOp 3 1 "+" (Ast.Number 1 1 "5") (Ast.Number 2 1 "3")).
Proof.
  split; [reflexivity|].
  exact (generate_ignores_positions
           (Ast.BinaryOp 1 5 "+" (Ast.Number 1 1 "5") (Ast.Number 1 3 "3"))
           (Ast.BinaryOp 3 1 "+" (Ast.Number 1 1 "5") (Ast.Number 2 1 "3"))
           eq_refl).
Defined.

(** On a well-formed tree the room on the stack alone decides between the
    text and RecursionError. *)
Lemma generate_limited (frames : nat) (e : Ast.Expr) (content : string) :
  well_formed e = true ->
  _visit e = Ok content ->
  Limited.generate frames e =
    if (2 * height e <=? frames)%nat then Ok ("$" ++ content ++ "$")
    else Raise RecursionError.
Proof.
  intros Hw Hv. pose proof (height_positive e) as Hh. unfold Limited.generate.
  destruct frames as [|inner]; cbn [Limited.call bind].
  { destruct (Nat.leb_spec (2 * height e) 0); [lia | reflexivity]. }
  destruct (visit_limited e inner)
    as [(_ & Hf & out & E & E') | [[Hf E] | (k & Hin & Hk & E)]].
  - rewrite Hv in E. injection E as <-. rewrite E'. cbn [bind].
    destruct (Nat.leb_spec (2 * height e) (S inner)); [reflexivity | lia].
  - rewrite E. cbn [bind].
    destruct (Nat.leb_spec (2 * height e) (S inner)); [lia | reflexivity].
  - now rewrite (operators_well_formed e k Hw Hin) in Hk.
Qed.

(** X11.  Whatever [parse] returns, [generate] knows its operators: they
    come from the parser's [op_map], whose four strings are the keys of
    the generator's tables, so the KeyError of [generate] cannot occur on
    the parser's output, for any token list.  What remains is the depth of
    the tree, which the parser does not bound: [generate] returns the text
    between two ['$'] when the stack has room for two calls per level of
    the tree, and raises RecursionError when it has not. *)
Theorem generate_after_parse (frames : nat) (toks : list Tokens.Token)
  (root : Ast.Expr) :
  Parser.parse (Parser.init toks) = Ok root ->
  exists content,
    _visit root = Ok content /\
    Limited.generate frames root =
      if (2 * height root <=? frames)%nat then Ok ("$" ++ content ++ "$")
      else Raise RecursionError.
Proof.
  intros H. apply parse_well_formed in H.
  destruct (visit_total root H) as [content E].
  exists content. split; [exact E|]. now apply generate_limited.
Qed.

(** X11, witness: the tokens of ["5 3 +"], with room for four calls. *)
Lemma generate_after_parse_witness :
  Parser.parse
    (Parser.init [Tokens.mkToken Tokens.NUMBER "5" 1 1;
                  Tokens.mkToken Tokens.NUMBER "3" 1 3;
                  Tokens.mkToken Tokens.PLUS "+" 1 5;
                  Tokens.mkToken Tokens.EOF "" 1 6]) =
    Ok (Ast.BinaryOp 1 5 "+" (Ast.Number 1 1 "5") (Ast.Number 1 3 "3")) /\
  exists content,
    _visit (Ast.BinaryOp 1 5 "+" (Ast.Number 1 1 "5") (Ast.Number 1 3 "3")) =
      Ok content /\
    Limited.generate 4
      (Ast.BinaryOp 1 5 "+" (Ast.Number 1 1 "5") (Ast.Number 1 3 "3")) =
      Ok ("$" ++ content ++ "$").
Proof.
  split; [reflexivity|].
  exact (generate_after_parse 4
           [Tokens.mkToken Tokens.NUMBER "5" 1 1;
            Tokens.mkToken Tokens.NUMBER "3" 1 3;
            Tokens.mkToken Tokens.PLUS "+" 1 5;
            Tokens.mkToken Tokens.EOF "" 1 6]
           (Ast.BinaryOp 1 5 "+" (Ast.Number 1 1 "5") (Ast.Number 1 3 "3"))
           eq_refl).
Defined.

End GeneratorProperties.

(* ================================================================== *)
(** * Trees deeper than the stack *)

Section DeepTrees.

Lemma running_sum_well_formed (n : nat) : well_formed (running_sum n) = true.
Proof. induction n as [|k IH]; [reflexivity|]. simpl. now rewrite IH. Qed.

Lemma running_sum_height (n : nat) : height (running_sum n) = S n.
Proof.
  induction n as [|k IH]; [reflexivity|].
  cbn [running_sum height]. rewrite IH. f_equal. lia.
Qed.

Lemma running_sum_postfix_length (n : nat) :
  List.length (postfix (running_sum n)) = 2 * n + 1.
Proof.
  induction n as [|k IH]; [reflexivity|].
  cbn [running_sum postfix]. rewrite !length_app, IH. simpl. lia.
Qed.

Lemma running_sum_visit (n : nat) :
  LaTeXGenerator._visit (running_sum n) = Ok (sum_latex n).
Proof.
  induction n as [|k IH]; [reflexivity|].
  cbn [running_sum LaTeXGenerator._visit sum_latex].
  cbn [LaTeXGenerator.getitem LaTeXGenerator.BINARY_OPS LaTeXGenerator.PRECEDENCE
       String.eqb Ascii.eqb Bool.eqb bind].
  rewrite IH. cbn [bind].
  destruct k as [|j]; reflexivity.
Qed.

(** X21.  The parser does not bound the depth of the tree, so no stack is
    deep enough for every input.  The running sum of [n] additions --
    the text ["1 1 + 1 + ..."], of [2 n + 1] tokens before EOF -- is
    parsed into a tree of [n + 1] levels, each addition having the sum so
    far as its left operand.  The source text of the generator defines
    its LaTeX text, ["$1 + 1 + ...$"]; but with room for fewer than
    [2 n + 2] nested calls [generate] raises RecursionError on it. *)
Theorem running_sum_overflows (n frames : nat) (eof : Tokens.Token) :
  Tokens.type eof = Tokens.EOF ->
  frames < 2 * n + 2 ->
  Parser.parse (Parser.init (postfix (running_sum n) ++ [eof])%list) =
    Ok (running_sum n) /\
  List.length (postfix (running_sum n)) = 2 * n + 1 /\
  height (running_sum n) = S n /\
  LaTeXGenerator.generate (running_sum n) = Ok ("$" ++ sum_latex n ++ "$") /\
  Limited.generate frames (running_sum n) = Raise RecursionError.
Proof.
  intros Heof Hf.
  split; [exact (parse_of_postfix _ eof (running_sum_well_formed n) Heof)|].
  split; [apply running_sum_postfix_length|].
  split; [apply running_sum_height|].
  split.
  - unfold LaTeXGenerator.generate. now rewrite running_sum_visit.
  - rewrite (generate_limited frames _ _ (running_sum_well_formed n)
               (running_sum_visit n)), running_sum_height.
    destruct (Nat.leb_spec (2 * S n) frames); [lia | reflexivity].
Qed.

(** X21, witness: the text ["1 1 + 1 +"], whose tokens are those of the
    running sum of two additions, with room for five nested calls. *)
Lemma running_sum_overflows_witness :
  Lexer.tokenize (Lexer.init "1 1 + 1 +") =
    Ok (postfix (running_sum 2) ++ [Tokens.mkToken Tokens.EOF "" 1 10])%list /\
  Tokens.type (Tokens.mkToken Tokens.EOF "" 1 10) = Tokens.EOF /\
  5 < 2 * 2 + 2 /\
  Parser.parse
    (Parser.init (postfix (running_sum 2)
                  ++ [Tokens.mkToken Tokens.EOF "" 1 10])%list) =
    Ok (running_sum 2) /\
  List.length (postfix (running_sum 2)) = 5 /\
  height (running_sum 2) = 3 /\
  LaTeXGenerator.generate (running_sum 2) = Ok "$1 + 1 + 1$" /\
  Limited.generate 5 (running_sum 2) = Raise RecursionError.
Proof.
  split; [reflexivity|]. split; [reflexivity|]. split; [lia|].
  exact (running_sum_overflows 2 5 (Tokens.mkToken Tokens.EOF "" 1 10)
           eq_refl ltac:(lia)).
Defined.

End DeepTrees.

(* ================================================================== *)
(** * Properties of the command line *)

Section CommandLine.

Import CliMain.

(** The pipeline ends with the LaTeX text, a LexerError or a ParserError:
    no other exception leaves it. *)
Lemma convert_outcome (text : string) :
  (exists content, Cli.convert text = Ok ("$" ++ content ++ "$")) \/
  (exists message line column,
      Cli.convert text = Raise (LexerError message line column)) \/
  (exists message token,
      Cli.convert text = Raise (ParserError message token)).
Proof.
  unfold Cli.convert.
  destruct (tokenize_total text) as [[toks Ht] | (c & l & k & Ht)]; rewrite Ht;
    simpl bind; [|right; left; now eexists _, _, _].
  destruct (tokenize_shape _ _ Ht) as (body & eof & -> & Hbody & Heof & _).
  pose proof (parse_ends_well_on body eof Hbody Heof) as Hwell.
  destruct (Parser.parse _) as [root|e] eqn:Hp; simpl bind.
  - left. apply parse_well_formed in Hp.
    destruct (visit_total root Hp) as [content E].
    exists content. unfold LaTeXGenerator.generate. now rewrite E.
  - right. right. destruct e; try contradiction. now eexists _, _.
Qed.

Lemma format_error_header (self : ErrorFormatter.ErrorFormatter)
  (message : string) (line column context_lines : Z) :
  exists rest,
    ErrorFormatter.format_error self message line column context_lines =
      "Error: " ++ rest.
Proof.
  unfold ErrorFormatter.format_error. simpl. eexists. reflexivity.
Qed.

(** The outcomes of the [try] block of the pipeline under the recursion
    limit: those of the unlimited pipeline, and RecursionError when the
    tree parsed is too deep for the room left. *)
Lemma convert_limited (frames : nat) (text : string) :
  (exists content root,
      parse_text text = Ok root /\ 2 * height root < frames /\
      Cli.convert text = Ok ("$" ++ content ++ "$") /\
      convert frames text = Ok ("$" ++ content ++ "$")) \/
  (exists root,
      parse_text text = Ok root /\ frames <= 2 * height root /\
      convert frames text = Raise RecursionError) \/
  (exists message line column,
      parse_text text = Raise (LexerError message line column) /\
      convert frames text = Raise (LexerError message line column)) \/
  (exists message token,
      parse_text text = Raise (ParserError message token) /\
      convert frames text = Raise (ParserError message token)).
Proof.
  pose proof (convert_outcome text) as Hout. revert Hout.
  unfold Cli.convert, convert, parse_text.
  destruct (Lexer.tokenize (Lexer.init text)) as [toks|e]; cbn [bind].
  2:{ intros [[? H] | [(m & l & c & H) | (m & t & H)]]; try discriminate;
        injection H as ->; right; right; [left | right]; eauto 6. }
  destruct (Parser.parse (Parser.init toks)) as [root|e] eqn:Hp; cbn [bind].
  2:{ intros [[? H] | [(m & l & c & H) | (m & t & H)]]; try discriminate;
        injection H as ->; right; right; [left | right]; eauto 6. }
  intros _. pose proof (parse_well_formed _ _ Hp) as Hw.
  destruct (visit_total root Hw) as [content Hv].
  unfold LaTeXGenerator.generate. rewrite Hv. cbn [bind].
  destruct frames as [|inner]; cbn [Limited.call].
  { right. left. exists root. split; [reflexivity|]. split; [lia | reflexivity]. }
  rewrite (generate_limited inner root content Hw Hv).
  destruct (Nat.leb_spec (2 * height root) inner).
  - left. exists content, root. split; [reflexivity|]. split; [lia|]. now split.
  - right. left. exists root. split; [reflexivity|]. split; [lia | reflexivity].
Qed.

(** X12.  When [main] returns, it returns 0 or 1.  It returns 0 exactly
    when the input was read, the pipeline produced the LaTeX text and the
    text was delivered: printed on the standard output or, with an output
    file, written to the file and announced on the diagnostic stream; what
    is delivered is the LaTeX text and a line feed.  When it returns 1,
    nothing was printed on the standard output and the diagnostic stream
    received a text that begins with ["Error: "].  Whenever the output
    file was written, it holds the LaTeX text and a line feed. *)
Theorem main_exit_codes (frames : nat) (input : string) (output : option string)
  (w : world) :
  let r := main frames input output w in
  (forall code, ended r = Ok code -> code = 0%Z \/ code = 1%Z) /\
  (ended r = Ok 0%Z <->
   exists text latex,
     read w = Ok text /\ convert frames text = Ok latex /\
     match output with
     | None => stdout_raises w = None
     | Some _ => write w = None /\ stderr_raises w 0 = None
     end) /\
  (ended r = Ok 0%Z ->
   exists text latex,
     read w = Ok text /\ convert frames text = Ok latex /\
     match output with
     | None => stdout r = latex ++ nl /\ stderr r = "" /\ written r = None
     | Some path =>
         stdout r = "" /\ written r = Some (latex ++ nl) /\
         stderr r = "Generated: " ++ path ++ nl
     end) /\
  (ended r = Ok 1%Z ->
   stdout r = "" /\ exists rest, stderr r = "Error: " ++ rest) /\
  (forall s, written r = Some s ->
   write w = None /\
   exists text latex,
     read w = Ok text /\ convert frames text = Ok latex /\ s = latex ++ nl).
Proof.
  intros r. subst r. unfold main.
  destruct (read w) as [text|e] eqn:Hr.
  2:{ destruct e; unfold print_stderr_return;
        try destruct (stderr_raises w 0) eqn:He0;
        cbn [ended stdout stderr written].
      all: (split; [first [intros code [= <-]; now right
                          | intros code; discriminate]|]).
      all: (split; [split; [discriminate | intros (? & ? & ? & _); discriminate]|]).
      all: (split; [discriminate|]).
      all: (split; [|discriminate]).
      all: try discriminate.
      all: intros _; split; [reflexivity | eexists; reflexivity]. }
  destruct (convert_limited frames text)
    as [(content & root & Hp & Hf & _ & E) | [(root & Hp & Hf & E) |
        [(m & l & c & Hp & E) | (m & t & Hp & E)]]]; rewrite E.
  - (* the LaTeX text *)
    destruct output as [path|].
    + destruct (write w) as [e|] eqn:Hw.
      * unfold write_failed, print_stderr_return.
        destruct e; try destruct (stderr_raises w 0) eqn:He0;
          cbn [ended stdout stderr written].
        all: (split; [first [intros code [= <-]; now right | intros code; discriminate]|]).
        all: (split; [split; [discriminate
                             | intros (? & ? & _ & _ & ? & _); discriminate]|]).
        all: (split; [discriminate|]).
        all: (split; [|discriminate]).
        all: try discriminate.
        all: intros _; split; [reflexivity | eexists; reflexivity].
      * destruct (stderr_raises w 0) as [e|] eqn:He0.
        -- unfold write_failed, print_stderr_return.
           destruct e; try destruct (stderr_raises w 1) eqn:He1;
             cbn [ended stdout stderr written].
           all: (split; [first [intros code [= <-]; now right | intros code; discriminate]|]).
           all: (split; [split; [discriminate
                                | intros (? & ? & _ & _ & _ & ?); discriminate]|]).
           all: (split; [discriminate|]).
           all: (split; [first [discriminate
                               | intros _; split; [reflexivity | eexists; reflexivity]]|]).
           all: intros s [= <-]; split; [reflexivity|];
             exists text, ("$" ++ content ++ "$"); now repeat split.
        -- cbn [ended stdout stderr written].
           split; [intros code [= <-]; now left|].
           split; [split; [|reflexivity]; intros _;
                   exists text, ("$" ++ content ++ "$"); now repeat split|].
           split; [intros _; exists text, ("$" ++ content ++ "$"); now repeat split|].
           split; [discriminate|].
           intros s [= <-]. split; [reflexivity|].
           exists text, ("$" ++ content ++ "$"). now repeat split.
    + destruct (stdout_raises w) as [e|] eqn:Ho; cbn [ended stdout stderr written].
      * split; [intros code; discriminate|].
        split; [split; [discriminate | intros (? & ? & _ & _ & ?); discriminate]|].
        split; [discriminate|]. split; discriminate.
      * split; [intros code [= <-]; now left|].
        split; [split; [|reflexivity]; intros _;
                exists text, ("$" ++ content ++ "$"); now repeat split|].
        split; [intros _; exists text, ("$" ++ content ++ "$"); now repeat split|].
        split; discriminate.
  - (* RecursionError *)
    cbn [ended stdout stderr written].
    split; [intros code; discriminate|].
    split; [split; [discriminate|];
            intros (t' & latex & [= <-] & Hc & _); rewrite E in Hc; discriminate|].
    split; [discriminate|]. split; discriminate.
  - (* LexerError *)
    unfold print_stderr_return.
    destruct (stderr_raises w 0) eqn:He0; cbn [ended stdout stderr written].
    all: (split; [first [intros code [= <-]; now right | intros code; discriminate]|]).
    all: (split; [split; [discriminate|];
                  intros (t' & latex & [= <-] & Hc & _); rewrite E in Hc; discriminate|]).
    all: (split; [discriminate|]).
    all: (split; [|discriminate]).
    all: try discriminate.
    intros _. split; [reflexivity|].
    destruct (format_error_header (ErrorFormatter.init text) m l c 1) as [rest ->].
    rewrite append_assoc. eexists; reflexivity.
  - (* ParserError *)
    unfold print_stderr_return.
    destruct (stderr_raises w 0) eqn:He0; cbn [ended stdout stderr written].
    all: (split; [first [intros code [= <-]; now right | intros code; discriminate]|]).
    all: (split; [split; [discriminate|];
                  intros (t' & latex & [= <-] & Hc & _); rewrite E in Hc; discriminate|]).
    all: (split; [discriminate|]).
    all: (split; [|discriminate]).
    all: try discriminate.
    intros _. split; [reflexivity|].
    destruct (format_error_header (ErrorFormatter.init text) m
                (Tokens.line t) (Tokens.column t) 1) as [rest ->].
    rewrite append_assoc. eexists; reflexivity.
Qed.

(** X17.  The exceptions that leave [main].  An exception that leaves it
    was raised by the environment -- by reading the input, by writing the
    output file or by a print -- or it is the RecursionError of
    [generate] on a tree too deep for the stack: the LexerError and the
    ParserError of the pipeline are caught, and its IndexError and
    KeyError do not occur.  Conversely, a tree too deep makes
    RecursionError leave [main] with nothing printed or written; an
    exception of [write_text] other than PermissionError and
    IsADirectoryError -- FileNotFoundError for a missing directory, say --
    leaves it, and so does an exception of the read other than the three
    caught. *)
Theorem main_escaping_exceptions (frames : nat) (input : string)
  (output : option string) (w : world) :
  let r := main frames input output w in
  (forall e, ended r = Raise e ->
     read w = Raise e \/ write w = Some e \/ stdout_raises w = Some e \/
     (exists n, stderr_raises w n = Some e) \/
     (e = RecursionError /\
      exists text root,
        read w = Ok text /\ parse_text text = Ok root /\
        frames <= 2 * height root)) /\
  (forall text root,
     read w = Ok text -> parse_text text = Ok root ->
     frames <= 2 * height root ->
     r = mkRun (Raise RecursionError) "" "" None) /\
  (forall text latex path e,
     read w = Ok text -> convert frames text = Ok latex ->
     output = Some path -> write w = Some e ->
     e <> PermissionError -> e <> IsADirectoryError ->
     r = mkRun (Raise e) "" "" None) /\
  (forall e,
     read w = Raise e ->
     e <> FileNotFoundError -> e <> PermissionError -> e <> IsADirectoryError ->
     r = mkRun (Raise e) "" "" None).
Proof.
  intros r. subst r. unfold main.
  destruct (read w) as [text|e] eqn:Hr.
  2:{ split; [|split; [discriminate|split; [discriminate|]]].
      - destruct e; unfold print_stderr_return;
          try destruct (stderr_raises w 0) eqn:He0; cbn [ended];
          intros x Hx; try discriminate; injection Hx as <-;
          first [now left | right; right; right; left; now exists 0].
      - intros x [= <-] H1 H2 H3. now destruct e. }
  destruct (convert_limited frames text)
    as [(content & root & Hp & Hf & _ & E) | [(root & Hp & Hf & E) |
        [(m & l & c & Hp & E) | (m & t & Hp & E)]]]; rewrite E.
  - split; [|split; [|split; [|discriminate]]].
    + destruct output as [path|].
      * destruct (write w) as [e|] eqn:Hw.
        -- unfold write_failed, print_stderr_return.
           destruct e; try destruct (stderr_raises w 0) eqn:He0; cbn [ended];
             intros x Hx; try discriminate; injection Hx as <-;
             first [now (right; left) | right; right; right; left; now exists 0].
        -- destruct (stderr_raises w 0) as [e|] eqn:He0; [|discriminate].
           unfold write_failed, print_stderr_return.
           destruct e; try destruct (stderr_raises w 1) eqn:He1; cbn [ended];
             intros x Hx; try discriminate; injection Hx as <-;
             right; right; right; left;
             first [now exists 0 | now exists 1].
      * destruct (stdout_raises w) as [e|] eqn:Ho; [|discriminate].
        intros x [= <-]. now (right; right; left).
    + intros t' root' [= <-] Hp' Hf'. rewrite Hp in Hp'. injection Hp' as <-. lia.
    + intros t' latex path e [= <-] _ -> He H1 H2. rewrite He.
      unfold write_failed. now destruct e.
  - split; [|split; [|split; [|discriminate]]].
    + intros x [= <-]. right. right. right. right. split; [reflexivity|].
      now exists text, root.
    + reflexivity.
    + intros t' latex path e [= <-] Hc. rewrite E in Hc. discriminate.
  - split; [|split; [|split; [|discriminate]]].
    + unfold print_stderr_return. destruct (stderr_raises w 0) eqn:He0; cbn [ended];
        intros x Hx; try discriminate; injection Hx as <-.
      right; right; right; left; now exists 0.
    + intros t' root [= <-] Hp' _. rewrite Hp in Hp'. discriminate.
    + intros t' latex path e [= <-] Hc. rewrite E in Hc. discriminate.
  - split; [|split; [|split; [|discriminate]]].
    + unfold print_stderr_return. destruct (stderr_raises w 0) eqn:He0; cbn [ended];
        intros x Hx; try discriminate; injection Hx as <-.
      right; right; right; left; now exists 0.
    + intros t' root [= <-] Hp' _. rewrite Hp in Hp'. discriminate.
    + intros t' latex path e [= <-] Hc. rewrite E in Hc. discriminate.
Qed.

End CommandLine.

(* ================================================================== *)
(** * Properties of the error formatter *)

Section FormatterProperties.

Import ErrorFormatter.

Lemma map_seq_shift (a : Z) (m : nat) :
  forall n k : nat,
    map (fun i => (a + Z.of_nat i)%Z) (seq (n + k) m) =
    map (fun i => (a + Z.of_nat n + Z.of_nat i)%Z) (seq k m).
Proof.
  induction m as [|m IH]; intros n k; simpl; [reflexivity|].
  f_equal; [lia|]. replace (S (n + k)) with (n + S k) by lia. apply IH.
Qed.

Lemma range_split (a b c : Z) :
  (a <= b <= c)%Z -> range a c = (range a b ++ range b c)%list.
Proof.
  intros H. unfold range.
  replace (Z.to_nat (c - a)) with (Z.to_nat (b - a) + Z.to_nat (c - b)) by lia.
  rewrite seq_app, map_app. f_equal. simpl.
  rewrite <- (Nat.add_0_r (Z.to_nat (b - a))) at 1.
  rewrite map_seq_shift. apply map_ext. intros i. lia.
Qed.

Lemma range_single (e : Z) : range e (e + 1) = [e].
Proof.
  unfold range. replace (e + 1 - e)%Z with 1%Z by lia. simpl. f_equal. lia.
Qed.

(** The context of an error line that is a line of the source, row by row. *)
Lemma get_context_in_range (self : ErrorFormatter)
  (line column context_lines : Z) :
  (1 <= line <= Z.of_nat (List.length (lines self)))%Z ->
  (0 <= context_lines)%Z ->
  let error_idx := (line - 1)%Z in
  let start_idx := Z.max 0 (error_idx - context_lines) in
  let end_idx :=
    Z.min (Z.of_nat (List.length (lines self))) (error_idx + context_lines + 1) in
  let num_width := Z.of_nat (String.length (str_of_int end_idx)) in
  _get_context self line column context_lines =
    join nl (map (numbered_line self num_width) (range start_idx error_idx)
             ++ [numbered_line self num_width error_idx;
                 caret_row num_width column]
             ++ map (numbered_line self num_width) (range (error_idx + 1) end_idx))%list.
Proof.
  intros Hline Hctx error_idx start_idx end_idx num_width.
  unfold _get_context. fold error_idx start_idx end_idx num_width.
  f_equal.
  rewrite (range_split start_idx error_idx end_idx) by (unfold start_idx, end_idx, error_idx; lia).
  rewrite (range_split error_idx (error_idx + 1) end_idx)
    by (unfold end_idx, error_idx; lia).
  rewrite range_single, !fold_left_app.
  rewrite (context_fold_plain self error_idx column num_width
             (range start_idx error_idx) []).
  2:{ intros idx Hi. apply range_bounds in Hi. unfold error_idx in *. lia. }
  simpl fold_left at 2.
  assert (Hstep : forall acc,
             context_step self error_idx column num_width acc error_idx =
               (acc ++ [numbered_line self num_width error_idx;
                        caret_row num_width column])%list).
  { intros acc. unfold context_step, numbered_line, caret_row.
    assert (H1 : (error_idx <? Z.of_nat (List.length (lines self)))%Z = true)
      by (apply Z.ltb_lt; unfold error_idx; lia).
    rewrite H1, Z.eqb_refl, <- app_assoc, !append_assoc. reflexivity. }
  rewrite Hstep, context_fold_plain.
  - simpl. now rewrite <- !app_assoc.
  - intros idx Hi. apply range_bounds in Hi. unfold end_idx, error_idx in *. lia.
Qed.

(** X13.  When the error line is a line of the source and the number of
    context lines is not negative, the context is, one per line: the
    numbered lines before the error line (at most [context_lines] of
    them), the numbered error line, the caret row -- the width of the
    line numbers in blanks, [" | "], [column - 1] blanks (none for a
    column below 1) and ['^'] -- and the numbered lines after it. *)
Theorem caret_under_error_line (self : ErrorFormatter)
  (line column context_lines : Z) :
  (1 <= line <= Z.of_nat (List.length (lines self)))%Z ->
  (0 <= context_lines)%Z ->
  let error_idx := (line - 1)%Z in
  let start_idx := Z.max 0 (error_idx - context_lines) in
  let end_idx :=
    Z.min (Z.of_nat (List.length (lines self))) (error_idx + context_lines + 1) in
  let num_width := Z.of_nat (String.length (str_of_int end_idx)) in
  _get_context self line column context_lines =
    join nl (map (numbered_line self num_width) (range start_idx error_idx)
             ++ [numbered_line self num_width error_idx;
                 caret_row num_width column]
             ++ map (numbered_line self num_width) (range (error_idx + 1) end_idx))%list.
Proof. exact (get_context_in_range self line column context_lines). Qed.

(** X13, witness: the error at line 2, column 3 of a text of three lines. *)
Lemma caret_under_error_line_witness :
  (1 <= 2 <= Z.of_nat (List.length
                         (lines (init ("5 3" ++ nl ++ "4 @" ++ nl ++ "+")))))%Z /\
  (0 <= 1)%Z /\
  _get_context (init ("5 3" ++ nl ++ "4 @" ++ nl ++ "+")) 2 3 1 =
    "1 | 5 3" ++ nl ++ "2 | 4 @" ++ nl ++ "  |   ^" ++ nl ++ "3 | +".
Proof.
  assert (H : (1 <= 2 <= Z.of_nat (List.length
                 (lines (init ("5 3" ++ nl ++ "4 @" ++ nl ++ "+")))))%Z)
    by (simpl; lia).
  split; [exact H|]. split; [lia|].
  rewrite (caret_under_error_line (init ("5 3" ++ nl ++ "4 @" ++ nl ++ "+"))
             2 3 1 H ltac:(lia)).
  reflexivity.
Defined.

(** X16.  Out-of-range requests are clamped, not refused: for a line
    number below 1 or a negative number of context lines, [_get_context]
    still returns the numbered source lines of the clamped range, but the
    error line is not among them and no caret row is printed. *)
Theorem no_caret_when_clamped (self : ErrorFormatter)
  (line column context_lines : Z) :
  (line < 1 \/ context_lines < 0)%Z ->
  let start_idx := Z.max 0 (line - 1 - context_lines) in
  let end_idx :=
    Z.min (Z.of_nat (List.length (lines self))) (line - 1 + context_lines + 1) in
  let num_width := Z.of_nat (String.length (str_of_int end_idx)) in
  (forall idx, In idx (range start_idx end_idx) -> idx <> (line - 1)%Z) /\
  _get_context self line column context_lines =
    join nl (map (numbered_line self num_width) (range start_idx end_idx)).
Proof.
  intros Hout start_idx end_idx num_width.
  assert (Hin : forall idx, In idx (range start_idx end_idx) ->
                  idx <> (line - 1)%Z /\
                  (idx < Z.of_nat (List.length (lines self)))%Z).
  { intros idx Hi. apply range_bounds in Hi. unfold start_idx, end_idx in Hi. lia. }
  split; [intros idx Hi; now apply Hin|].
  unfold _get_context. fold start_idx end_idx num_width.
  now rewrite context_fold_plain.
Qed.

(** X16, witness: line 0 of a text of two lines. *)
Lemma no_caret_when_clamped_witness :
  (0 < 1 \/ 1 < 0)%Z /\
  _get_context (init ("5 3" ++ nl ++ "+")) 0 1 1 = "1 | 5 3".
Proof.
  assert (H : (0 < 1 \/ 1 < 0)%Z) by (left; lia).
  split; [exact H|].
  rewrite (proj2 (no_caret_when_clamped (init ("5 3" ++ nl ++ "+")) 0 1 1 H)).
  reflexivity.
Defined.

Lemma splitlines_from_unbroken (v : string) :
  forall cur s : string,
    unbroken v = true ->
    splitlines_from cur false (v ++ s) = splitlines_from (cur ++ v) false s.
Proof.
  unfold unbroken. induction v as [|x v IH]; intros cur s H; simpl in *.
  - now rewrite append_nil_r.
  - apply andb_true_iff in H as [Hx Hv]. apply negb_true_iff in Hx.
    rewrite Hx, IH by exact Hv. now rewrite append_assoc.
Qed.

(** The line being accumulated is the beginning of the next line
    returned. *)
Lemma splitlines_from_first (s : string) :
  forall (cur : string) (b : bool),
    cur <> "" ->
    exists tail rest, splitlines_from cur b s = (cur ++ tail) :: rest.
Proof.
  induction s as [|c s IH]; intros cur b Hne; simpl.
  - destruct cur; [contradiction|]. simpl. exists "", []. now rewrite append_nil_r.
  - destruct (b && Ascii.eqb c LF); [now apply IH|].
    destruct (is_linebreak c).
    + exists "", (splitlines_from "" (Ascii.eqb c CR) s). now rewrite append_nil_r.
    + destruct (IH (cur ++ char1 c) false) as (tail & rest & E).
      { destruct cur; discriminate. }
      exists (char1 c ++ tail), rest. now rewrite E, append_assoc.
Qed.

Lemma substring_prefix (v t : string) :
  substring 0 (String.length v) (v ++ t) = v.
Proof.
  induction v as [|c v IH]; simpl; [now destruct t | now rewrite IH].
Qed.

Lemma substring_mid (a v t : string) :
  substring (String.length a) (String.length v) (a ++ v ++ t) = v.
Proof. induction a as [|c a IH]; simpl; [apply substring_prefix | exact IH]. Qed.

Lemma position_from_line (s : string) :
  forall line column : Z, (line <= fst (position_from line column s))%Z.
Proof.
  induction s as [|c s IH]; intros line column; simpl; [lia|].
  destruct (Ascii.eqb c LF).
  - specialize (IH (line + 1)%Z 1%Z). lia.
  - apply IH.
Qed.

(** In a text whose line boundaries are line feeds, the position the
    lexer computes for a piece of text designates that piece in the lines
    of the formatter. *)
Lemma located_in_lines (before : string) :
  forall (cur : string) (line column : Z) (v after : string),
    lf_only before = true ->
    unbroken v = true ->
    v <> "" ->
    column = (1 + Z.of_nat (String.length cur))%Z ->
    exists L,
      nth_error (splitlines_from cur false (before ++ v ++ after))
                (Z.to_nat (fst (position_from line column before) - line))
        = Some L /\
      substring (Z.to_nat (snd (position_from line column before) - 1))
                (String.length v) L = v.
Proof.
  unfold lf_only.
  induction before as [|x before IH]; intros cur line column v after Hlf Hv Hne Hcol.
  - cbn [position_from fst snd append]. rewrite Z.sub_diag.
    rewrite (splitlines_from_unbroken v cur after Hv).
    destruct (splitlines_from_first after (cur ++ v) false) as (tail & rest & ->).
    { destruct cur; [exact Hne | discriminate]. }
    exists ((cur ++ v) ++ tail). split; [reflexivity|].
    replace (Z.to_nat (column - 1)) with (String.length cur) by lia.
    rewrite append_assoc. apply substring_mid.
  - simpl in Hlf. apply andb_true_iff in Hlf as [Hx Hlf].
    cbn [position_from append splitlines_from andb].
    destruct (Ascii.eqb x LF) eqn:E.
    + apply Ascii.eqb_eq in E. subst x.
      change (is_linebreak LF) with true. cbv iota.
      change (Ascii.eqb LF CR) with false.
      destruct (IH "" (line + 1)%Z 1%Z v after Hlf Hv Hne eq_refl) as (L & Hn & Hs).
      exists L. split; [|exact Hs].
      pose proof (position_from_line before (line + 1) 1) as Hmono.
      replace (Z.to_nat (fst (position_from (line + 1) 1 before) - line))
        with (S (Z.to_nat (fst (position_from (line + 1) 1 before) - (line + 1))))
        by lia.
      exact Hn.
    + rewrite orb_false_r in Hx. apply negb_true_iff in Hx. rewrite Hx.
      apply (IH (cur ++ char1 x) line (column + 1)%Z v after Hlf Hv Hne).
      rewrite length_append. change (String.length (char1 x)) with 1. lia.
Qed.

Lemma digit_unbroken (c : ascii) :
  isdigit_char c = true -> is_linebreak c = false.
Proof.
  destruct c as [[] [] [] [] [] [] [] []]; try discriminate; reflexivity.
Qed.

Lemma digits_unbroken (ds : string) :
  all_chars isdigit_char ds = true -> unbroken ds = true.
Proof.
  unfold unbroken. induction ds as [|c ds IH]; simpl; [reflexivity|].
  intros H. apply andb_true_iff in H as [Hc Hd].
  now rewrite (digit_unbroken c Hc), IH.
Qed.

Lemma unbroken_app (a b : string) :
  unbroken (a ++ b) = unbroken a && unbroken b.
Proof. apply all_chars_app. Qed.

(** No token holds a line boundary. *)
Lemma lexeme_unbroken (tok : Tokens.Token) (rest : string) :
  lexeme tok rest -> unbroken (Tokens.value tok) = true.
Proof.
  unfold lexeme, number_lexeme. destruct (Tokens.type tok);
    try (intros ->; reflexivity); try (intros [-> _]; reflexivity);
    try contradiction.
  intros (sign & ds & frac & -> & Hsign & _ & Hd & _ & Hf).
  rewrite !unbroken_app, (digits_unbroken _ Hd).
  assert (Hs : unbroken sign = true) by (destruct Hsign as [-> | ->]; reflexivity).
  assert (Hfr : unbroken frac = true).
  { destruct Hf as [[-> _] | (ds2 & -> & Hd2)]; [reflexivity|].
    change ("." ++ ds2) with (char1 "." ++ ds2).
    rewrite unbroken_app, (digits_unbroken _ Hd2). reflexivity. }
  now rewrite Hs, Hfr.
Qed.

Lemma lf_only_app (a b : string) : lf_only (a ++ b) = lf_only a && lf_only b.
Proof. apply all_chars_app. Qed.

(** Where a lexer error lies in the lines of the formatter. *)
Lemma lexer_error_in_lines (text message : string)
  (line column : Z) :
  lf_only text = true ->
  Lexer.tokenize (Lexer.init text) = Raise (LexerError message line column) ->
  exists L c,
    (1 <= line <= Z.of_nat (List.length (lines (init text))))%Z /\
    nth_error (lines (init text)) (Z.to_nat (line - 1)) = Some L /\
    get (Z.to_nat (column - 1)) L = Some c /\
    message = "Unexpected character '" ++ char1 c ++ "'".
Proof.
  intros Hlf H.
  destruct (tokenize_outcome text)
    as [(body & E & _) | (body & good & c & rest & Hg & _ & Hw & _ & E)];
    rewrite E in H; [discriminate|].
  injection H as <- <- <-.
  assert (Hgood : lf_only good = true /\ is_linebreak c = false).
  { rewrite Hg, lf_only_app in Hlf. apply andb_true_iff in Hlf as [Hgood Hrest].
    split; [exact Hgood|]. unfold lf_only in Hrest. simpl in Hrest.
    apply andb_true_iff in Hrest as [Hc _].
    apply orb_true_iff in Hc as [Hc | Hc]; [now apply negb_true_iff in Hc|].
    apply Ascii.eqb_eq in Hc. subst c. discriminate Hw. }
  destruct Hgood as [Hgood Hc].
  destruct (located_in_lines good "" 1 1 (char1 c) rest Hgood) as (L & Hn & Hs);
    try reflexivity; try discriminate.
  { unfold unbroken. simpl. now rewrite Hc. }
  exists L, c. unfold position_after.
  pose proof (position_from_line good 1 1) as Hmono.
  assert (Hlines : lines (init text) = splitlines_from "" false (good ++ char1 c ++ rest))
    by (rewrite Hg; reflexivity).
  rewrite Hlines. split; [|split; [exact Hn|split; [|reflexivity]]].
  - assert (Hlt : Z.to_nat (fst (position_from 1 1 good) - 1)
                  < List.length (splitlines_from "" false (good ++ char1 c ++ rest)))
      by (apply nth_error_Some; rewrite Hn; discriminate).
    lia.
  - rewrite <- (Nat.add_0_l (Z.to_nat _)), <- (substring_correct1 L _ 1 0) by lia.
    simpl String.length in Hs. now rewrite Hs.
Qed.

(** X14.  The position of a lexer error is a position in the lines of the
    formatter: on a text whose line boundaries are line feeds, when
    [tokenize] raises LexerError at some line and column, that line is a
    line of [ErrorFormatter(text).lines] and its character at that column
    is the character the message names.  (The caret row of
    [format_error] is then printed for it.) *)
Theorem lexer_error_designates_character (text message : string)
  (line column : Z) :
  lf_only text = true ->
  Lexer.tokenize (Lexer.init text) = Raise (LexerError message line column) ->
  exists L c,
    (1 <= line <= Z.of_nat (List.length (lines (init text))))%Z /\
    nth_error (lines (init text)) (Z.to_nat (line - 1)) = Some L /\
    get (Z.to_nat (column - 1)) L = Some c /\
    message = "Unexpected character '" ++ char1 c ++ "'".
Proof. exact (lexer_error_in_lines text message line column). Qed.

(** X14, witness: the ['@'] on the second line of a text. *)
Lemma lexer_error_designates_character_witness :
  lf_only ("5 3" ++ nl ++ "4 @") = true /\
  Lexer.tokenize (Lexer.init ("5 3" ++ nl ++ "4 @")) =
    Raise (LexerError "Unexpected character '@'" 2 3) /\
  exists L c,
    (1 <= 2 <= Z.of_nat (List.length (lines (init ("5 3" ++ nl ++ "4 @")))))%Z /\
    nth_error (lines (init ("5 3" ++ nl ++ "4 @"))) (Z.to_nat (2 - 1)) = Some L /\
    get (Z.to_nat (3 - 1)) L = Some c /\
    "Unexpected character '@'" = "Unexpected character '" ++ char1 c ++ "'".
Proof.
  split; [reflexivity|]. split; [reflexivity|].
  exact (lexer_error_designates_character ("5 3" ++ nl ++ "4 @")
           "Unexpected character '@'" 2 3 eq_refl eq_refl).
Defined.

(** Where a token lies in the lines of the formatter. *)
Lemma token_in_lines (text : string) (toks : list Tokens.Token)
  (tok : Tokens.Token) :
  lf_only text = true ->
  Lexer.tokenize (Lexer.init text) = Ok toks ->
  In tok toks ->
  Tokens.type tok <> Tokens.EOF ->
  exists L,
    (1 <= Tokens.line tok <= Z.of_nat (List.length (lines (init text))))%Z /\
    nth_error (lines (init text)) (Z.to_nat (Tokens.line tok - 1)) = Some L /\
    substring (Z.to_nat (Tokens.column tok - 1))
              (String.length (Tokens.value tok)) L = Tokens.value tok.
Proof.
  intros Hlf H Hin Hne.
  destruct (tokenize_outcome text)
    as [(body & E & Hcov) | (? & ? & ? & ? & _ & _ & _ & _ & E)];
    rewrite E in H; [|discriminate].
  injection H as <-. apply in_app_or in Hin as [Hin | [<- | []]];
    [|now contradiction Hne].
  destruct (covers_located _ _ _ Hcov tok Hin) as (b & a & Ht & Hp & Hl).
  simpl in Ht.
  assert (Hb : lf_only b = true).
  { rewrite Ht, lf_only_app in Hlf. now apply andb_true_iff in Hlf as [Hb _]. }
  destruct (lexeme_not_empty _ _ Hl) as [Hv _].
  destruct (located_in_lines b "" 1 1 (Tokens.value tok) a Hb
              (lexeme_unbroken _ _ Hl) Hv eq_refl) as (L & Hn & Hs).
  unfold position_after in Hp.
  assert (Hline : Tokens.line tok = fst (position_from 1 1 b)) by now rewrite <- Hp.
  assert (Hcol : Tokens.column tok = snd (position_from 1 1 b)) by now rewrite <- Hp.
  pose proof (position_from_line b 1 1) as Hmono.
  assert (Hlines : lines (init text) =
                   splitlines_from "" false (b ++ Tokens.value tok ++ a))
    by (rewrite Ht; reflexivity).
  exists L. rewrite Hlines, Hline, Hcol. split; [|split; assumption].
  assert (Hlt : Z.to_nat (fst (position_from 1 1 b) - 1)
                < List.length (splitlines_from "" false (b ++ Tokens.value tok ++ a)))
    by (apply nth_error_Some; rewrite Hn; discriminate).
  lia.
Qed.

(** X15.  The position of a token is a position in the lines of the
    formatter: on a text whose line boundaries are line feeds, the line of
    every token but the final EOF is a line of [ErrorFormatter(text).lines],
    and that line holds the token's text from the token's column on. *)
Theorem token_designates_its_text (text : string) (toks : list Tokens.Token)
  (tok : Tokens.Token) :
  lf_only text = true ->
  Lexer.tokenize (Lexer.init text) = Ok toks ->
  In tok toks ->
  Tokens.type tok <> Tokens.EOF ->
  exists L,
    (1 <= Tokens.line tok <= Z.of_nat (List.length (lines (init text))))%Z /\
    nth_error (lines (init text)) (Z.to_nat (Tokens.line tok - 1)) = Some L /\
    substring (Z.to_nat (Tokens.column tok - 1))
              (String.length (Tokens.value tok)) L = Tokens.value tok.
Proof. exact (token_in_lines text toks tok). Qed.

(** X15, witness: the ['+'] on the second line of a text. *)
Lemma token_designates_its_text_witness :
  lf_only ("5 3" ++ nl ++ " +") = true /\
  Lexer.tokenize (Lexer.init ("5 3" ++ nl ++ " +")) =
    Ok [Tokens.mkToken Tokens.NUMBER "5" 1 1; Tokens.mkToken Tokens.NUMBER "3" 1 3;
        Tokens.mkToken Tokens.PLUS "+" 2 2; Tokens.mkToken Tokens.EOF "" 2 3] /\
  exists L,
    (1 <= 2 <= Z.of_nat (List.length (lines (init ("5 3" ++ nl ++ " +")))))%Z /\
    nth_error (lines (init ("5 3" ++ nl ++ " +"))) (Z.to_nat (2 - 1)) = Some L /\
    substring (Z.to_nat (2 - 1)) (String.length "+") L = "+".
Proof.
  split; [reflexivity|]. split; [reflexivity|].
  apply (token_designates_its_text ("5 3" ++ nl ++ " +")
           [Tokens.mkToken Tokens.NUMBER "5" 1 1;
            Tokens.mkToken Tokens.NUMBER "3" 1 3;
            Tokens.mkToken Tokens.PLUS "+" 2 2;
            Tokens.mkToken Tokens.EOF "" 2 3]
           (Tokens.mkToken Tokens.PLUS "+" 2 2) eq_refl eq_refl).
  - simpl. tauto.
  - discriminate.
Defined.

End FormatterProperties.

(* ================================================================== *)
(** * The caret and the character it points at *)

Section Alignment.

Import ErrorFormatter.

(** [str] of a positive number has as many characters as the number has
    decimal digits, and counting up never loses a digit: so [len(str(a))]
    is at most [len(str(b))] for [0 < a <= b]. *)
Lemma string_of_uint_length (d : Decimal.uint) :
  String.length (NilEmpty.string_of_uint d) = Decimal.nb_digits d.
Proof. induction d; simpl; congruence. Qed.

Lemma little_succ_digits (d : Decimal.uint) :
  Decimal.nb_digits d <= Decimal.nb_digits (Decimal.Little.succ d).
Proof. induction d; simpl; lia. Qed.

Lemma to_lu_digits_mono (a b : N) :
  (a <= b)%N ->
  Decimal.nb_digits (DecimalPos.Unsigned.to_lu a)
  <= Decimal.nb_digits (DecimalPos.Unsigned.to_lu b).
Proof.
  intros H. induction b as [|b IH] using N.peano_ind.
  - assert (a = 0%N) by lia. subst. lia.
  - destruct (N.eq_dec a (N.succ b)) as [-> | Hne]; [lia|].
    etransitivity; [apply IH; lia|].
    rewrite DecimalPos.Unsigned.to_lu_succ. apply little_succ_digits.
Qed.

Lemma str_of_int_length (p : positive) :
  String.length (str_of_int (Zpos p)) =
    Decimal.nb_digits (DecimalPos.Unsigned.to_lu (Npos p)).
Proof.
  unfold str_of_int. simpl. unfold NilZero.string_of_uint.
  pose proof (DecimalPos.Unsigned.to_uint_nonnil p) as Hn.
  destruct (Pos.to_uint p) eqn:E; try (now destruct Hn);
    rewrite <- E, string_of_uint_length; unfold Pos.to_uint;
    now rewrite DecimalFacts.nb_digits_rev.
Qed.

Lemma str_of_int_length_mono (a b : Z) :
  (0 < a <= b)%Z ->
  String.length (str_of_int a) <= String.length (str_of_int b).
Proof.
  intros H. destruct a as [|p|p]; try lia. destruct b as [|q|q]; try lia.
  rewrite !str_of_int_length. apply to_lu_digits_mono. lia.
Qed.

Lemma spaces_length (n : Z) : String.length (spaces n) = Z.to_nat n.
Proof.
  unfold spaces. induction (Z.to_nat n) as [|k IH]; simpl; congruence.
Qed.

(** A string no longer than the field fills it exactly. *)
Lemma rjust_length (s : string) (width : Z) :
  (Z.of_nat (String.length s) <= width)%Z ->
  String.length (rjust s width) = Z.to_nat width.
Proof.
  intros H. unfold rjust. rewrite length_append, spaces_length. lia.
Qed.

Lemma get_append_r (p s : string) (i : nat) :
  get (String.length p + i) (p ++ s) = get i s.
Proof. induction p as [|x p IH]; simpl; [reflexivity | exact IH]. Qed.

Lemma substring_append_r (p s : string) (i n : nat) :
  substring (String.length p + i) n (p ++ s) = substring i n s.
Proof. induction p as [|x p IH]; simpl; [reflexivity | exact IH]. Qed.

(** The error row and the caret row of [_get_context], measured. *)
Lemma context_aligned (self : ErrorFormatter) (line column context_lines : Z) :
  (1 <= line <= Z.of_nat (List.length (lines self)))%Z ->
  (0 <= context_lines)%Z ->
  let error_idx := (line - 1)%Z in
  let start_idx := Z.max 0 (error_idx - context_lines) in
  let end_idx :=
    Z.min (Z.of_nat (List.length (lines self))) (error_idx + context_lines + 1) in
  let num_width := Z.of_nat (String.length (str_of_int end_idx)) in
  exists field blank,
    String.length field = Z.to_nat num_width /\
    String.length blank = (Z.to_nat num_width + 3 + Z.to_nat (column - 1))%nat /\
    _get_context self line column context_lines =
      join nl (map (numbered_line self num_width) (range start_idx error_idx)
               ++ [(field ++ " | " ++ nth (Z.to_nat error_idx) (lines self) "")%string;
                   (blank ++ "^")%string]
               ++ map (numbered_line self num_width) (range (error_idx + 1) end_idx))%list.
Proof.
  intros Hline Hctx error_idx start_idx end_idx num_width.
  exists (rjust (str_of_int (error_idx + 1)) num_width),
         (spaces num_width ++ " | " ++ spaces (Z.max 0 (column - 1))).
  split; [|split].
  - apply rjust_length. unfold num_width. apply inj_le.
    apply str_of_int_length_mono. unfold end_idx, error_idx. lia.
  - rewrite !length_append, !spaces_length. simpl String.length. lia.
  - rewrite (get_context_in_range self line column context_lines Hline Hctx).
    fold error_idx start_idx end_idx num_width.
    unfold numbered_line at 2, caret_row. now rewrite !append_assoc.
Qed.

(** What [format_error] returns around an error line that is a line of the
    source: the header, an empty line, and the context with the error row
    and the caret row measured as above. *)
Lemma format_error_aligned (self : ErrorFormatter) (message : string)
  (line column : Z) (L : string) :
  (1 <= line <= Z.of_nat (List.length (lines self)))%Z ->
  nth_error (lines self) (Z.to_nat (line - 1)) = Some L ->
  exists field blank above below,
    String.length blank =
      (String.length (field ++ " | ") + Z.to_nat (column - 1))%nat /\
    format_error self message line column 1 =
      "Error: " ++ message ++ nl ++ nl
      ++ join nl (above ++ [(field ++ " | " ++ L)%string; (blank ++ "^")%string]
                  ++ below)%list.
Proof.
  intros Hline Hn.
  destruct (context_aligned self line column 1 Hline ltac:(lia))
    as (field & blank & Hfield & Hblank & E).
  rewrite (nth_error_nth _ _ "" Hn) in E.
  exists field, blank. eexists _, _. split.
  - rewrite Hblank, <- Hfield, length_append. simpl. lia.
  - unfold format_error. rewrite E. cbn [join app].
    rewrite !append_assoc. reflexivity.
Qed.

(** X18.  The caret is in the column it is asked for.  When the error
    line is a line of the source and the number of context lines is not
    negative, the row that shows the error line is the line after a field
    as wide as the line numbers and [" | "], and the row under it is
    ['^'] after as many characters as that field, the three of [" | "]
    and [column - 1] more (none for a column below 1): the line numbers
    never outgrow their field, whose width is the length of the largest
    of them. *)
Theorem caret_below_column (self : ErrorFormatter)
  (line column context_lines : Z) :
  (1 <= line <= Z.of_nat (List.length (lines self)))%Z ->
  (0 <= context_lines)%Z ->
  let error_idx := (line - 1)%Z in
  let start_idx := Z.max 0 (error_idx - context_lines) in
  let end_idx :=
    Z.min (Z.of_nat (List.length (lines self))) (error_idx + context_lines + 1) in
  let num_width := Z.of_nat (String.length (str_of_int end_idx)) in
  exists field blank,
    String.length field = Z.to_nat num_width /\
    String.length blank = (Z.to_nat num_width + 3 + Z.to_nat (column - 1))%nat /\
    _get_context self line column context_lines =
      join nl (map (numbered_line self num_width) (range start_idx error_idx)
               ++ [(field ++ " | " ++ nth (Z.to_nat error_idx) (lines self) "")%string;
                   (blank ++ "^")%string]
               ++ map (numbered_line self num_width) (range (error_idx + 1) end_idx))%list.
Proof. exact (context_aligned self line column context_lines). Qed.

(** X18, witness: line 10, column 2 of a text of ten lines, where the
    line numbers of the context have one and two digits. *)
Lemma caret_below_column_witness :
  (1 <= 10 <= Z.of_nat (List.length (lines (init ten_lines))))%Z /\
  (0 <= 1)%Z /\
  exists field blank,
    String.length field = 2 /\
    String.length blank = 6 /\
    _get_context (init ten_lines) 10 2 1 =
      join nl [" 9 | 9"; field ++ " | " ++ "1 @"; blank ++ "^"].
Proof.
  assert (H : (1 <= 10 <= Z.of_nat (List.length (lines (init ten_lines))))%Z)
    by (vm_compute; split; discriminate).
  split; [exact H|]. split; [lia|].
  exact (caret_below_column (init ten_lines) 10 2 1 H ltac:(lia)).
Defined.

(** X19.  The caret of a lexer error stands under the offending
    character.  On a text whose line boundaries are line feeds, when
    [tokenize] raises LexerError, the report [format_error] makes of it --
    what [main] prints -- is the header with the message, an empty line
    and the context; in the context, the row of the error line and the
    caret row follow each other, and the character found in the former at
    the place of the ['^'] in the latter is the character the message
    names. *)
Theorem lexer_error_caret (text message : string) (line column : Z) :
  lf_only text = true ->
  Lexer.tokenize (Lexer.init text) = Raise (LexerError message line column) ->
  exists c L field blank above below,
    message = "Unexpected character '" ++ char1 c ++ "'" /\
    nth_error (lines (init text)) (Z.to_nat (line - 1)) = Some L /\
    format_error (init text) message line column 1 =
      "Error: " ++ message ++ nl ++ nl
      ++ join nl (above ++ [(field ++ " | " ++ L)%string; (blank ++ "^")%string]
                  ++ below)%list /\
    get (String.length blank) (field ++ " | " ++ L) = Some c.
Proof.
  intros Hlf H.
  destruct (lexer_error_in_lines text message line column Hlf H)
    as (L & c & Hline & Hn & Hg & Hm).
  destruct (format_error_aligned (init text) message line column L Hline Hn)
    as (field & blank & above & below & Hblank & E).
  exists c, L, field, blank, above, below.
  split; [exact Hm|]. split; [exact Hn|]. split; [exact E|].
  now rewrite Hblank, <- append_assoc, get_append_r.
Qed.

(** X19, witness: the ['@'] on the second line of a text. *)
Lemma lexer_error_caret_witness :
  lf_only ("5 3" ++ nl ++ "4 @") = true /\
  Lexer.tokenize (Lexer.init ("5 3" ++ nl ++ "4 @")) =
    Raise (LexerError "Unexpected character '@'" 2 3) /\
  exists c L field blank above below,
    "Unexpected character '@'" = "Unexpected character '" ++ char1 c ++ "'" /\
    nth_error (lines (init ("5 3" ++ nl ++ "4 @"))) (Z.to_nat (2 - 1)) = Some L /\
    format_error (init ("5 3" ++ nl ++ "4 @")) "Unexpected character '@'" 2 3 1 =
      "Error: " ++ "Unexpected character '@'" ++ nl ++ nl
      ++ join nl (above ++ [(field ++ " | " ++ L)%string; (blank ++ "^")%string]
                  ++ below)%list /\
    get (String.length blank) (field ++ " | " ++ L) = Some c.
Proof.
  split; [reflexivity|]. split; [reflexivity|].
  exact (lexer_error_caret ("5 3" ++ nl ++ "4 @")
           "Unexpected character '@'" 2 3 eq_refl eq_refl).
Defined.

(** X20.  An error reported at a token has its caret under the first
    character of the token.  On a text whose line boundaries are line
    feeds, for every token of the text but the final EOF and whatever the
    message, the report [format_error] makes at the line and column of
    the token shows the row of the token's line and the caret row one
    after the other, and the token's text is found in the former from the
    place of the ['^'] in the latter on.  This is the report [main]
    prints for the ParserError of an operator that lacks operands, which
    carries the operator's token. *)
Theorem token_error_caret (text message : string) (toks : list Tokens.Token)
  (tok : Tokens.Token) :
  lf_only text = true ->
  Lexer.tokenize (Lexer.init text) = Ok toks ->
  In tok toks ->
  Tokens.type tok <> Tokens.EOF ->
  exists L field blank above below,
    nth_error (lines (init text)) (Z.to_nat (Tokens.line tok - 1)) = Some L /\
    format_error (init text) message (Tokens.line tok) (Tokens.column tok) 1 =
      "Error: " ++ message ++ nl ++ nl
      ++ join nl (above ++ [(field ++ " | " ++ L)%string; (blank ++ "^")%string]
                  ++ below)%list /\
    substring (String.length blank) (String.length (Tokens.value tok))
              (field ++ " | " ++ L) = Tokens.value tok.
Proof.
  intros Hlf H Hin Hne.
  destruct (token_in_lines text toks tok Hlf H Hin Hne) as (L & Hline & Hn & Hs).
  destruct (format_error_aligned (init text) message (Tokens.line tok)
              (Tokens.column tok) L Hline Hn)
    as (field & blank & above & below & Hblank & E).
  exists L, field, blank, above, below.
  split; [exact Hn|]. split; [exact E|].
  now rewrite Hblank, <- append_assoc, substring_append_r.
Qed.

(** X20, witness: the ['+'] of ["5 +"], which lacks an operand. *)
Lemma token_error_caret_witness :
  lf_only "5 +" = true /\
  Lexer.tokenize (Lexer.init "5 +") =
    Ok [Tokens.mkToken Tokens.NUMBER "5" 1 1; Tokens.mkToken Tokens.PLUS "+" 1 3;
        Tokens.mkToken Tokens.EOF "" 1 4] /\
  exists L field blank above below,
    nth_error (lines (init "5 +")) (Z.to_nat (1 - 1)) = Some L /\
    format_error (init "5 +") "Operator '+' requires two operands" 1 3 1 =
      "Error: " ++ "Operator '+' requires two operands" ++ nl ++ nl
      ++ join nl (above ++ [(field ++ " | " ++ L)%string; (blank ++ "^")%string]
                  ++ below)%list /\
    substring (String.length blank) (String.length "+") (field ++ " | " ++ L) = "+".
Proof.
  split; [reflexivity|]. split; [reflexivity|].
  exact (token_error_caret "5 +" "Operator '+' requires two operands"
           [Tokens.mkToken Tokens.NUMBER "5" 1 1; Tokens.mkToken Tokens.PLUS "+" 1 3;
            Tokens.mkToken Tokens.EOF "" 1 4]
           (Tokens.mkToken Tokens.PLUS "+" 1 3)
           eq_refl eq_refl (or_intror (or_introl eq_refl)) ltac:(discriminate)).
Defined.

End Alignment.
